(** * TOP-GRAB job portal: API route handlers over the document store

    A shallow embedding of the Next.js API routes of the job portal
    (applications, jobs and authentication) together with the Mongoose
    collections they read and write.  Each handler is a function from
    the request and the current store to a response and the next store;
    a handler that returns early returns the store it has written so far.

    Requests are served one at a time.  A document read from the store
    satisfies its schema, so the validation that [save] and [create] run
    never fails; duplicate-key errors of the unique indexes and Mongoose's
    casts of update values are represented; the [trim] and [lowercase]
    setters of the schemas' string paths are not, so a stored string is
    the one the handler assigns.  Whatever a handler takes
    from the language or from a library (JWT verification, bcrypt,
    [ObjectId] parsing, [Date] parsing, the local time zone,
    string-to-number conversion, [toLowerCase], [trim]) is a field of
    the class [Runtime]. *)

From Stdlib Require Import QArith Ascii.
From stdpp Require Import gmap strings list fin_maps.

Open Scope string_scope.

(** ** JavaScript values received in JSON bodies *)

(** [mongoose.Types.ObjectId]: the 96-bit value.  Two ids have the same
    [toString()] exactly when they are the same value, so the handlers'
    comparisons of [x.toString()] are equalities on [ObjectId]. *)
Abbreviation ObjectId := N.

(** A field destructured from [await req.json()].  [JUndefined] is an
    absent field; [JObject] stands for an array or an object and carries
    the string its [ToPrimitive] conversion yields. *)
Inductive JSValue :=
| JUndefined
| JNull
| JBool (b : bool)
| JNum (q : Q)
| JStr (s : string)
| JObject (prim : string).

(** [!!v] *)
Definition truthy (v : JSValue) : bool :=
  match v with
  | JUndefined | JNull => false
  | JBool b => b
  | JNum q => negb (Qeq_bool q 0)
  | JStr s => negb (s =? "")
  | JObject _ => true
  end.

(** [v === undefined] *)
Definition is_undefined (v : JSValue) : bool :=
  match v with JUndefined => true | _ => false end.

(** [!s] for an optional string such as a cookie value. *)
Definition present (o : option string) : option string :=
  match o with
  | Some s => if s =? "" then None else Some s
  | None => None
  end.

(** The decoded JWT payload: [{ userId, role, username }]. *)
Record TokenPayload := {
  tok_userId : string;
  tok_role : string;
  tok_username : string
}.

(** What the handlers import from the language and from their libraries
    (jsonwebtoken, bcryptjs, bson, [Date], [Number], [String.prototype]).
    [None] is a thrown error for [ObjectId_new], [null] for [verifyToken],
    an invalid date for [Date_parse] and [NaN] for [StringToNumber].
    [LocalTZA t isUTC] is the local time zone adjustment of ECMAScript,
    in milliseconds: for a UTC time [t] when [isUTC], else for a local
    time [t], which at a change of the clocks is read with the
    adjustment in force before the change. *)
Class Runtime := {
  verifyToken : string → option TokenPayload;
  createToken : TokenPayload → string;
  verifyPassword : string → string → bool;
  hashPassword : string → string;
  ObjectId_isValid : string → bool;
  ObjectId_new : string → option ObjectId;
  ObjectId_toString : ObjectId → string;
  Date_parse : string → option Z;
  StringToNumber : string → option Q;
  toLowerCase : string → string;
  trim : string → string;
  LocalTZA : Z → bool → Z
}.

(** ** A concrete runtime, used to run the handlers on examples *)

Definition hex_digit (c : ascii) : option N :=
  let n := N_of_ascii c in
  if (48 <=? n)%N && (n <=? 57)%N then Some (n - 48)%N
  else if (97 <=? n)%N && (n <=? 102)%N then Some (n - 87)%N
  else if (65 <=? n)%N && (n <=? 70)%N then Some (n - 55)%N
  else None.

Fixpoint hex_value (s : string) (acc : N) : option N :=
  match s with
  | EmptyString => Some acc
  | String c s' =>
      match hex_digit c with
      | Some d => hex_value s' (16 * acc + d)%N
      | None => None
      end
  end.

(** 24 hexadecimal digits. *)
Definition hex24 (s : string) : option ObjectId :=
  if Nat.eqb (String.length s) 24 then hex_value s 0%N else None.

Definition hex_char (d : N) : ascii :=
  if (d <? 10)%N then ascii_of_N (48 + d) else ascii_of_N (87 + d).

Fixpoint hex_digits (n : nat) (x : N) (acc : string) : string :=
  match n with
  | O => acc
  | S n' => hex_digits n' (x / 16)%N (String (hex_char (x mod 16)%N) acc)
  end.

(** [id.toString()]: 24 lowercase hexadecimal digits. *)
Definition hex_of_ObjectId (x : ObjectId) : string := hex_digits 24 x "".

Definition lower_ascii (c : ascii) : ascii :=
  let n := N_of_ascii c in
  if (65 <=? n)%N && (n <=? 90)%N then ascii_of_N (n + 32) else c.

Fixpoint lower_string (s : string) : string :=
  match s with
  | EmptyString => EmptyString
  | String c s' => String (lower_ascii c) (lower_string s')
  end.

(** The example runtime knows three session tokens: two employers and
    one job seeker. *)
Definition demo_employer_id : string := "0000000000000000000000e1".
Definition demo_other_employer_id : string := "0000000000000000000000e2".
Definition demo_seeker_id : string := "0000000000000000000000a1".

Definition demo_verifyToken (t : string) : option TokenPayload :=
  if t =? "employer-e1" then
    Some {| tok_userId := demo_employer_id; tok_role := "employer"; tok_username := "acme" |}
  else if t =? "employer-e2" then
    Some {| tok_userId := demo_other_employer_id; tok_role := "employer"; tok_username := "globex" |}
  else if t =? "seeker-a1" then
    Some {| tok_userId := demo_seeker_id; tok_role := "job-seeker"; tok_username := "ann" |}
  else None.

Definition demoRuntime : Runtime := {|
  verifyToken := demo_verifyToken;
  createToken := λ p, tok_role p +:+ ":" +:+ tok_userId p +:+ ":" +:+ tok_username p;
  verifyPassword := λ plain hash, hash =? ("hash(" +:+ plain +:+ ")");
  hashPassword := λ plain, "hash(" +:+ plain +:+ ")";
  ObjectId_isValid := λ s, match hex24 s with Some _ => true | None => false end;
  ObjectId_new := hex24;
  ObjectId_toString := hex_of_ObjectId;
  Date_parse := λ s,
    if s =? "2020-01-01" then Some 1577836800000%Z
    else if s =? "2099-01-01" then Some 4070908800000%Z
    else None;
  StringToNumber := λ s, if s =? "" then Some 0%Q else if s =? "3" then Some 3%Q else None;
  toLowerCase := lower_string;
  trim := λ s, s;
  LocalTZA := λ _ _, 0%Z
|}.

(** ** Documents and collections *)

(** [lib/models/application.ts]: the [status] enum. *)
Inductive AppStatus :=
  Pending | Reviewed | Shortlisted | Interviewed | Selected | Rejected.

(** [lib/models/job.ts]: the [status] enum. *)
Inductive JobStatus := Active | Closed | Draft.

#[global] Instance AppStatus_eq_dec : EqDecision AppStatus.
Proof. solve_decision. Defined.

#[global] Instance JobStatus_eq_dec : EqDecision JobStatus.
Proof. solve_decision. Defined.

Definition status_enum : list string :=
  ["Pending"; "Reviewed"; "Shortlisted"; "Interviewed"; "Selected"; "Rejected"].

Definition AppStatus_to_string (s : AppStatus) : string :=
  match s with
  | Pending => "Pending" | Reviewed => "Reviewed" | Shortlisted => "Shortlisted"
  | Interviewed => "Interviewed" | Selected => "Selected" | Rejected => "Rejected"
  end.

Definition AppStatus_of_string (s : string) : option AppStatus :=
  if s =? "Pending" then Some Pending
  else if s =? "Reviewed" then Some Reviewed
  else if s =? "Shortlisted" then Some Shortlisted
  else if s =? "Interviewed" then Some Interviewed
  else if s =? "Selected" then Some Selected
  else if s =? "Rejected" then Some Rejected
  else None.

(** [IJob]; [job_deadline] is the optional deadline string. *)
Record Job := {
  job_employerId : ObjectId;
  job_title : string;
  job_company : string;
  job_location : string;
  job_deadline : option string;
  job_status : JobStatus;
  job_applicants : Z
}.

(** [IApplication]; a stored [rating] is a number or [null] ([None]). *)
Record Application := {
  app_jobId : ObjectId;
  app_jobSeekerId : ObjectId;
  app_applicantName : string;
  app_applicantEmail : string;
  app_status : AppStatus;
  app_rating : option Q
}.

(** An element of [IJobSeeker.appliedJobs].  The handlers test
    [appliedJob.jobId] and [appliedJob.applicationId] for presence, so
    both are optional here. *)
Record AppliedJob := {
  aj_jobId : option ObjectId;
  aj_applicationId : option ObjectId;
  aj_jobTitle : string;
  aj_company : string;
  aj_location : string;
  aj_status : AppStatus;
  aj_rating : option Q
}.

(** The authentication fields shared by [IJobSeeker] and [IEmployer].
    An expiry is a time in milliseconds, or [null]. *)
Record Account := {
  username : string;
  passwordHash : string;
  firstName : string;
  lastName : string;
  email : string;
  isEmailVerified : bool;
  emailVerificationToken : string;
  emailVerificationTokenExpiry : option Z;
  passwordResetToken : string;
  passwordResetTokenExpiry : option Z
}.

(** [IJobSeeker].  A hydrated document always has the [appliedJobs]
    array (schema default [[]]). *)
Record JobSeeker := {
  js_account : Account;
  appliedJobs : list AppliedJob
}.

(** [IEmployer]. *)
Record Employer := {
  emp_account : Account;
  emp_name : string
}.

(** The four collections, keyed by [_id]. *)
Record Store := {
  jobs : gmap ObjectId Job;
  applications : gmap ObjectId Application;
  jobseekers : gmap ObjectId JobSeeker;
  employers : gmap ObjectId Employer
}.

Definition with_jobs (st : Store) (m : gmap ObjectId Job) : Store :=
  {| jobs := m; applications := applications st;
     jobseekers := jobseekers st; employers := employers st |}.

Definition with_applications (st : Store) (m : gmap ObjectId Application) : Store :=
  {| jobs := jobs st; applications := m;
     jobseekers := jobseekers st; employers := employers st |}.

Definition with_jobseekers (st : Store) (m : gmap ObjectId JobSeeker) : Store :=
  {| jobs := jobs st; applications := applications st;
     jobseekers := m; employers := employers st |}.

Definition with_employers (st : Store) (m : gmap ObjectId Employer) : Store :=
  {| jobs := jobs st; applications := applications st;
     jobseekers := jobseekers st; employers := m |}.

Definition set_job_status (s : JobStatus) (j : Job) : Job :=
  {| job_employerId := job_employerId j; job_title := job_title j;
     job_company := job_company j; job_location := job_location j;
     job_deadline := job_deadline j; job_status := s;
     job_applicants := job_applicants j |}.

Definition inc_job_applicants (d : Z) (j : Job) : Job :=
  {| job_employerId := job_employerId j; job_title := job_title j;
     job_company := job_company j; job_location := job_location j;
     job_deadline := job_deadline j; job_status := job_status j;
     job_applicants := (job_applicants j + d)%Z |}.

Definition set_appliedJobs (l : list AppliedJob) (s : JobSeeker) : JobSeeker :=
  {| js_account := js_account s; appliedJobs := l |}.

(** ** Responses *)

(** The fields of a formatted job that the properties below read. *)
Record JobView := {
  jv_id : ObjectId;
  jv_title : string;
  jv_deadline : option string;
  jv_status : JobStatus;
  jv_employerId : ObjectId
}.

Inductive Body :=
| Message (message : string)
| ApplicationJson (id jobId applicantId : ObjectId) (status : AppStatus) (rating : option Q)
| JobJson (job : JobView)
| JobsJson (jobs : list JobView)
| UserJson (message : string) (id : ObjectId) (uname : string) (role : string).

(** A [NextResponse]: status code, the [auth_token] cookie it sets (if
    any) and the JSON body. *)
Record Response := {
  resp_status : nat;
  resp_cookie : option string;
  resp_body : Body
}.

(** [NextResponse.json(body, { status })] *)
Definition json (b : Body) (code : nat) : Response :=
  {| resp_status := code; resp_cookie := None; resp_body := b |}.

Notation "'let?' x ':=' e 'or' r 'in' k" :=
  (match e with Some x => k | None => r end)
  (at level 10, x name, e at level 100, r at level 100, k at level 200,
   format "'[v' 'let?'  x  ':='  e  'or'  r  'in' '/' k ']'").

Notation "'unless' c 'return' r 'in' k" :=
  (if c then r else k)
  (at level 10, c at level 100, r at level 100, k at level 200,
   format "'[v' 'unless'  c  'return'  r  'in' '/' k ']'").

(** ** Mongoose casting and update operators *)

Section Handlers.
Context `{RT : Runtime}.

(** [Number(v)] on a JSON value; [None] is [NaN]. *)
Definition ToNumber (v : JSValue) : option Q :=
  match v with
  | JUndefined => None
  | JNull => Some 0%Q
  | JBool b => Some (if b then 1%Q else 0%Q)
  | JNum q => Some q
  | JStr s => StringToNumber s
  | JObject prim => StringToNumber prim
  end.

(** [v >= q] and [v <= q] for a number [q]. *)
Definition js_ge (v : JSValue) (q : Q) : bool :=
  match ToNumber v with Some x => Qle_bool q x | None => false end.

Definition js_le (v : JSValue) (q : Q) : bool :=
  match ToNumber v with Some x => Qle_bool x q | None => false end.

(** [arr.includes(v)] for an array of strings. *)
Definition includes (arr : list string) (v : JSValue) : bool :=
  match v with
  | JStr s => bool_decide (s ∈ arr)
  | _ => false
  end.

(** Mongoose's cast of a value written to a [Number] path:
    [null] and the empty string are stored as [null], booleans and
    numeric strings as their number; [None] is a [CastError]. *)
Definition castNumber (v : JSValue) : option (option Q) :=
  match v with
  | JUndefined | JNull => Some None
  | JBool b => Some (Some (if b then 1%Q else 0%Q))
  | JNum q => Some (Some q)
  | JStr s =>
      if s =? "" then Some None
      else match StringToNumber s with
           | Some q => Some (Some q)
           | None => None
           end
  | JObject _ => None
  end.

(** Mongoose's cast of a value written to the [status] path. *)
Definition castStatus (v : JSValue) : option AppStatus :=
  match v with
  | JStr s => AppStatus_of_string s
  | _ => None
  end.

(** The keys of [updateFields] / [updateAppliedJobs] after casting. *)
Record StatusRatingUpdate := {
  upd_status : option AppStatus;
  upd_rating : option (option Q)
}.

Definition set_application (u : StatusRatingUpdate) (a : Application) : Application :=
  {| app_jobId := app_jobId a; app_jobSeekerId := app_jobSeekerId a;
     app_applicantName := app_applicantName a;
     app_applicantEmail := app_applicantEmail a;
     app_status := default (app_status a) (upd_status u);
     app_rating := default (app_rating a) (upd_rating u) |}.

Definition set_appliedJob (u : StatusRatingUpdate) (e : AppliedJob) : AppliedJob :=
  {| aj_jobId := aj_jobId e; aj_applicationId := aj_applicationId e;
     aj_jobTitle := aj_jobTitle e; aj_company := aj_company e;
     aj_location := aj_location e;
     aj_status := default (aj_status e) (upd_status u);
     aj_rating := default (aj_rating e) (upd_rating u) |}.

(** The positional operator [appliedJobs.$]: the first element that
    matches the query is updated. *)
Fixpoint update_first {A} (p : A → bool) (f : A → A) (l : list A) : list A :=
  match l with
  | [] => []
  | x :: l' => if p x then f x :: l' else x :: update_first p f l'
  end.

Definition has_applicationId (id : ObjectId) (e : AppliedJob) : bool :=
  bool_decide (aj_applicationId e = Some id).

Definition has_jobId (id : ObjectId) (e : AppliedJob) : bool :=
  bool_decide (aj_jobId e = Some id).

(** [JobSeeker.updateOne({ _id, 'appliedJobs.applicationId': id },
    { $set: { 'appliedJobs.$.status': .., 'appliedJobs.$.rating': .. } })] *)
Definition JobSeeker_updateOne_appliedJob
    (sid id : ObjectId) (u : StatusRatingUpdate)
    (m : gmap ObjectId JobSeeker) : gmap ObjectId JobSeeker :=
  alter (λ s, set_appliedJobs
                (update_first (has_applicationId id) (set_appliedJob u) (appliedJobs s)) s)
        sid m.

(** ** PATCH /api/applications/[applicationId] *)

Record PatchBody := {
  pb_status : JSValue;
  pb_rating : JSValue
}.

(** [patch_body] is [None] when [req.json()] or the destructuring of
    its result throws. *)
Record PatchRequest := {
  patch_cookie : option string;
  patch_body : option PatchBody
}.

(** [status && [...].includes(status)] *)
Definition status_accepted (status : JSValue) : bool :=
  truthy status && includes status_enum status.

(** [rating !== undefined && rating >= 0 && rating <= 5] *)
Definition rating_accepted (rating : JSValue) : bool :=
  negb (is_undefined rating) && js_ge rating 0 && js_le rating 5.

(** The cast of [{ $set: updateFields }]; [None] is a [CastError],
    thrown before anything is written. *)
Definition cast_update (status rating : JSValue) : option StatusRatingUpdate :=
  let? s := (if status_accepted status then Some <$> castStatus status else Some None)
    or None in
  let? r := (if rating_accepted rating then Some <$> castNumber rating else Some None)
    or None in
  Some {| upd_status := s; upd_rating := r |}.

(** [Object.keys(updateAppliedJobs).length > 0]; [updateAppliedJobs] is
    built from the same two tests as [updateFields]. *)
Definition has_keys (u : StatusRatingUpdate) : bool :=
  bool_decide (is_Some (upd_status u)) || bool_decide (is_Some (upd_rating u)).

Definition applications_PATCH
    (applicationId : string) (req : PatchRequest) (st : Store) : Response * Store :=
  let? token := present (patch_cookie req)
    or (json (Message "Authentication required.") 401, st) in
  let? decoded := verifyToken token
    or (json (Message "Invalid or expired token.") 401, st) in
  unless negb (tok_role decoded =? "employer")
    return (json (Message "Access denied. Only employers can update application status.") 403, st) in
  let? data := patch_body req
    or (json (Message "Internal server error while updating application.") 500, st) in
  let status := pb_status data in
  let rating := pb_rating data in
  let? applicationIdObjectId := ObjectId_new applicationId
    or (json (Message "Internal server error while updating application.") 500, st) in
  let? employerIdObjectId := ObjectId_new (tok_userId decoded)
    or (json (Message "Internal server error while updating application.") 500, st) in
  let? application := applications st !! applicationIdObjectId
    or (json (Message "Application not found.") 404, st) in
  let? job := jobs st !! app_jobId application
    or (json (Message "Job not found.") 404, st) in
  unless negb (job_employerId job =? employerIdObjectId)%N
    return (json (Message "Access denied. You can only update applications for your own jobs.") 403, st) in
  let? updateFields := cast_update status rating
    or (json (Message "Internal server error while updating application.") 500, st) in
  let applications' :=
    alter (set_application updateFields) applicationIdObjectId (applications st) in
  let? updatedApplication := applications' !! applicationIdObjectId
    or (json (Message "Failed to update application.") 500, st) in
  let jobSeekerIdObjectId := app_jobSeekerId updatedApplication in
  let jobseekers' :=
    if has_keys updateFields
    then JobSeeker_updateOne_appliedJob
           jobSeekerIdObjectId applicationIdObjectId updateFields (jobseekers st)
    else jobseekers st in
  (json (ApplicationJson applicationIdObjectId
           (app_jobId updatedApplication) (app_jobSeekerId updatedApplication)
           (app_status updatedApplication) (app_rating updatedApplication)) 200,
   with_jobseekers (with_applications st applications') jobseekers').

(** ** Queries *)

(** [Model.findOne(query)]: a document that satisfies the query, if any. *)
Definition findOne {A} (query : A → bool) (m : gmap ObjectId A) : option (ObjectId * A) :=
  List.find (λ kv, query kv.2) (map_to_list m).

(** [Model.find(query)] *)
Definition find_all {A} (query : A → bool) (m : gmap ObjectId A) : list (ObjectId * A) :=
  List.filter (λ kv, query kv.2) (map_to_list m).

(** [Model.deleteMany(query)] *)
Definition deleteMany {A} (query : A → bool) (m : gmap ObjectId A) : gmap ObjectId A :=
  filter (λ kv, query kv.2 = false) m.

(** [now > new Date(s)]; a comparison with an invalid date is false. *)
Definition date_passed (now : Z) (s : string) : bool :=
  match Date_parse s with
  | Some d => (d <? now)%Z
  | None => false
  end.

(** ** POST /api/applications *)

Record ApplyBody := {
  ab_jobId : JSValue;
  ab_coverLetter : JSValue;
  ab_resume : JSValue
}.

Record ApplyRequest := {
  apply_cookie : option string;
  apply_body : option ApplyBody
}.

(** [(v || '').trim()] throws a [TypeError] unless [v] is falsy or a string. *)
Definition trimmed_text (v : JSValue) : option string :=
  if truthy v then
    match v with
    | JStr s => Some (trim s)
    | _ => None
    end
  else Some "".

Definition same_job_and_seeker (jobId jobSeekerId : ObjectId) (a : Application) : bool :=
  (app_jobId a =? jobId)%N && (app_jobSeekerId a =? jobSeekerId)%N.

(** [Application.create(doc)] with the driver-generated [_id].  [None]
    is the duplicate-key error E11000, raised by the [_id] index or by
    the unique index on [(jobId, jobSeekerId)]. *)
Definition Application_create (newId : ObjectId) (a : Application)
    (m : gmap ObjectId Application) : option (gmap ObjectId Application) :=
  match m !! newId with
  | Some _ => None
  | None =>
      match findOne (same_job_and_seeker (app_jobId a) (app_jobSeekerId a)) m with
      | Some _ => None
      | None => Some (<[newId := a]> m)
      end
  end.

(** [appliedJobData]: the entry the apply route pushes onto
    [appliedJobs]. *)
Definition pushed_entry (jid newId : ObjectId) (job : Job) : AppliedJob :=
  {| aj_jobId := Some jid; aj_applicationId := Some newId;
     aj_jobTitle := job_title job; aj_company := job_company job;
     aj_location := job_location job; aj_status := Pending;
     aj_rating := Some 0%Q |}.

Definition applications_POST
    (now : Z) (newId : ObjectId) (req : ApplyRequest) (st : Store) : Response * Store :=
  let error500 :=
    json (Message "Internal server error while creating application. Please try again.") 500 in
  let? token := present (apply_cookie req)
    or (json (Message "Authentication required.") 401, st) in
  let? decoded := verifyToken token
    or (json (Message "Invalid or expired token.") 401, st) in
  unless negb (tok_role decoded =? "job-seeker")
    return (json (Message "Access denied. Only job seekers can apply.") 403, st) in
  let? data := apply_body req or (error500, st) in
  let jobId := ab_jobId data in
  unless negb (truthy jobId)
    return (json (Message "Job ID is required.") 400, st) in
  let? jobSeekerIdObjectId := ObjectId_new (tok_userId decoded) or (error500, st) in
  match jobId with
  | JStr jobIdString =>
  unless negb (ObjectId_isValid jobIdString)
    return (json (Message "Invalid job ID format. Please refresh the page and try again.") 400, st) in
  unless negb (String.length jobIdString =? 24)%nat
    return (json (Message "Invalid job ID format. Expected 24-character MongoDB ObjectId.") 400, st) in
  let? jobIdObjectId := ObjectId_new jobIdString
    or (json (Message "Invalid job ID format. Please refresh the page and try again.") 400, st) in
  let? job := jobs st !! jobIdObjectId
    or (json (Message "Job not found.") 404, st) in
  unless negb (bool_decide (job_status job = Active))
    return (json (Message "This job is no longer accepting applications.") 400, st) in
  unless (match present (job_deadline job) with
          | Some deadline => date_passed now deadline
          | None => false
          end)
    return (json (Message "Application deadline has passed.") 400,
            with_jobs st (alter (set_job_status Closed) jobIdObjectId (jobs st))) in
  let? _ := (match findOne (same_job_and_seeker jobIdObjectId jobSeekerIdObjectId)
                           (applications st) with
             | Some _ => None
             | None => Some ()
             end)
    or (json (Message "You have already applied to this job.") 400, st) in
  let? jobSeeker := jobseekers st !! jobSeekerIdObjectId
    or (json (Message "Job seeker profile not found.") 404, st) in
  unless (firstName (js_account jobSeeker) =? "") || (lastName (js_account jobSeeker) =? "")
    return (json (Message "Job seeker profile is incomplete. Please complete your profile before applying.") 400, st) in
  unless existsb (has_jobId jobIdObjectId) (appliedJobs jobSeeker)
    return (json (Message "You have already applied to this job.") 400, st) in
  let? _ := trimmed_text (ab_coverLetter data) or (error500, st) in
  let? _ := trimmed_text (ab_resume data) or (error500, st) in
  let applicationData :=
    {| app_jobId := jobIdObjectId;
       app_jobSeekerId := jobSeekerIdObjectId;
       app_applicantName :=
         trim (firstName (js_account jobSeeker) +:+ " " +:+ lastName (js_account jobSeeker));
       app_applicantEmail :=
         (let e := trim (email (js_account jobSeeker)) in
          if e =? "" then username (js_account jobSeeker) +:+ "@email.com" else e);
       app_status := Pending;
       app_rating := Some 0%Q |} in
  let? applications' := Application_create newId applicationData (applications st)
    or (error500, st) in
  let jobs' := alter (inc_job_applicants 1) jobIdObjectId (jobs st) in
  let appliedJobData := pushed_entry jobIdObjectId newId job in
  let jobseekers' :=
    match jobseekers st !! jobSeekerIdObjectId with
    | None => jobseekers st
    | Some jobSeekerDoc =>
        if existsb (has_jobId jobIdObjectId) (appliedJobs jobSeekerDoc)
        then jobseekers st
        else <[jobSeekerIdObjectId :=
                 set_appliedJobs (appliedJobs jobSeekerDoc ++ [appliedJobData]) jobSeekerDoc]>
               (jobseekers st)
    end in
  (json (ApplicationJson newId jobIdObjectId jobSeekerIdObjectId Pending (Some 0%Q)) 201,
   with_jobseekers (with_applications (with_jobs st jobs') applications') jobseekers')
  | _ =>
    (json (Message "Invalid job ID format. Expected MongoDB ObjectId string.") 400, st)
  end.

(** ** DELETE /api/my-applications/[applicationId] *)

(** The callback of [jobSeeker.appliedJobs.filter(...)]: an entry is
    dropped when its [applicationId] is the target, or when it has no
    [applicationId] and its [jobId] is the application's job. *)
Definition keep_appliedJob
    (applicationIdObjectId jobIdObjectId : ObjectId) (appliedJob : AppliedJob) : bool :=
  match aj_applicationId appliedJob with
  | Some appliedJobAppId =>
      if (appliedJobAppId =? applicationIdObjectId)%N then false else true
  | None =>
      match aj_jobId appliedJob with
      | Some appliedJobJobId =>
          if (appliedJobJobId =? jobIdObjectId)%N then false else true
      | None => true
      end
  end.

Definition my_applications_DELETE
    (applicationId : string) (cookie : option string) (st : Store) : Response * Store :=
  let error500 := json (Message "Internal server error while removing application.") 500 in
  let? token := present cookie
    or (json (Message "Authentication required.") 401, st) in
  let? decoded := verifyToken token
    or (json (Message "Invalid or expired token.") 401, st) in
  unless negb (tok_role decoded =? "job-seeker")
    return (json (Message "Access denied. Job seeker access only.") 403, st) in
  unless (applicationId =? "") || negb (ObjectId_isValid applicationId)
    return (json (Message "Invalid application ID format.") 400, st) in
  let? applicationIdObjectId := ObjectId_new applicationId
    or (json (Message "Invalid application ID format.") 400, st) in
  let? jobSeekerIdObjectId := ObjectId_new (tok_userId decoded) or (error500, st) in
  let? application := applications st !! applicationIdObjectId
    or (json (Message "Application not found.") 404, st) in
  unless negb (app_jobSeekerId application =? jobSeekerIdObjectId)%N
    return (json (Message "Access denied. You can only remove your own applications.") 403, st) in
  let jobIdObjectId := app_jobId application in
  let jobseekers' :=
    match jobseekers st !! jobSeekerIdObjectId with
    | Some jobSeeker =>
        let filteredAppliedJobs :=
          List.filter (keep_appliedJob applicationIdObjectId jobIdObjectId)
                      (appliedJobs jobSeeker) in
        <[jobSeekerIdObjectId := set_appliedJobs filteredAppliedJobs jobSeeker]>
          (jobseekers st)
    | None => jobseekers st
    end in
  let applications' := delete applicationIdObjectId (applications st) in
  let jobs' := alter (inc_job_applicants (-1)) jobIdObjectId (jobs st) in
  (json (Message "Application removed successfully.") 200,
   with_jobseekers (with_applications (with_jobs st jobs') applications') jobseekers').

(** ** GET and DELETE /api/jobs/[jobId] *)

Definition format_job (id : ObjectId) (status : JobStatus) (job : Job) : JobView :=
  {| jv_id := id; jv_title := job_title job; jv_deadline := job_deadline job;
     jv_status := status; jv_employerId := job_employerId job |}.

Definition jobs_id_GET (jobId : string) (st : Store) : Response * Store :=
  let? jobIdObjectId := ObjectId_new jobId
    or (json (Message "Internal server error while fetching job.") 500, st) in
  let? job := jobs st !! jobIdObjectId
    or (json (Message "Job not found.") 404, st) in
  (json (JobJson (format_job jobIdObjectId (job_status job) job)) 200, st).

(** [[...new Set(ids)]]: the distinct ids in order of first occurrence. *)
Definition distinct (ids : list ObjectId) : list ObjectId :=
  foldl (λ seen id, if bool_decide (id ∈ seen) then seen else (seen ++ [id])%list) [] ids.

(** The callback of the filter in the clean-up loop: an entry is kept
    when it has a [jobId] and that is not the deleted job. *)
Definition keep_other_job (jobIdObjectId : ObjectId) (appliedJob : AppliedJob) : bool :=
  match aj_jobId appliedJob with
  | Some j => negb (j =? jobIdObjectId)%N
  | None => false
  end.

(** One iteration of [for (const jobSeekerIdStr of jobSeekerIds)]. *)
Definition remove_job_from_seeker
    (jobIdObjectId : ObjectId) (m : gmap ObjectId JobSeeker) (jobSeekerIdObjectId : ObjectId)
    : gmap ObjectId JobSeeker :=
  match m !! jobSeekerIdObjectId with
  | Some jobSeeker =>
      let initialLength := length (appliedJobs jobSeeker) in
      let filtered := List.filter (keep_other_job jobIdObjectId) (appliedJobs jobSeeker) in
      if negb (length filtered =? initialLength)%nat
      then <[jobSeekerIdObjectId := set_appliedJobs filtered jobSeeker]> m
      else m
  | None => m
  end.

Definition jobs_id_DELETE
    (jobId : string) (cookie : option string) (st : Store) : Response * Store :=
  let error500 := json (Message "Internal server error while deleting job.") 500 in
  let? token := present cookie
    or (json (Message "Authentication required.") 401, st) in
  let? decoded := verifyToken token
    or (json (Message "Invalid or expired token.") 401, st) in
  unless negb (tok_role decoded =? "employer")
    return (json (Message "Access denied. Only employers can delete jobs.") 403, st) in
  let? jobIdObjectId := ObjectId_new jobId or (error500, st) in
  let? employerIdObjectId := ObjectId_new (tok_userId decoded) or (error500, st) in
  let? job := jobs st !! jobIdObjectId
    or (json (Message "Job not found.") 404, st) in
  unless negb (job_employerId job =? employerIdObjectId)%N
    return (json (Message "Access denied. You can only delete your own jobs.") 403, st) in
  let applications_found :=
    find_all (λ a, (app_jobId a =? jobIdObjectId)%N) (applications st) in
  let jobSeekerIds := distinct ((λ kv, app_jobSeekerId kv.2) <$> applications_found) in
  let jobseekers' := foldl (remove_job_from_seeker jobIdObjectId) (jobseekers st) jobSeekerIds in
  let applications' := deleteMany (λ a, (app_jobId a =? jobIdObjectId)%N) (applications st) in
  let jobs' := delete jobIdObjectId (jobs st) in
  (json (Message "Job deleted successfully.") 200,
   {| jobs := jobs'; applications := applications';
      jobseekers := jobseekers'; employers := employers st |}).

(** ** GET /api/jobs/employer *)

(** [status === 'Active' && job.deadline] and [now > deadlineDate]. *)
Definition expired (now : Z) (job : Job) : bool :=
  bool_decide (job_status job = Active) &&
  match present (job_deadline job) with
  | Some deadline => date_passed now deadline
  | None => false
  end.

Definition jobs_employer_GET
    (now : Z) (cookie : option string) (st : Store) : Response * Store :=
  let? token := present cookie
    or (json (Message "Authentication required.") 401, st) in
  let? decoded := verifyToken token
    or (json (Message "Invalid or expired token.") 401, st) in
  unless negb (tok_role decoded =? "employer")
    return (json (Message "Access denied. Employer access only.") 403, st) in
  let? employerIdObjectId := ObjectId_new (tok_userId decoded)
    or (json (Message "Internal server error while fetching jobs.") 500, st) in
  (* the order given by [.sort({ postedDate: -1 })] is not represented *)
  let found := find_all (λ j, (job_employerId j =? employerIdObjectId)%N) (jobs st) in
  let jobsWithApplicants :=
    (λ kv, format_job kv.1 (if expired now kv.2 then Closed else job_status kv.2) kv.2)
      <$> found in
  let jobs' :=
    foldl (λ m kv, if expired now kv.2 then alter (set_job_status Closed) kv.1 m else m)
          (jobs st) found in
  (json (JobsJson jobsWithApplicants) 200, with_jobs st jobs').

(** ** POST /api/auth/register *)

(** The string fields of the JSON body; [None] is an absent field.
    The bodies of the three authentication routes are taken to hold
    strings only. *)
Record RegisterBody := {
  rb_username : option string;
  rb_password : option string;
  rb_firstName : option string;
  rb_lastName : option string;
  rb_role : option string;
  rb_email : option string
}.

(** [s.includes('@')] *)
Fixpoint includes_at (s : string) : bool :=
  match s with
  | EmptyString => false
  | String c s' => (N_of_ascii c =? 64)%N || includes_at s'
  end.

(** The query [{ $or: [{ username }, { email }] }]. *)
Definition username_or_email (usernameLower emailLower : string) (a : Account) : bool :=
  (username a =? usernameLower) || (email a =? emailLower).

(** [Model.create(doc)] on a user collection; [None] is the
    duplicate-key error E11000 of the [_id] index or of the unique
    index on [username]. *)
Definition User_create {A} (account_of : A → Account) (newId : ObjectId) (doc : A)
    (m : gmap ObjectId A) : option (gmap ObjectId A) :=
  match m !! newId with
  | Some _ => None
  | None =>
      match findOne (λ d, username (account_of d) =? username (account_of doc)) m with
      | Some _ => None
      | None => Some (<[newId := doc]> m)
      end
  end.

(** [generateTokenExpiry(30)]: [expiry.setMinutes(expiry.getMinutes() +
    minutes)] adds the minutes to the local time of [now] and converts
    the result back, [UTC(LocalTime(now) + minutes * 60000)]. *)
Definition generateTokenExpiry (now : Z) (minutes : Z) : Z :=
  let t := (now + LocalTZA now true)%Z in
  let date := (t + minutes * 60000)%Z in
  (date - LocalTZA date false)%Z.

Definition auth_register_POST
    (now : Z) (newId : ObjectId) (secureToken : string)
    (body : option RegisterBody) (st : Store) : Response * Store :=
  let? data := body
    or (json (Message "Registration failed. Please try again.") 500, st) in
  let missing := (json (Message "Missing required fields.") 400, st) in
  let? username_ := present (rb_username data) or missing in
  let? password := present (rb_password data) or missing in
  let? firstName_ := present (rb_firstName data) or missing in
  let? lastName_ := present (rb_lastName data) or missing in
  let? role := present (rb_role data) or missing in
  unless (String.length password <? 6)%nat
    return (json (Message "Password must be at least 6 characters long.") 400, st) in
  let? email_ := present (rb_email data)
    or (json (Message "Valid email address is required.") 400, st) in
  unless negb (includes_at email_)
    return (json (Message "Valid email address is required.") 400, st) in
  unless negb (role =? "job-seeker") && negb (role =? "employer")
    return (json (Message "Invalid role.") 400, st) in
  let usernameLower := toLowerCase username_ in
  let emailLower := trim (toLowerCase email_) in
  let existingJobSeeker :=
    findOne (λ s, username_or_email usernameLower emailLower (js_account s)) (jobseekers st) in
  let existingEmployer :=
    findOne (λ e, username_or_email usernameLower emailLower (emp_account e)) (employers st) in
  unless bool_decide (is_Some existingJobSeeker) || bool_decide (is_Some existingEmployer)
    return (json (Message "User with this username or email already exists.") 409, st) in
  let account :=
    {| username := usernameLower;
       passwordHash := hashPassword password;
       firstName := firstName_;
       lastName := lastName_;
       email := emailLower;
       isEmailVerified := false;
       emailVerificationToken := secureToken;
       emailVerificationTokenExpiry := Some (generateTokenExpiry now 30);
       passwordResetToken := "";
       passwordResetTokenExpiry := None |} in
  let duplicate := (json (Message "User with this username or email already exists.") 409, st) in
  let created :=
    UserJson "Registration successful! Please check your email to verify your account."
             newId usernameLower role in
  if role =? "job-seeker" then
    let? jobseekers' :=
      User_create js_account newId {| js_account := account; appliedJobs := [] |} (jobseekers st)
      or duplicate in
    (json created 201, with_jobseekers st jobseekers')
  else
    let? employers' :=
      User_create emp_account newId {| emp_account := account; emp_name := "" |} (employers st)
      or duplicate in
    (json created 201, with_employers st employers').

(** ** POST /api/auth/login *)

Record LoginBody := {
  lb_username : option string;
  lb_password : option string;
  lb_role : option string
}.

(** A document of either user collection, with its [_id] and [role]. *)
Record User := {
  user_id : ObjectId;
  user_role : string;
  user_account : Account
}.

Definition JobSeeker_findOne (query : Account → bool) (st : Store) : option User :=
  (λ kv, {| user_id := kv.1; user_role := "job-seeker"; user_account := js_account kv.2 |})
    <$> findOne (λ s, query (js_account s)) (jobseekers st).

Definition Employer_findOne (query : Account → bool) (st : Store) : option User :=
  (λ kv, {| user_id := kv.1; user_role := "employer"; user_account := emp_account kv.2 |})
    <$> findOne (λ e, query (emp_account e)) (employers st).

(** Step 2 of the login route: the collection is chosen by [role]. *)
Definition login_find_user (role : option string) (usernameLower : string) (st : Store)
    : option User :=
  let by_username := λ a, username a =? usernameLower in
  if bool_decide (role = Some "job-seeker") then JobSeeker_findOne by_username st
  else if bool_decide (role = Some "employer") then Employer_findOne by_username st
  else match JobSeeker_findOne by_username st with
       | Some user => Some user
       | None => Employer_findOne by_username st
       end.

Definition auth_login_POST (body : option LoginBody) (st : Store) : Response * Store :=
  let? data := body
    or (json (Message "An unexpected error occurred during login.") 500, st) in
  let required := (json (Message "Username and password are required.") 400, st) in
  let? username_ := present (lb_username data) or required in
  let? password := present (lb_password data) or required in
  let usernameLower := toLowerCase username_ in
  let? user := login_find_user (lb_role data) usernameLower st
    or (json (Message "Invalid credentials.") 401, st) in
  unless negb (verifyPassword password (passwordHash (user_account user)))
    return (json (Message "Invalid credentials.") 401, st) in
  let token :=
    createToken {| tok_userId := ObjectId_toString (user_id user);
                   tok_role := user_role user;
                   tok_username := username (user_account user) |} in
  ({| resp_status := 200;
      resp_cookie := Some token;
      resp_body := UserJson "Login successful!" (user_id user)
                            (username (user_account user)) (user_role user) |},
   st).

(** ** POST /api/auth/reset-password *)

Record ResetBody := {
  rs_token : option string;
  rs_newPassword : option string
}.

(** [isTokenExpired(expiryDate)] from [lib/token-utils.ts]. *)
Definition isTokenExpired (now : Z) (expiryDate : option Z) : bool :=
  match expiryDate with
  | None => true
  | Some e => (e <? now)%Z
  end.

Definition reset_account (hashedPassword : string) (a : Account) : Account :=
  {| username := username a;
     passwordHash := hashedPassword;
     firstName := firstName a;
     lastName := lastName a;
     email := email a;
     isEmailVerified := isEmailVerified a;
     emailVerificationToken := emailVerificationToken a;
     emailVerificationTokenExpiry := emailVerificationTokenExpiry a;
     passwordResetToken := "";
     passwordResetTokenExpiry := None |}.

(** Step 2 of the reset route: job seekers first, then employers. *)
Definition reset_find_user (token : string) (st : Store) : option User :=
  let by_token := λ a, passwordResetToken a =? token in
  match JobSeeker_findOne by_token st with
  | Some user => Some user
  | None => Employer_findOne by_token st
  end.

Definition auth_reset_password_POST
    (now : Z) (body : option ResetBody) (st : Store) : Response * Store :=
  let? data := body
    or (json (Message "An error occurred during password reset.") 500, st) in
  let required := (json (Message "Token and new password are required.") 400, st) in
  let? token := present (rs_token data) or required in
  let? newPassword := present (rs_newPassword data) or required in
  unless (String.length newPassword <? 6)%nat
    return (json (Message "Password must be at least 6 characters long.") 400, st) in
  let? user := reset_find_user token st
    or (json (Message "Invalid or expired reset token.") 400, st) in
  unless isTokenExpired now (passwordResetTokenExpiry (user_account user))
    return (json (Message "Reset token has expired. Please request a new one.") 400, st) in
  unless negb (isEmailVerified (user_account user))
    return (json (Message "Please verify your email first.") 403, st) in
  let hashedPassword := hashPassword newPassword in
  let st' :=
    if user_role user =? "job-seeker"
    then with_jobseekers st
           (alter (λ s, {| js_account := reset_account hashedPassword (js_account s);
                           appliedJobs := appliedJobs s |})
                  (user_id user) (jobseekers st))
    else with_employers st
           (alter (λ e, {| emp_account := reset_account hashedPassword (emp_account e);
                           emp_name := emp_name e |})
                  (user_id user) (employers st)) in
  (json (Message "Password reset successfully! You can now log in with your new password.") 200,
   st').

End Handlers.

(** ** Example store

    One employer (acme) with one job, a second employer (globex), and
    one job seeker (ann) who has applied to acme's job. *)

Definition acme_id : ObjectId := 225%N.
Definition globex_id : ObjectId := 226%N.
Definition ann_id : ObjectId := 161%N.
Definition demo_job_id : ObjectId := 177%N.
Definition demo_application_id : ObjectId := 193%N.

Definition demo_job_param : string := "0000000000000000000000b1".
Definition demo_application_param : string := "0000000000000000000000c1".

Definition demo_account (name hash : string) (verified : bool) : Account :=
  {| username := name; passwordHash := hash; firstName := "First"; lastName := "Last";
     email := name +:+ "@example.org"; isEmailVerified := verified;
     emailVerificationToken := ""; emailVerificationTokenExpiry := None;
     passwordResetToken := "reset-" +:+ name;
     passwordResetTokenExpiry := Some 2000000000000%Z |}.

Definition demo_job : Job :=
  {| job_employerId := acme_id; job_title := "Engineer"; job_company := "Acme";
     job_location := "Remote"; job_deadline := Some "2099-01-01";
     job_status := Active; job_applicants := 1 |}.

Definition demo_application : Application :=
  {| app_jobId := demo_job_id; app_jobSeekerId := ann_id;
     app_applicantName := "First Last"; app_applicantEmail := "ann@example.org";
     app_status := Pending; app_rating := Some 3%Q |}.

Definition demo_appliedJob : AppliedJob :=
  {| aj_jobId := Some demo_job_id; aj_applicationId := Some demo_application_id;
     aj_jobTitle := "Engineer"; aj_company := "Acme"; aj_location := "Remote";
     aj_status := Pending; aj_rating := Some 3%Q |}.

Definition demo_employers : gmap ObjectId Employer :=
  <[acme_id := {| emp_account := demo_account "acme" "hash(acme-secret)" true;
                  emp_name := "Acme" |}]>
  (<[globex_id := {| emp_account := demo_account "globex" "hash(globex-secret)" true;
                     emp_name := "Globex" |}]> ∅).

(** ann has registered but never verified her email address. *)
Definition demo_ann (applied : list AppliedJob) : JobSeeker :=
  {| js_account := demo_account "ann" "hash(ann-secret)" false; appliedJobs := applied |}.

(** The store before ann applies. *)
Definition demo_store0 : Store :=
  {| jobs := <[demo_job_id := inc_job_applicants (-1) demo_job]> ∅;
     applications := ∅;
     jobseekers := <[ann_id := demo_ann []]> ∅;
     employers := demo_employers |}.

(** The store after ann has applied and acme has rated her 3. *)
Definition demo_store : Store :=
  {| jobs := <[demo_job_id := demo_job]> ∅;
     applications := <[demo_application_id := demo_application]> ∅;
     jobseekers := <[ann_id := demo_ann [demo_appliedJob]]> ∅;
     employers := demo_employers |}.

(** The same job with a deadline that passed on 2020-01-01. *)
Definition demo_expired_store : Store :=
  {| jobs := <[demo_job_id :=
                 {| job_employerId := acme_id; job_title := "Engineer";
                    job_company := "Acme"; job_location := "Remote";
                    job_deadline := Some "2020-01-01";
                    job_status := Active; job_applicants := 0 |}]> ∅;
     applications := ∅;
     jobseekers := <[ann_id := demo_ann []]> ∅;
     employers := demo_employers |}.

(** 2026-11-01T00:00:00Z in milliseconds. *)
Definition demo_now : Z := 1793491200000%Z.

Definition patch_request (token : string) (status rating : JSValue) : PatchRequest :=
  {| patch_cookie := Some token;
     patch_body := Some {| pb_status := status; pb_rating := rating |} |}.

Definition apply_request (token : string) (jobId : string) : ApplyRequest :=
  {| apply_cookie := Some token;
     apply_body := Some {| ab_jobId := JStr jobId; ab_coverLetter := JUndefined;
                           ab_resume := JUndefined |} |}.

Definition acme_token : TokenPayload :=
  {| tok_userId := demo_employer_id; tok_role := "employer"; tok_username := "acme" |}.

Definition globex_token : TokenPayload :=
  {| tok_userId := demo_other_employer_id; tok_role := "employer";
     tok_username := "globex" |}.

Definition ann_token : TokenPayload :=
  {| tok_userId := demo_seeker_id; tok_role := "job-seeker"; tok_username := "ann" |}.

Definition demo_login (name pwd : string) : LoginBody :=
  {| lb_username := Some name; lb_password := Some pwd; lb_role := None |}.

Definition demo_registration (name pwd : string) : RegisterBody :=
  {| rb_username := Some name; rb_password := Some pwd;
     rb_firstName := Some "Ada"; rb_lastName := Some "Smith";
     rb_role := Some "job-seeker"; rb_email := Some "ada@example.org" |}.

(** ** Specification predicates *)

(** A stored rating in the closed interval [0, 5]. *)
Definition rating_in_range (r : option Q) : Prop :=
  match r with
  | Some q => (0 <= q)%Q ∧ (q <= 5)%Q
  | None => False
  end.

(** The entry [e] of a seeker's [appliedJobs] mirrors the application
    [a] stored under [id]. *)
Definition mirrors (e : AppliedJob) (id : ObjectId) (a : Application) : Prop :=
  aj_applicationId e = Some id ∧ aj_jobId e = Some (app_jobId a) ∧
  aj_status e = app_status a ∧ aj_rating e = app_rating a.

(** Every application has a mirror entry in its owner's [appliedJobs],
    every entry mirrors an application of that seeker, and no seeker
    lists an application twice. *)
Definition consistent (st : Store) : Prop :=
  (∀ id a, applications st !! id = Some a →
     ∃ s e, jobseekers st !! app_jobSeekerId a = Some s ∧
            e ∈ appliedJobs s ∧ mirrors e id a) ∧
  (∀ sid s e, jobseekers st !! sid = Some s → e ∈ appliedJobs s →
     ∃ id a, applications st !! id = Some a ∧ app_jobSeekerId a = sid ∧ mirrors e id a) ∧
  (∀ sid s, jobseekers st !! sid = Some s → NoDup (aj_applicationId <$> appliedJobs s)).

(** At most one application per (job, job seeker) pair. *)
Definition unique_pairs (st : Store) : Prop :=
  ∀ id1 id2 a1 a2,
    applications st !! id1 = Some a1 → applications st !! id2 = Some a2 →
    app_jobId a1 = app_jobId a2 → app_jobSeekerId a1 = app_jobSeekerId a2 →
    id1 = id2.

(** What the clean-up loop leaves of a seeker's document. *)
Definition without_job (jid : ObjectId) (s : JobSeeker) : JobSeeker :=
  set_appliedJobs (List.filter (keep_other_job jid) (appliedJobs s)) s.

(** [a] is the account of a job seeker or of an employer of the store. *)
Definition has_account (st : Store) (a : Account) : Prop :=
  (∃ id s, jobseekers st !! id = Some s ∧ js_account s = a) ∨
  (∃ id e, employers st !! id = Some e ∧ emp_account e = a).

(** [rejected r]: a client-error response. *)
Definition rejected (r : Response) : Prop := 400 ≤ resp_status r < 500.

Section Reachability.
Context `{RT : Runtime}.

(** One request served by one of the routes above.  They include every
    route of the repository that writes the applications collection. *)
Inductive step : Store → Store → Prop :=
| step_apply now newId req st :
    step st (applications_POST now newId req st).2
| step_patch applicationId req st :
    step st (applications_PATCH applicationId req st).2
| step_remove applicationId cookie st :
    step st (my_applications_DELETE applicationId cookie st).2
| step_get_job jobId st :
    step st (jobs_id_GET jobId st).2
| step_delete_job jobId cookie st :
    step st (jobs_id_DELETE jobId cookie st).2
| step_employer_jobs now cookie st :
    step st (jobs_employer_GET now cookie st).2
| step_register now newId secureToken body st :
    step st (auth_register_POST now newId secureToken body st).2
| step_login body st :
    step st (auth_login_POST body st).2
| step_reset now body st :
    step st (auth_reset_password_POST now body st).2.

(** The stores the routes can produce from a store with no application. *)
Definition reachable (st : Store) : Prop :=
  ∃ st0, applications st0 = ∅ ∧ rtc step st0 st.

End Reachability.

(** * Further routes and helpers *)

(** ** middleware.ts *)

Definition protectedRoutes : list string :=
  ["/job-seeker/profile"; "/employer/profile"; "/api/user/profile";
   "/settings"; "/api/user/settings"].

Definition publicRoutes : list string :=
  ["/auth/login/job-seeker"; "/auth/login/employer";
   "/auth/register/job-seeker"; "/auth/register/employer";
   "/"; "/terms"; "/privacy"].

(** [s.startsWith(p)] *)
Definition startsWith (s p : string) : bool := String.prefix p s.

(** [s.includes(p)] *)
Definition string_includes (s p : string) : bool :=
  match String.index 0 p s with
  | Some _ => true
  | None => false
  end.

(** [NextResponse.next()] or [NextResponse.redirect(new URL(path, request.url))]. *)
Inductive MiddlewareResult :=
| Next
| Redirect (path : string).

Definition middleware (pathname : string) (cookie : option string) : MiddlewareResult :=
  let token := present cookie in
  let isProtectedRoute := existsb (λ route, startsWith pathname route) protectedRoutes in
  let isPublicRoute := bool_decide (pathname ∈ publicRoutes) in
  if isProtectedRoute then
    match token with
    | None =>
        let loginUrl :=
          if startsWith pathname "/job-seeker"
          then "/auth/login/job-seeker" else "/auth/login/employer" in
        Redirect loginUrl
    | Some _ => Next
    end
  else if bool_decide (is_Some token) && isPublicRoute &&
          (startsWith pathname "/auth/login" || startsWith pathname "/auth/register")
  then
    let redirectPath :=
      if string_includes pathname "job-seeker" then "/job-seeker" else "/employer" in
    Redirect redirectPath
  else Next.

(** ** lib/token-utils.ts: generateTemporaryPassword *)

Definition charset : string :=
  "ABCDEFGHJKLMNPQRSTUVWXYZabcdefghijkmnopqrstuvwxyz23456789".

(** [charset[index]]; an index past the end does not occur, as the index
    is a remainder modulo [charset.length]. *)
Definition charset_at (index : nat) : ascii :=
  default "?"%char (String.get index charset).

(** The loop over [bytes = crypto.randomBytes(length)], which holds
    [length] bytes: [password += charset[bytes[i] % charset.length]]. *)
Fixpoint generateTemporaryPassword (bytes : list N) : string :=
  match bytes with
  | [] => ""
  | byte :: rest =>
      String (charset_at (N.to_nat byte mod String.length charset))
             (generateTemporaryPassword rest)
  end.

(** ** retryOperation (the profile routes) *)

(** A thrown error: its [name] and its [status], if it has one. *)
Record JSError := {
  err_name : string;
  err_status : option nat
}.

(** How one call of [operation()] settles. *)
Inductive Settled (T : Type) :=
| Resolved (value : T)
| Failed (error : JSError).
Arguments Resolved {T} value.
Arguments Failed {T} error.

(** What [retryOperation] does: it returns a value or throws
    [lastError] ([None] is [undefined]); [run_calls] counts the calls
    of [operation] and [run_delays] lists the [setTimeout] delays. *)
Record RetryRun (T : Type) := {
  run_result : T + option JSError;
  run_calls : nat;
  run_delays : list nat
}.
Arguments run_result {T} r.
Arguments run_calls {T} r.
Arguments run_delays {T} r.

(** [error.name === 'ValidationError' || error.name === 'CastError' ||
    error.status === 401 || error.status === 403] *)
Definition no_retry (error : JSError) : bool :=
  (err_name error =? "ValidationError") || (err_name error =? "CastError") ||
  bool_decide (err_status error = Some 401) || bool_decide (err_status error = Some 403).

(** The [for] loop from [attempt] on, with [remaining] iterations left;
    [operation k] is how the [k]-th call settles. *)
Fixpoint retry_loop {T} (operation : nat → Settled T) (maxRetries delayMs : nat)
    (remaining attempt : nat) (lastError : option JSError) : RetryRun T :=
  match remaining with
  | O => {| run_result := inr lastError; run_calls := 0; run_delays := [] |}
  | S remaining' =>
      match operation attempt with
      | Resolved value =>
          {| run_result := inl value; run_calls := 1; run_delays := [] |}
      | Failed error =>
          if no_retry error
          then {| run_result := inr (Some error); run_calls := 1; run_delays := [] |}
          else
            let rest := retry_loop operation maxRetries delayMs remaining'
                                   (S attempt) (Some error) in
            {| run_result := run_result rest;
               run_calls := S (run_calls rest);
               run_delays :=
                 if (attempt <? maxRetries)%nat
                 then (delayMs * attempt)%nat :: run_delays rest
                 else run_delays rest |}
      end
  end.

Definition retryOperation {T} (operation : nat → Settled T)
    (maxRetries delayMs : nat) : RetryRun T :=
  retry_loop operation maxRetries delayMs maxRetries 1 None.

Section MoreHandlers.
Context `{RT : Runtime}.

(** ** GET /api/auth/verify-email *)

(** The search of both collections for the token. *)
Definition verify_find_user (token : string) (st : Store) : option User :=
  let by_token := λ a, emailVerificationToken a =? token in
  match JobSeeker_findOne by_token st with
  | Some user => Some user
  | None => Employer_findOne by_token st
  end.

Definition verified_account (a : Account) : Account :=
  {| username := username a;
     passwordHash := passwordHash a;
     firstName := firstName a;
     lastName := lastName a;
     email := email a;
     isEmailVerified := true;
     emailVerificationToken := "";
     emailVerificationTokenExpiry := None;
     passwordResetToken := passwordResetToken a;
     passwordResetTokenExpiry := passwordResetTokenExpiry a |}.

(** [user.save()] after the fields of [user.account] were assigned. *)
Definition save_account (user : User) (f : Account → Account) (st : Store) : Store :=
  if user_role user =? "job-seeker"
  then with_jobseekers st
         (alter (λ s, {| js_account := f (js_account s); appliedJobs := appliedJobs s |})
                (user_id user) (jobseekers st))
  else with_employers st
         (alter (λ e, {| emp_account := f (emp_account e); emp_name := emp_name e |})
                (user_id user) (employers st)).

(** [token] is [searchParams.get('token')]. *)
Definition auth_verify_email_GET
    (now : Z) (token : option string) (st : Store) : Response * Store :=
  let? token := present token
    or (json (Message "Verification token is required.") 400, st) in
  let? user := verify_find_user token st
    or (json (Message "Invalid or expired verification token.") 400, st) in
  unless isTokenExpired now (emailVerificationTokenExpiry (user_account user))
    return (json (Message "Verification token has expired. Please request a new one.") 400, st) in
  unless isEmailVerified (user_account user)
    return (json (Message "Email is already verified.") 200, st) in
  (json (Message "Email verified successfully! You can now log in.") 200,
   save_account user verified_account st).

(** ** POST /api/auth/forgot-password *)

Definition forgot_message : Body :=
  Message "If an account with that username exists, a new password has been emailed to the registered address.".

(** [body] is the [username] field of the JSON body, [None] when reading
    the body throws.  [randomBytes] are the 12 bytes drawn for the
    temporary password; [emailSent] is [false] when
    [sendNewPasswordEmail] throws. *)
Definition auth_forgot_password_POST
    (randomBytes : list N) (emailSent : bool)
    (body : option JSValue) (st : Store) : Response * Store :=
  let? username_ := body or (json forgot_message 200, st) in
  match username_ with
  | JStr name =>
      unless name =? "" return (json forgot_message 200, st) in
      let usernameLower := trim (toLowerCase name) in
      let by_username := λ a, username a =? usernameLower in
      let found :=
        match JobSeeker_findOne by_username st with
        | Some user => Some user
        | None => Employer_findOne by_username st
        end in
      match found with
      | Some user =>
          if negb (email (user_account user) =? "") && emailSent
          then
            let newPassword := generateTemporaryPassword randomBytes in
            (json forgot_message 200,
             save_account user (reset_account (hashPassword newPassword)) st)
          else (json forgot_message 200, st)
      | None => (json forgot_message 200, st)
      end
  | _ => (json forgot_message 200, st)
  end.

(** ** PATCH /api/user/settings *)

(** The fields destructured from [body || {}]; a body that is not an
    object has none of them. *)
Record SettingsBody := {
  sb_username : JSValue;
  sb_currentPassword : JSValue;
  sb_newPassword : JSValue;
  sb_confirmPassword : JSValue
}.

(** [Model.findById(userId)] with [Model] chosen by the token's role. *)
Definition settings_find_user (role : string) (userId : ObjectId) (st : Store)
    : option User :=
  if role =? "job-seeker"
  then (λ s, {| user_id := userId; user_role := "job-seeker";
                user_account := js_account s |}) <$> jobseekers st !! userId
  else (λ e, {| user_id := userId; user_role := "employer";
                user_account := emp_account e |}) <$> employers st !! userId.

(** [foundExisting]: a job seeker with the name and another [_id], else
    an employer with the name and another [_id]. *)
Definition found_existing (trimmed : string) (user : User) (st : Store) : bool :=
  let existingJobSeeker := findOne (λ s, username (js_account s) =? trimmed) (jobseekers st) in
  let existingEmployer := findOne (λ e, username (emp_account e) =? trimmed) (employers st) in
  match existingJobSeeker with
  | Some (id, _) =>
      if negb (id =? user_id user)%N then true
      else match existingEmployer with
           | Some (id', _) => negb (id' =? user_id user)%N
           | None => false
           end
  | None =>
      match existingEmployer with
      | Some (id', _) => negb (id' =? user_id user)%N
      | None => false
      end
  end.

(** The [if (username && typeof username === 'string')] block: a
    response to return, or [updates.username] if it was set. *)
Definition settings_username (username_ : JSValue) (user : User) (st : Store)
    : Response + option string :=
  match username_ with
  | JStr name =>
      if name =? "" then inr None
      else
        let trimmed := toLowerCase (trim name) in
        if trimmed =? "" then inl (json (Message "Username cannot be empty.") 400)
        else if trimmed =? username (user_account user) then inr None
        else if found_existing trimmed user st
             then inl (json (Message "Username already in use.") 409)
             else inr (Some trimmed)
  | _ => inr None
  end.

(** The [if (newPassword)] block: a response to return, or
    [updates.passwordHash] if it was set. *)
Definition settings_password (currentPassword newPassword confirmPassword : JSValue)
    (user : User) : Response + option string :=
  if truthy newPassword then
    if negb (truthy currentPassword)
    then inl (json (Message "Current password is required.") 400)
    else
      match newPassword with
      | JStr new =>
          if (String.length new <? 6)%nat
          then inl (json (Message "New password must be at least 6 characters.") 400)
          else if truthy confirmPassword &&
                  negb (match confirmPassword with JStr c => new =? c | _ => false end)
          then inl (json (Message "New passwords do not match.") 400)
          else
            match currentPassword with
            | JStr current =>
                if verifyPassword current (passwordHash (user_account user))
                then inr (Some (hashPassword new))
                else inl (json (Message "Current password is incorrect.") 403)
            | _ => inl (json (Message "Unable to update settings right now.") 500)
            end
      | _ => inl (json (Message "New password must be at least 6 characters.") 400)
      end
  else inr None.

(** [Object.assign(user, updates)] *)
Definition assign_updates (newName newHash : option string) (a : Account) : Account :=
  {| username := default (username a) newName;
     passwordHash := default (passwordHash a) newHash;
     firstName := firstName a;
     lastName := lastName a;
     email := email a;
     isEmailVerified := isEmailVerified a;
     emailVerificationToken := emailVerificationToken a;
     emailVerificationTokenExpiry := emailVerificationTokenExpiry a;
     passwordResetToken := passwordResetToken a;
     passwordResetTokenExpiry := passwordResetTokenExpiry a |}.

(** The unique index on [username] of the user's own collection:
    another document of it carries the name. *)
Definition username_index_conflict (name : string) (user : User) (st : Store) : bool :=
  let other := λ (A : Type) (account_of : A → Account) (m : gmap ObjectId A),
    existsb (λ kv, negb (kv.1 =? user_id user)%N && (username (account_of kv.2) =? name))
            (map_to_list m) in
  if user_role user =? "job-seeker"
  then other JobSeeker js_account (jobseekers st)
  else other Employer emp_account (employers st).

Definition user_settings_PATCH
    (cookie : option string) (body : option SettingsBody) (st : Store)
    : Response * Store :=
  let error500 := json (Message "Unable to update settings right now.") 500 in
  let? data := body or (error500, st) in
  unless negb (truthy (sb_username data)) && negb (truthy (sb_newPassword data))
    return (json (Message "No updates provided.") 400, st) in
  let? token := present cookie
    or (json (Message "Authentication required.") 401, st) in
  let? decoded := verifyToken token
    or (json (Message "Invalid or expired session.") 401, st) in
  let? userId := ObjectId_new (tok_userId decoded) or (error500, st) in
  let? user := settings_find_user (tok_role decoded) userId st
    or (json (Message "User not found.") 404, st) in
  match settings_username (sb_username data) user st with
  | inl response => (response, st)
  | inr newName =>
      match settings_password (sb_currentPassword data) (sb_newPassword data)
                              (sb_confirmPassword data) user with
      | inl response => (response, st)
      | inr newHash =>
          unless negb (bool_decide (is_Some newName)) && negb (bool_decide (is_Some newHash))
            return (json (Message "No changes detected.") 400, st) in
          unless (match newName with
                  | Some name => username_index_conflict name user st
                  | None => false
                  end)
            return (error500, st) in
          let st' := save_account user (assign_updates newName newHash) st in
          let saved := assign_updates newName newHash (user_account user) in
          let body := UserJson "Settings updated successfully." (user_id user)
                               (username saved) (user_role user) in
          ({| resp_status := 200;
              resp_cookie :=
                if bool_decide (is_Some newName)
                then Some (createToken {| tok_userId := ObjectId_toString (user_id user);
                                          tok_role := user_role user;
                                          tok_username := username saved |})
                else None;
              resp_body := body |},
           st')
      end
  end.

(** ** GET /api/applications?jobId=... *)

(** A formatted application, without the applicant's profile details. *)
Record ApplicationView := {
  av_id : ObjectId;
  av_jobId : ObjectId;
  av_applicantId : ObjectId;
  av_applicantName : string;
  av_applicantEmail : string;
  av_status : AppStatus;
  av_rating : Q
}.

(** A JSON array with status 200, a message with another status, or no
    response of the route's own: its [catch] block reads [searchParams],
    which is declared inside the [try] block, so the handler throws
    again when it catches an error. *)
Inductive Listing (A : Type) :=
| ListError (message : string) (code : nat)
| Listed (items : list A)
| Thrown.
Arguments ListError {A} message code.
Arguments Listed {A} items.
Arguments Thrown {A}.

(** [rating || 0] for a stored rating. *)
Definition rating_or_zero (r : option Q) : Q :=
  match r with
  | Some q => if Qeq_bool q 0 then 0%Q else q
  | None => 0%Q
  end.

Definition format_application (id : ObjectId) (app : Application) : ApplicationView :=
  {| av_id := id;
     av_jobId := app_jobId app;
     av_applicantId := app_jobSeekerId app;
     av_applicantName :=
       if app_applicantName app =? "" then "Unknown Applicant" else app_applicantName app;
     av_applicantEmail :=
       if app_applicantEmail app =? "" then "No email provided" else app_applicantEmail app;
     av_status := app_status app;
     av_rating := rating_or_zero (app_rating app) |}.

(** [jobId] is [searchParams.get('jobId')]. *)
Definition applications_GET
    (cookie : option string) (jobId : option string) (st : Store)
    : Listing ApplicationView :=
  let? token := present cookie or ListError "Authentication required." 401 in
  let? decoded := verifyToken token or ListError "Invalid or expired token." 401 in
  let? jobId := present jobId or ListError "Job ID is required." 400 in
  let? jobIdObjectId := ObjectId_new jobId or Thrown in
  let? job := jobs st !! jobIdObjectId or ListError "Job not found." 404 in
  let owner_check :=
    if tok_role decoded =? "employer" then
      match ObjectId_new (tok_userId decoded) with
      | Some employerIdObjectId =>
          if negb (job_employerId job =? employerIdObjectId)%N
          then Some (ListError "Access denied. You can only view applications for your own jobs." 403)
          else None
      | None => Some Thrown
      end
    else None in
  match owner_check with
  | Some refused => refused
  | None =>
      (* the order given by [.sort({ appliedDate: -1 })] is not represented *)
      Listed ((λ kv, format_application kv.1 kv.2)
                <$> find_all (λ a, (app_jobId a =? jobIdObjectId)%N) (applications st))
  end.

(** ** GET /api/my-applications *)

(** A formatted entry of the job seeker's list, without the applied
    date, the cover letter and the resume. *)
Record MyApplicationView := {
  mv_applicationId : ObjectId;
  mv_jobId : ObjectId;
  mv_jobTitle : string;
  mv_company : string;
  mv_location : string;
  mv_status : AppStatus;
  mv_rating : Q
}.

(** The filter [validAppliedJobs]: the entry has a job id, an
    application id, a title and a company; the result is the two ids. *)
Definition valid_appliedJob (e : AppliedJob) : option (ObjectId * ObjectId) :=
  match aj_jobId e, aj_applicationId e with
  | Some jobId, Some applicationId =>
      if negb (aj_jobTitle e =? "") && negb (aj_company e =? "")
      then Some (jobId, applicationId) else None
  | _, _ => None
  end.

(** [statusMap.get(applicationId)]: the map is filled from the
    applications found by [_id] among those of this job seeker. *)
Definition statusMap_get (jobSeekerIdObjectId applicationId : ObjectId) (st : Store)
    : option (AppStatus * Q) :=
  match applications st !! applicationId with
  | Some app =>
      if (app_jobSeekerId app =? jobSeekerIdObjectId)%N
      then Some (app_status app, rating_or_zero (app_rating app))
      else None
  | None => None
  end.

Definition format_appliedJob (jobSeekerIdObjectId : ObjectId) (st : Store)
    (appliedJob : AppliedJob) : option MyApplicationView :=
  let? ids := valid_appliedJob appliedJob or None in
  let applicationStatus := statusMap_get jobSeekerIdObjectId ids.2 st in
  Some {| mv_applicationId := ids.2;
          mv_jobId := ids.1;
          mv_jobTitle := aj_jobTitle appliedJob;
          mv_company := aj_company appliedJob;
          mv_location :=
            if aj_location appliedJob =? "" then "Unknown Location"
            else aj_location appliedJob;
          mv_status :=
            match applicationStatus with
            | Some found => found.1
            | None => aj_status appliedJob
            end;
          mv_rating :=
            let rating := match applicationStatus with
                          | Some found => found.2
                          | None => 0%Q
                          end in
            if Qeq_bool rating 0 then rating_or_zero (aj_rating appliedJob) else rating |}.

Definition my_applications_GET (cookie : option string) (st : Store)
    : Listing MyApplicationView :=
  let? token := present cookie or ListError "Authentication required." 401 in
  let? decoded := verifyToken token or ListError "Invalid or expired token." 401 in
  unless negb (tok_role decoded =? "job-seeker")
    return ListError "Access denied. Job seeker access only." 403 in
  let? jobSeekerIdObjectId := ObjectId_new (tok_userId decoded)
    or ListError "Internal server error while fetching applications." 500 in
  let? jobSeeker := jobseekers st !! jobSeekerIdObjectId
    or ListError "Job seeker profile not found." 404 in
  (* the order given by the sort on [appliedDate] is not represented *)
  Listed (omap (format_appliedJob jobSeekerIdObjectId st) (appliedJobs jobSeeker)).

End MoreHandlers.

Arguments ListError {A} message code.
Arguments Listed {A} items.
Arguments Thrown {A}.

(** ** Further specification predicates *)

Section MorePredicates.
Context `{RT : Runtime}.

(** The apply route accepts the request: the session is a job seeker's,
    the job is open, the seeker has a complete profile and no
    application for the job yet, and the new [_id] is free. *)
Definition apply_accepted (now : Z) (newId : ObjectId) (req : ApplyRequest) (st : Store)
    (jid sid : ObjectId) (job : Job) (seeker : JobSeeker) : Prop :=
  ∃ token decoded data jobIdString,
    present (apply_cookie req) = Some token ∧
    verifyToken token = Some decoded ∧
    tok_role decoded = "job-seeker" ∧
    ObjectId_new (tok_userId decoded) = Some sid ∧
    apply_body req = Some data ∧
    ab_jobId data = JStr jobIdString ∧
    jobIdString ≠ "" ∧
    ObjectId_isValid jobIdString = true ∧
    String.length jobIdString = 24%nat ∧
    ObjectId_new jobIdString = Some jid ∧
    jobs st !! jid = Some job ∧
    job_status job = Active ∧
    expired now job = false ∧
    findOne (same_job_and_seeker jid sid) (applications st) = None ∧
    jobseekers st !! sid = Some seeker ∧
    firstName (js_account seeker) ≠ "" ∧
    lastName (js_account seeker) ≠ "" ∧
    existsb (has_jobId jid) (appliedJobs seeker) = false ∧
    is_Some (trimmed_text (ab_coverLetter data)) ∧
    is_Some (trimmed_text (ab_resume data)) ∧
    applications st !! newId = None.

(** The application document the apply route creates. *)
Definition created_application (jid sid : ObjectId) (seeker : JobSeeker) : Application :=
  {| app_jobId := jid;
     app_jobSeekerId := sid;
     app_applicantName :=
       trim (firstName (js_account seeker) +:+ " " +:+ lastName (js_account seeker));
     app_applicantEmail :=
       (let e := trim (email (js_account seeker)) in
        if e =? "" then username (js_account seeker) +:+ "@email.com" else e);
     app_status := Pending;
     app_rating := Some 0%Q |}.

End MorePredicates.

(** The account [a] is stored under [id], in the job seekers if
    [seeker] and in the employers otherwise. *)
Definition account_at (st : Store) (seeker : bool) (id : ObjectId) (a : Account) : Prop :=
  if seeker
  then ∃ s, jobseekers st !! id = Some s ∧ js_account s = a
  else ∃ e, employers st !! id = Some e ∧ emp_account e = a.

(** No two users, of either kind, share a username. *)
Definition unique_usernames (st : Store) : Prop :=
  ∀ k1 id1 a1 k2 id2 a2,
    account_at st k1 id1 a1 → account_at st k2 id2 a2 →
    username a1 = username a2 → k1 = k2 ∧ id1 = id2.

Section AccountPredicates.
Context `{RT : Runtime}.

(** The account a successful registration stores. *)
Definition registered_account (now : Z) (secureToken uname pwd first last mail : string)
    : Account :=
  {| username := toLowerCase uname;
     passwordHash := hashPassword pwd;
     firstName := first;
     lastName := last;
     email := trim (toLowerCase mail);
     isEmailVerified := false;
     emailVerificationToken := secureToken;
     emailVerificationTokenExpiry := Some (generateTokenExpiry now 30);
     passwordResetToken := "";
     passwordResetTokenExpiry := None |}.

(** The fields of a registration body pass the route's validation, and
    the strings it stores are as the schema's [trim] setters leave
    them. *)
Definition valid_registration (data : RegisterBody)
    (uname pwd first last role mail : string) : Prop :=
  present (rb_username data) = Some uname ∧
  present (rb_password data) = Some pwd ∧
  present (rb_firstName data) = Some first ∧
  present (rb_lastName data) = Some last ∧
  present (rb_role data) = Some role ∧
  (6 ≤ String.length pwd)%nat ∧
  present (rb_email data) = Some mail ∧
  includes_at mail = true ∧
  (role = "job-seeker" ∨ role = "employer") ∧
  trim (toLowerCase uname) = toLowerCase uname ∧
  trim first = first ∧ trim last = last.

(** The local clock is not changed within [minutes] after [now]: the
    local time [minutes] later has the time zone adjustment of [now]. *)
Definition steady_clock (now minutes : Z) : Prop :=
  LocalTZA (now + LocalTZA now true + minutes * 60000)%Z false = LocalTZA now true.

(** The store after the user was created in the collection of [role]. *)
Definition with_registered (role : string) (newId : ObjectId) (account : Account)
    (st : Store) : Store :=
  if role =? "job-seeker"
  then with_jobseekers st
         (<[newId := {| js_account := account; appliedJobs := [] |}]> (jobseekers st))
  else with_employers st
         (<[newId := {| emp_account := account; emp_name := "" |}]> (employers st)).

End AccountPredicates.

(** ** Predicates on the accounts of a store *)

(** Both stores hold the same accounts under the same ids. *)
Definition same_accounts (st st' : Store) : Prop :=
  ∀ k id a, account_at st' k id a ↔ account_at st k id a.

(** No account carries a password reset token. *)
Definition no_reset_tokens (st : Store) : Prop :=
  ∀ k id a, account_at st k id a → passwordResetToken a = "".

(** No [_id] is used in both user collections. *)
Definition disjoint_ids (st : Store) : Prop :=
  ∀ id, ¬ (is_Some (jobseekers st !! id) ∧ is_Some (employers st !! id)).

Section AllRoutes.
Context `{RT : Runtime}.

(** One request served by a route that works on jobs and applications. *)
Inductive application_step : Store → Store → Prop :=
| app_step_apply now newId req st :
    application_step st (applications_POST now newId req st).2
| app_step_patch applicationId req st :
    application_step st (applications_PATCH applicationId req st).2
| app_step_remove applicationId cookie st :
    application_step st (my_applications_DELETE applicationId cookie st).2
| app_step_get_job jobId st :
    application_step st (jobs_id_GET jobId st).2
| app_step_delete_job jobId cookie st :
    application_step st (jobs_id_DELETE jobId cookie st).2
| app_step_employer_jobs now cookie st :
    application_step st (jobs_employer_GET now cookie st).2.

(** One request served by any of the modelled routes that can write. *)
Inductive any_step : Store → Store → Prop :=
| any_step_application st st' :
    application_step st st' → any_step st st'
| any_step_register now newId secureToken body st :
    any_step st (auth_register_POST now newId secureToken body st).2
| any_step_login body st :
    any_step st (auth_login_POST body st).2
| any_step_reset now body st :
    any_step st (auth_reset_password_POST now body st).2
| any_step_verify now token st :
    any_step st (auth_verify_email_GET now token st).2
| any_step_forgot randomBytes emailSent body st :
    any_step st (auth_forgot_password_POST randomBytes emailSent body st).2
| any_step_settings cookie body st :
    any_step st (user_settings_PATCH cookie body st).2.

End AllRoutes.


(** [user] is a document of the collection of its role. *)
Definition stored_user (st : Store) (user : User) : Prop :=
  (user_role user = "job-seeker" ∨ user_role user = "employer") ∧
  account_at st (bool_decide (user_role user = "job-seeker"))
             (user_id user) (user_account user).


(** ** Predicates for the helpers *)

(** The characters left out of the temporary passwords. *)
Definition look_alike : list ascii := ["0"; "O"; "1"; "l"; "I"]%char.

(** The byte values that select [charset[index]]. *)
Definition bytes_for (index : nat) : list nat :=
  List.filter (λ byte, (byte mod String.length charset =? index)%nat) (seq 0 256).

(** How a call of [operation] ends [retryOperation], if it does: with
    its value, or with an error that is not retried. *)
Definition settles {T} (s : Settled T) : option (T + option JSError) :=
  match s with
  | Resolved value => Some (inl value)
  | Failed error => if no_retry error then Some (inr (Some error)) else None
  end.

(** The delays [delayMs * 1, ..., delayMs * n]. *)
Definition backoff (delayMs n : nat) : list nat :=
  (λ attempt, delayMs * attempt)%nat <$> seq 1 n.


(** ** Further examples *)

(** A store with no user, job or application. *)
Definition empty_store : Store :=
  {| jobs := ∅; applications := ∅; jobseekers := ∅; employers := ∅ |}.

Definition ada_id : ObjectId := 173%N.

(** ada as her registration leaves her, with the email verified. *)
Definition ada_account : Account :=
  {| username := "ada"; passwordHash := "hash(secret1)";
     firstName := "Ada"; lastName := "Smith"; email := "ada@example.org";
     isEmailVerified := true;
     emailVerificationToken := ""; emailVerificationTokenExpiry := None;
     passwordResetToken := ""; passwordResetTokenExpiry := None |}.

(** A store whose only user is ada. *)
Definition ada_store : Store :=
  {| jobs := ∅; applications := ∅;
     jobseekers := <[ada_id := {| js_account := ada_account; appliedJobs := [] |}]> ∅;
     employers := ∅ |}.

(** A settings request that changes the password only. *)
Definition password_change (current new : string) : SettingsBody :=
  {| sb_username := JUndefined; sb_currentPassword := JStr current;
     sb_newPassword := JStr new; sb_confirmPassword := JUndefined |}.

Definition network_error : JSError :=
  {| err_name := "MongoNetworkError"; err_status := None |}.

(** An operation that fails twice with a network error and then
    returns. *)
Definition flaky_operation (attempt : nat) : Settled string :=
  if (attempt <? 3)%nat then Failed network_error else Resolved "profile".

(** An operation that never gets through. *)
Definition failing_operation (attempt : nat) : Settled string := Failed network_error.


(** ** A runtime in a time zone with daylight saving

    New York around 1 November 2026, when the clocks go back from 02:00
    (UTC-4) to 01:00 (UTC-5) at 06:00 UTC. *)

Definition fall_back : Z := 1793512800000%Z.

Definition new_york_LocalTZA (t : Z) (isUTC : bool) : Z :=
  if isUTC
  then (if (t <? fall_back)%Z then -14400000 else -18000000)%Z
  else (if (t <? fall_back - 14400000)%Z then -14400000 else -18000000)%Z.

Definition new_york_runtime : Runtime := {|
  verifyToken := verifyToken (Runtime := demoRuntime);
  createToken := createToken (Runtime := demoRuntime);
  verifyPassword := verifyPassword (Runtime := demoRuntime);
  hashPassword := hashPassword (Runtime := demoRuntime);
  ObjectId_isValid := ObjectId_isValid (Runtime := demoRuntime);
  ObjectId_new := ObjectId_new (Runtime := demoRuntime);
  ObjectId_toString := ObjectId_toString (Runtime := demoRuntime);
  Date_parse := Date_parse (Runtime := demoRuntime);
  StringToNumber := StringToNumber (Runtime := demoRuntime);
  toLowerCase := toLowerCase (Runtime := demoRuntime);
  trim := trim (Runtime := demoRuntime);
  LocalTZA := new_york_LocalTZA
|}.


(** * Properties *)

Section Properties.
Context `{RT : Runtime}.

(** ** Queries *)

Lemma findOne_Some {A} (query : A → bool) (m : gmap ObjectId A) k a :
  findOne query m = Some (k, a) → m !! k = Some a ∧ query a = true.
Proof.
  unfold findOne. intros Hfind. apply find_some in Hfind as [Hin Hq].
  split; [|done]. by apply elem_of_map_to_list, list_elem_of_In.
Qed.

Lemma findOne_None {A} (query : A → bool) (m : gmap ObjectId A) k a :
  findOne query m = None → m !! k = Some a → query a = false.
Proof.
  unfold findOne. intros Hfind Hk.
  apply (find_none _ _ Hfind (k, a)).
  by apply list_elem_of_In, elem_of_map_to_list.
Qed.

Lemma findOne_is_Some {A} (query : A → bool) (m : gmap ObjectId A) k a :
  m !! k = Some a → query a = true → is_Some (findOne query m).
Proof.
  intros Hk Hq. destruct (findOne query m) as [kv|] eqn:Hfind; [by eexists|].
  rewrite (findOne_None _ _ _ _ Hfind Hk) in Hq. discriminate.
Qed.

Lemma AppStatus_of_to_string (s : AppStatus) :
  AppStatus_of_string (AppStatus_to_string s) = Some s.
Proof. by destruct s. Qed.

Lemma status_accepted_enum (s : AppStatus) :
  status_accepted (JStr (AppStatus_to_string s)) = true.
Proof. by destruct s. Qed.

(** ** PATCH /api/applications/[applicationId] *)

(** A rating that passes the guard is cast without error unless it is
    an array or an object. *)
Lemma castNumber_accepted (rating : JSValue) :
  (∀ prim, rating ≠ JObject prim) →
  rating_accepted rating = true → is_Some (castNumber rating).
Proof.
  intros Hscalar Hacc. destruct rating as [| |b|q|s|prim]; simpl; eauto.
  - destruct (s =? ""); [eauto|].
    unfold rating_accepted, js_ge, ToNumber in Hacc. simpl in Hacc.
    destruct (StringToNumber s); [eauto|discriminate].
  - by destruct (Hscalar prim).
Qed.

Lemma cast_update_status (target : AppStatus) (rating : JSValue) :
  (∀ prim, rating ≠ JObject prim) →
  ∃ u, cast_update (JStr (AppStatus_to_string target)) rating = Some u ∧
       upd_status u = Some target.
Proof.
  intros Hscalar. unfold cast_update.
  rewrite status_accepted_enum. simpl. rewrite AppStatus_of_to_string. simpl.
  destruct (rating_accepted rating) eqn:Hacc; [|by eexists].
  destruct (castNumber_accepted rating Hscalar Hacc) as [r ->]. by eexists.
Qed.

(** A JSON number is stored as a rating only when it lies in [0, 5]. *)
Lemma rating_accepted_number (q : Q) :
  rating_accepted (JNum q) = true ↔ (0 <= q)%Q ∧ (q <= 5)%Q.
Proof.
  unfold rating_accepted, js_ge, js_le. simpl.
  rewrite andb_true_iff, !Qle_bool_iff. done.
Qed.


(** C8: whatever the current status of the application, a PATCH by the
    employer who owns its job that names one of the six statuses sets
    the application to that status, and answers 200 with it.  The body
    may carry any rating that is not an array or an object. *)
Theorem patch_sets_any_status
    (applicationId : string) (req : PatchRequest) (st : Store)
    (token : string) (decoded : TokenPayload) (rating : JSValue)
    (aid : ObjectId) (application : Application) (job : Job)
    (target : AppStatus) :
  present (patch_cookie req) = Some token →
  verifyToken token = Some decoded →
  tok_role decoded = "employer" →
  ObjectId_new (tok_userId decoded) = Some (job_employerId job) →
  patch_body req =
    Some {| pb_status := JStr (AppStatus_to_string target); pb_rating := rating |} →
  (∀ prim, rating ≠ JObject prim) →
  ObjectId_new applicationId = Some aid →
  applications st !! aid = Some application →
  jobs st !! app_jobId application = Some job →
  ∃ updated,
    applications (applications_PATCH applicationId req st).2 !! aid = Some updated ∧
    app_status updated = target ∧
    (applications_PATCH applicationId req st).1 =
      json (ApplicationJson aid (app_jobId application) (app_jobSeekerId application)
              target (app_rating updated)) 200.
Proof.
  intros Hcookie Htoken Hrole Heid Hbody Hscalar Haid Happ Hjob.
  destruct (cast_update_status target rating Hscalar) as (u & Hcast & Hstatus).
  unfold applications_PATCH.
  rewrite Hcookie, Htoken, Hrole, Hbody, Haid, Heid, Happ, Hjob. simpl.
  rewrite N.eqb_refl. simpl. rewrite Hcast.
  rewrite lookup_alter_eq, Happ. simpl.
  eexists. split; [by rewrite lookup_alter_eq, Happ|]. simpl.
  rewrite Hstatus. done.
Qed.

(** ** Lists of applied jobs *)

Lemma elem_of_List_filter {A} (p : A → bool) (l : list A) (x : A) :
  x ∈ List.filter p l ↔ x ∈ l ∧ p x = true.
Proof. rewrite !list_elem_of_In. apply filter_In. Qed.

Lemma NoDup_fmap_List_filter {A B} (f : A → B) (p : A → bool) (l : list A) :
  NoDup (f <$> l) → NoDup (f <$> List.filter p l).
Proof.
  induction l as [|x l IH]; simpl; [done|].
  rewrite NoDup_cons. intros [Hx Hl]. destruct (p x); simpl; [|by auto].
  apply NoDup_cons. split; [|by auto].
  intros Hin. apply Hx. apply list_elem_of_fmap in Hin as (y & -> & Hy).
  apply elem_of_List_filter in Hy as [Hy _]. by apply list_elem_of_fmap_2.
Qed.

Lemma List_filter_length_eq {A} (p : A → bool) (l : list A) :
  length (List.filter p l) = length l → List.filter p l = l.
Proof.
  induction l as [|x l IH]; simpl; [done|].
  pose proof (filter_length_le p l) as Hle.
  destruct (p x); simpl; intros Hlen; [f_equal; apply IH; lia | lia].
Qed.

Lemma has_applicationId_true id e :
  has_applicationId id e = true ↔ aj_applicationId e = Some id.
Proof. unfold has_applicationId. by rewrite bool_decide_eq_true. Qed.

Lemma has_jobId_true id e : has_jobId id e = true ↔ aj_jobId e = Some id.
Proof. unfold has_jobId. by rewrite bool_decide_eq_true. Qed.

Lemma fmap_applicationId_update_first id u l :
  aj_applicationId <$> update_first (has_applicationId id) (set_appliedJob u) l =
  aj_applicationId <$> l.
Proof.
  induction l as [|x l IH]; csimpl; [done|].
  destruct (has_applicationId id x); csimpl; [done|by rewrite IH].
Qed.

(** An entry for another application survives the positional update. *)
Lemma elem_of_update_first_other id u l e :
  e ∈ l → aj_applicationId e ≠ Some id →
  e ∈ update_first (has_applicationId id) (set_appliedJob u) l.
Proof.
  intros Hin Hne. induction l as [|x l IH]; simpl; [done|].
  apply elem_of_cons in Hin as [->|Hin].
  - destruct (has_applicationId id x) eqn:Hx; [|by left].
    by apply has_applicationId_true in Hx.
  - destruct (has_applicationId id x); right; auto.
Qed.

(** When no application is listed twice, the entry of the application
    is the one the positional update rewrites. *)
Lemma elem_of_update_first_self id u l e :
  NoDup (aj_applicationId <$> l) →
  e ∈ l → aj_applicationId e = Some id →
  set_appliedJob u e ∈ update_first (has_applicationId id) (set_appliedJob u) l.
Proof.
  intros Hnodup Hin Hid. induction l as [|x l IH]; simpl; [by apply elem_of_nil in Hin|].
  csimpl in Hnodup. apply NoDup_cons in Hnodup as [Hx Hl].
  apply elem_of_cons in Hin as [->|Hin].
  - apply has_applicationId_true in Hid. rewrite Hid. by left.
  - destruct (has_applicationId id x) eqn:Hpx.
    + apply has_applicationId_true in Hpx. destruct Hx.
      rewrite Hpx, <- Hid. by apply list_elem_of_fmap_2.
    + right. auto.
Qed.

Lemma elem_of_update_first_inv id u l e' :
  NoDup (aj_applicationId <$> l) →
  e' ∈ update_first (has_applicationId id) (set_appliedJob u) l →
  (e' ∈ l ∧ aj_applicationId e' ≠ Some id) ∨
  (∃ e, e ∈ l ∧ aj_applicationId e = Some id ∧ e' = set_appliedJob u e).
Proof.
  intros Hnodup Hin. induction l as [|x l IH]; csimpl in *; [by apply elem_of_nil in Hin|].
  apply NoDup_cons in Hnodup as [Hx Hl].
  destruct (has_applicationId id x) eqn:Hpx.
  - apply has_applicationId_true in Hpx.
    apply elem_of_cons in Hin as [->|Hin].
    + right. exists x. split_and!; [by left|done|done].
    + left. split; [by right|]. intros He'. apply Hx.
      rewrite Hpx, <- He'. by apply list_elem_of_fmap_2.
  - apply elem_of_cons in Hin as [->|Hin].
    + left. split; [by left|]. intros Hid.
      apply has_applicationId_true in Hid. congruence.
    + destruct (IH Hl Hin) as [[? ?]|(e & ? & ? & ?)].
      * left. split; [by right|done].
      * right. exists e. split_and!; [by right|done|done].
Qed.

(** ** The dual write: applications and their mirror entries *)

Lemma consistent_ext (st st' : Store) :
  applications st' = applications st → jobseekers st' = jobseekers st →
  consistent st → consistent st'.
Proof. unfold consistent. by intros -> ->. Qed.

Lemma set_appliedJob_no_keys u e : has_keys u = false → set_appliedJob u e = e.
Proof.
  destruct u as [[s|] [r|]]; try discriminate. intros _. by destruct e.
Qed.

Lemma update_first_id {A} (p : A → bool) (f : A → A) (l : list A) :
  (∀ x, f x = x) → update_first p f l = l.
Proof.
  intros Hf. induction l as [|x l IH]; simpl; [done|].
  destruct (p x); by rewrite ?Hf, ?IH.
Qed.

Lemma JobSeeker_updateOne_no_keys sid id u m :
  has_keys u = false → JobSeeker_updateOne_appliedJob sid id u m = m.
Proof.
  intros Hkeys. unfold JobSeeker_updateOne_appliedJob. apply alter_id.
  intros s _. rewrite update_first_id; [by destruct s|].
  intros e. by apply set_appliedJob_no_keys.
Qed.

(** The route either returns early, with the store as it was, or
    performs both writes. *)
Lemma applications_PATCH_cases applicationId req st :
  (applications_PATCH applicationId req st).2 = st ∨
  ∃ aid a u,
    applications st !! aid = Some a ∧
    resp_status (applications_PATCH applicationId req st).1 = 200 ∧
    (applications_PATCH applicationId req st).2 =
      with_jobseekers
        (with_applications st (alter (set_application u) aid (applications st)))
        (JobSeeker_updateOne_appliedJob (app_jobSeekerId a) aid u (jobseekers st)).
Proof.
  unfold applications_PATCH.
  repeat case_match; simplify_eq; try (by left).
  all: right.
  all: match goal with
       | Happ : applications _ !! ?n = Some ?a,
         Hupd : alter _ ?n _ !! ?n = Some _ |- _ =>
           rewrite lookup_alter_eq, Happ in Hupd; simpl in Hupd; simplify_eq;
           exists n, a
       end.
  all: eexists; split_and!; [done|done|simpl].
  - done.
  - by rewrite JobSeeker_updateOne_no_keys.
Qed.

Lemma mirrors_set u e id a :
  mirrors e id a → mirrors (set_appliedJob u e) id (set_application u a).
Proof. intros (? & ? & Hs & Hr). unfold mirrors. simpl. by rewrite Hs, Hr. Qed.

Lemma mirrors_applicationId e id a : mirrors e id a → aj_applicationId e = Some id.
Proof. by intros [? _]. Qed.

(** The two writes of the PATCH route keep the copies in step. *)
Lemma patch_writes_consistent st aid a u :
  consistent st → applications st !! aid = Some a →
  consistent
    (with_jobseekers
       (with_applications st (alter (set_application u) aid (applications st)))
       (JobSeeker_updateOne_appliedJob (app_jobSeekerId a) aid u (jobseekers st))).
Proof.
  unfold consistent, JobSeeker_updateOne_appliedJob. simpl.
  intros (HA & HB & HC) Ha. split_and!.
  - intros id a' Hlook. destruct (decide (id = aid)) as [->|Hne].
    + rewrite lookup_alter_eq, Ha in Hlook. simplify_eq/=.
      destruct (HA aid a Ha) as (s & e & Hs & He & Hm).
      eexists _, (set_appliedJob u e). split_and!.
      * by rewrite lookup_alter_eq, Hs.
      * simpl. apply elem_of_update_first_self; [by eapply HC|done|].
        by eapply mirrors_applicationId.
      * by apply mirrors_set.
    + rewrite lookup_alter_ne in Hlook by done.
      destruct (HA id a' Hlook) as (s & e & Hs & He & Hm).
      destruct (decide (app_jobSeekerId a = app_jobSeekerId a')) as [Heq|Hneq].
      * eexists _, e. split_and!; [by rewrite Heq, lookup_alter_eq, Hs| |done].
        simpl. apply elem_of_update_first_other; [done|].
        rewrite (mirrors_applicationId _ _ _ Hm). congruence.
      * exists s, e. split_and!; [by rewrite lookup_alter_ne|done|done].
  - intros sid s' e' Hs' He'.
    destruct (decide (app_jobSeekerId a = sid)) as [<-|Hne].
    + rewrite lookup_alter_eq in Hs'.
      destruct (jobseekers st !! app_jobSeekerId a) as [s|] eqn:Hs; simplify_eq/=.
      apply elem_of_update_first_inv in He'
        as [[He' Hid]|(e & He & Hid & ->)]; [| |by eapply HC].
      * destruct (HB _ _ _ Hs He') as (id & a'' & Hl & Hsk & Hm).
        exists id, a''. split_and!; [|done|done].
        rewrite lookup_alter_ne; [done|]. intros <-.
        by rewrite (mirrors_applicationId _ _ _ Hm) in Hid.
      * destruct (HB _ _ _ Hs He) as (id & a'' & Hl & Hsk & Hm).
        rewrite (mirrors_applicationId _ _ _ Hm) in Hid. simplify_eq.
        exists aid, (set_application u a). split_and!.
        -- by rewrite lookup_alter_eq, Ha.
        -- done.
        -- by apply mirrors_set.
    + rewrite lookup_alter_ne in Hs' by done.
      destruct (HB _ _ _ Hs' He') as (id & a'' & Hl & Hsk & Hm).
      exists id, a''. split_and!; [|done|done].
      rewrite lookup_alter_ne; [done|]. intros <-. simplify_eq.
  - intros sid s' Hs'.
    destruct (decide (app_jobSeekerId a = sid)) as [<-|Hne].
    + rewrite lookup_alter_eq in Hs'.
      destruct (jobseekers st !! app_jobSeekerId a) as [s|] eqn:Hs; simplify_eq/=.
      rewrite fmap_applicationId_update_first. by eapply HC.
    + rewrite lookup_alter_ne in Hs' by done. by eapply HC.
Qed.

Lemma applications_PATCH_consistent applicationId req st :
  consistent st → consistent (applications_PATCH applicationId req st).2.
Proof.
  intros Hst.
  destruct (applications_PATCH_cases applicationId req st)
    as [->|(aid & a & u & Ha & _ & ->)]; [done|].
  by apply patch_writes_consistent.
Qed.

(** The DELETE route of a job seeker either returns early or removes
    the mirror entry and then the application. *)
Lemma my_applications_DELETE_cases applicationId cookie st :
  (my_applications_DELETE applicationId cookie st).2 = st ∨
  ∃ aid a,
    applications st !! aid = Some a ∧
    resp_status (my_applications_DELETE applicationId cookie st).1 = 200 ∧
    applications (my_applications_DELETE applicationId cookie st).2 =
      delete aid (applications st) ∧
    jobseekers (my_applications_DELETE applicationId cookie st).2 =
      match jobseekers st !! app_jobSeekerId a with
      | Some s =>
          <[app_jobSeekerId a :=
              set_appliedJobs
                (List.filter (keep_appliedJob aid (app_jobId a)) (appliedJobs s)) s]>
            (jobseekers st)
      | None => jobseekers st
      end.
Proof.
  unfold my_applications_DELETE.
  repeat case_match; simplify_eq; try (by left).
  all: right.
  all: match goal with
       | Happ : applications _ !! ?n = Some ?a,
         Hown : negb (_ =? _)%N = false |- _ =>
           apply negb_false_iff, N.eqb_eq in Hown; exists n, a
       end.
  all: simpl; split_and!; try done.
  all: match goal with
       | Hseeker : jobseekers _ !! _ = _ |- _ => subst; by rewrite Hseeker
       end.
Qed.

Lemma keep_appliedJob_listed aid jid e id :
  aj_applicationId e = Some id →
  keep_appliedJob aid jid e = negb (id =? aid)%N.
Proof. unfold keep_appliedJob. intros ->. by destruct (id =? aid)%N. Qed.

(** Removing the mirror entry and then the application keeps the
    copies in step. *)
Lemma remove_writes_consistent st aid a :
  consistent st → applications st !! aid = Some a →
  consistent
    (with_jobseekers
       (with_applications st (delete aid (applications st)))
       (match jobseekers st !! app_jobSeekerId a with
        | Some s =>
            <[app_jobSeekerId a :=
                set_appliedJobs
                  (List.filter (keep_appliedJob aid (app_jobId a)) (appliedJobs s)) s]>
              (jobseekers st)
        | None => jobseekers st
        end)).
Proof.
  unfold consistent. simpl. intros (HA & HB & HC) Ha.
  destruct (HA aid a Ha) as (s & e0 & Hs & _ & _). rewrite Hs.
  split_and!.
  - intros id a' Hlook. apply lookup_delete_Some in Hlook as [Hne Hlook].
    destruct (HA id a' Hlook) as (s' & e & Hs' & He & Hm).
    destruct (decide (app_jobSeekerId a = app_jobSeekerId a')) as [Heq|Hneq].
    + rewrite <- Heq in Hs'. simplify_eq.
      eexists _, e. split_and!; [by rewrite <- Heq, lookup_insert_eq| |done].
      simpl. apply elem_of_List_filter. split; [done|].
      rewrite (keep_appliedJob_listed _ _ _ id) by by eapply mirrors_applicationId.
      by apply negb_true_iff, N.eqb_neq.
    + exists s', e. split_and!; [by rewrite lookup_insert_ne|done|done].
  - intros sid s' e' Hs' He'.
    destruct (decide (app_jobSeekerId a = sid)) as [<-|Hne].
    + rewrite lookup_insert_eq in Hs'. simplify_eq/=.
      apply elem_of_List_filter in He' as [He' Hkeep].
      destruct (HB _ _ _ Hs He') as (id & a'' & Hl & Hsk & Hm).
      rewrite (keep_appliedJob_listed _ _ _ id) in Hkeep
        by by eapply mirrors_applicationId.
      apply negb_true_iff, N.eqb_neq in Hkeep.
      exists id, a''. split_and!; [by rewrite lookup_delete_ne|done|done].
    + rewrite lookup_insert_ne in Hs' by done.
      destruct (HB _ _ _ Hs' He') as (id & a'' & Hl & Hsk & Hm).
      exists id, a''. split_and!; [|done|done].
      rewrite lookup_delete_ne; [done|]. intros <-. simplify_eq.
  - intros sid s' Hs'.
    destruct (decide (app_jobSeekerId a = sid)) as [<-|Hne].
    + rewrite lookup_insert_eq in Hs'. simplify_eq/=.
      apply NoDup_fmap_List_filter. by eapply HC.
    + rewrite lookup_insert_ne in Hs' by done. by eapply HC.
Qed.

Lemma my_applications_DELETE_consistent applicationId cookie st :
  consistent st → consistent (my_applications_DELETE applicationId cookie st).2.
Proof.
  intros Hst.
  destruct (my_applications_DELETE_cases applicationId cookie st)
    as [->|(aid & a & Ha & _ & Happs & Hseekers)]; [done|].
  eapply consistent_ext; [| |by apply (remove_writes_consistent st aid a)]; done.
Qed.

(** The apply route either answers without touching the applications
    and the seekers, or answers 201 after creating the application and
    pushing its mirror entry. *)
Lemma applications_POST_cases now newId req st :
  (resp_status (applications_POST now newId req st).1 ≠ 201 ∧
   applications (applications_POST now newId req st).2 = applications st ∧
   jobseekers (applications_POST now newId req st).2 = jobseekers st) ∨
  ∃ jid sid job s a,
    resp_status (applications_POST now newId req st).1 = 201 ∧
    jobs st !! jid = Some job ∧
    applications st !! newId = None ∧
    findOne (same_job_and_seeker jid sid) (applications st) = None ∧
    jobseekers st !! sid = Some s ∧
    existsb (has_jobId jid) (appliedJobs s) = false ∧
    app_jobId a = jid ∧ app_jobSeekerId a = sid ∧
    app_status a = Pending ∧ app_rating a = Some 0%Q ∧
    applications (applications_POST now newId req st).2 =
      <[newId := a]> (applications st) ∧
    jobseekers (applications_POST now newId req st).2 =
      <[sid := set_appliedJobs (appliedJobs s ++ [pushed_entry jid newId job]) s]>
        (jobseekers st).
Proof.
  unfold applications_POST, Application_create.
  repeat case_match; simplify_eq; try (by left).
  all: right.
  all: match goal with
       | Hjob : jobs _ !! ?jid = Some ?job, Hs : jobseekers _ !! ?sid = Some ?s |- _ =>
           exists jid, sid, job, s
       end.
  all: match goal with
       | |- context [<[_ := ?a]> (applications _)] => exists a
       end.
  all: simpl; split_and!; done.
Qed.

Lemma mirrors_pushed_entry jid newId job a :
  app_jobId a = jid → app_status a = Pending → app_rating a = Some 0%Q →
  mirrors (pushed_entry jid newId job) newId a.
Proof. intros <- Hs Hr. unfold mirrors. simpl. by rewrite Hs, Hr. Qed.

(** Creating the application and pushing its mirror entry keeps the
    copies in step. *)
Lemma apply_writes_consistent st newId a s job :
  consistent st →
  applications st !! newId = None →
  jobseekers st !! app_jobSeekerId a = Some s →
  app_status a = Pending → app_rating a = Some 0%Q →
  consistent
    (with_jobseekers
       (with_applications st (<[newId := a]> (applications st)))
       (<[app_jobSeekerId a :=
            set_appliedJobs (appliedJobs s ++ [pushed_entry (app_jobId a) newId job]) s]>
          (jobseekers st))).
Proof.
  unfold consistent. simpl. intros (HA & HB & HC) Hfresh Hs Hstatus Hrating.
  split_and!.
  - intros id a' Hlook. apply lookup_insert_Some in Hlook as [[<- <-]|[Hne Hlook]].
    + eexists _, (pushed_entry (app_jobId a) newId job).
      split_and!; [by rewrite lookup_insert_eq| |by apply mirrors_pushed_entry].
      simpl. apply elem_of_app. right. by left.
    + destruct (HA id a' Hlook) as (s' & e & Hs' & He & Hm).
      destruct (decide (app_jobSeekerId a = app_jobSeekerId a')) as [Heq|Hneq].
      * rewrite <- Heq in Hs'. simplify_eq.
        eexists _, e. split_and!; [by rewrite <- Heq, lookup_insert_eq| |done].
        simpl. apply elem_of_app. by left.
      * exists s', e. split_and!; [by rewrite lookup_insert_ne|done|done].
  - intros sid s' e' Hs' He'.
    destruct (decide (app_jobSeekerId a = sid)) as [<-|Hne].
    + rewrite lookup_insert_eq in Hs'. simplify_eq/=.
      apply elem_of_app in He' as [He'|He'].
      * destruct (HB _ _ _ Hs He') as (id & a'' & Hl & Hsk & Hm).
        exists id, a''. split_and!; [|done|done].
        rewrite lookup_insert_ne; [done|]. intros <-. congruence.
      * apply list_elem_of_singleton in He' as ->.
        exists newId, a. split_and!; [by rewrite lookup_insert_eq|done|].
        by apply mirrors_pushed_entry.
    + rewrite lookup_insert_ne in Hs' by done.
      destruct (HB _ _ _ Hs' He') as (id & a'' & Hl & Hsk & Hm).
      exists id, a''. split_and!; [|done|done].
      rewrite lookup_insert_ne; [done|]. intros <-. congruence.
  - intros sid s' Hs'.
    destruct (decide (app_jobSeekerId a = sid)) as [<-|Hne].
    + rewrite lookup_insert_eq in Hs'. simplify_eq/=.
      rewrite fmap_app. apply NoDup_app. split_and!; [by eapply HC| |].
      * intros x Hx Hx'. csimpl in Hx'. apply list_elem_of_singleton in Hx' as ->.
        apply list_elem_of_fmap in Hx as (e & He & Hin).
        destruct (HB _ _ _ Hs Hin) as (id & a'' & Hl & _ & Hm).
        rewrite (mirrors_applicationId _ _ _ Hm) in He. congruence.
      * csimpl. apply NoDup_singleton.
    + rewrite lookup_insert_ne in Hs' by done. by eapply HC.
Qed.

Lemma applications_POST_consistent now newId req st :
  consistent st → consistent (applications_POST now newId req st).2.
Proof.
  intros Hst.
  destruct (applications_POST_cases now newId req st)
    as [(_ & Happs & Hseekers)
       |(jid & sid & job & s & a & _ & _ & Hfresh & _ & Hs & _ &
         <- & <- & Hstatus & Hrating & Happs & Hseekers)].
  - by eapply consistent_ext.
  - eapply consistent_ext;
      [| |by apply (apply_writes_consistent st newId a s job)]; done.
Qed.

(** C1: an application lives in the applications collection and, as
    an entry with the same applicationId, jobId, status and rating, in
    its owner's [appliedJobs]; applying, the employer's PATCH and the
    job seeker's DELETE each take a store in which the two copies agree
    to a store in which they agree. *)
Theorem dual_write_consistent (st : Store) :
  consistent st →
  (∀ now newId req, consistent (applications_POST now newId req st).2) ∧
  (∀ applicationId req, consistent (applications_PATCH applicationId req st).2) ∧
  (∀ applicationId cookie, consistent (my_applications_DELETE applicationId cookie st).2).
Proof.
  intros Hst. split_and!; intros.
  - by apply applications_POST_consistent.
  - by apply applications_PATCH_consistent.
  - by apply my_applications_DELETE_consistent.
Qed.

(** ** DELETE /api/jobs/[jobId]: the cascade *)

Lemma elem_of_distinct (ids : list ObjectId) (x : ObjectId) :
  x ∈ distinct ids ↔ x ∈ ids.
Proof.
  unfold distinct.
  enough (∀ seen, x ∈ foldl (λ seen id, if bool_decide (id ∈ seen) then seen
                                          else (seen ++ [id])%list) seen ids
                  ↔ x ∈ seen ∨ x ∈ ids) as Hgen.
  { rewrite Hgen. split; [intros [Hnil|?]; [by apply elem_of_nil in Hnil|done]|by right]. }
  induction ids as [|id ids IH]; intros seen; simpl.
  - split; [by left|intros [?|Hnil]; [done|by apply elem_of_nil in Hnil]].
  - rewrite IH, elem_of_cons. case_bool_decide as Hseen.
    + split; [intros [?|?]; auto|intros [?|[->|?]]; auto].
    + rewrite elem_of_app, list_elem_of_singleton. tauto.
Qed.

Lemma elem_of_find_all {A} (query : A → bool) (m : gmap ObjectId A) k a :
  (k, a) ∈ find_all query m ↔ m !! k = Some a ∧ query a = true.
Proof.
  unfold find_all. by rewrite elem_of_List_filter, elem_of_map_to_list.
Qed.

Lemma List_filter_idemp {A} (p : A → bool) (l : list A) :
  List.filter p (List.filter p l) = List.filter p l.
Proof.
  induction l as [|x l IH]; simpl; [done|].
  destruct (p x) eqn:Hx; simpl; by rewrite ?Hx, IH.
Qed.

Lemma without_job_idemp jid s : without_job jid (without_job jid s) = without_job jid s.
Proof. unfold without_job. simpl. by rewrite List_filter_idemp. Qed.

Lemma remove_job_from_seeker_lookup jid m sid sid' :
  remove_job_from_seeker jid m sid !! sid' =
  if decide (sid = sid') then without_job jid <$> m !! sid' else m !! sid'.
Proof.
  unfold remove_job_from_seeker.
  destruct (m !! sid) as [s|] eqn:Hs.
  - destruct (Nat.eqb_spec (length (List.filter (keep_other_job jid) (appliedJobs s)))
                           (length (appliedJobs s))) as [Hlen|Hlen]; simpl.
    + case_decide as Heq; [|done]. subst. rewrite Hs. simpl. f_equal.
      unfold without_job. rewrite (List_filter_length_eq _ _ Hlen). by destruct s.
    + case_decide as Heq.
      * subst. by rewrite lookup_insert_eq, Hs.
      * by rewrite lookup_insert_ne.
  - case_decide as Heq; [|done]. subst. by rewrite Hs.
Qed.

Lemma cleanup_loop_lookup jid ids m sid :
  foldl (remove_job_from_seeker jid) m ids !! sid =
  if decide (sid ∈ ids) then without_job jid <$> m !! sid else m !! sid.
Proof.
  revert m. induction ids as [|x ids IH]; intros m.
  - by rewrite decide_False by apply not_elem_of_nil.
  - change (foldl (remove_job_from_seeker jid) m (x :: ids))
      with (foldl (remove_job_from_seeker jid) (remove_job_from_seeker jid m x) ids).
    rewrite IH, remove_job_from_seeker_lookup.
    destruct (decide (x = sid)) as [->|Hne].
    + rewrite (decide_True (P := sid ∈ sid :: ids)) by by left.
      case_decide; [|done].
      destruct (m !! sid) as [s|]; simpl; [|done]. by rewrite without_job_idemp.
    + destruct (decide (sid ∈ ids)) as [Hin|Hnin].
      * by rewrite (decide_True (P := sid ∈ x :: ids)) by by right.
      * rewrite (decide_False (P := sid ∈ x :: ids)); [done|].
        rewrite elem_of_cons. intros [->|?]; done.
Qed.

(** C2: when the employer who owns a job deletes it, the job is gone,
    no application of the collection refers to it, and no seeker who
    had applied to it still lists it in [appliedJobs]. *)
Theorem job_delete_cascades
    (jobId : string) (cookie : option string) (st : Store)
    (token : string) (decoded : TokenPayload) (jid : ObjectId) (job : Job) :
  present cookie = Some token →
  verifyToken token = Some decoded →
  tok_role decoded = "employer" →
  ObjectId_new jobId = Some jid →
  ObjectId_new (tok_userId decoded) = Some (job_employerId job) →
  jobs st !! jid = Some job →
  resp_status (jobs_id_DELETE jobId cookie st).1 = 200 ∧
  jobs (jobs_id_DELETE jobId cookie st).2 !! jid = None ∧
  (∀ id a, applications (jobs_id_DELETE jobId cookie st).2 !! id = Some a →
           app_jobId a ≠ jid) ∧
  (∀ id a s e,
     applications st !! id = Some a → app_jobId a = jid →
     jobseekers (jobs_id_DELETE jobId cookie st).2 !! app_jobSeekerId a = Some s →
     e ∈ appliedJobs s → aj_jobId e ≠ Some jid).
Proof.
  intros Hcookie Htoken Hrole Hjid Heid Hjob.
  unfold jobs_id_DELETE.
  rewrite Hcookie, Htoken, Hrole, Hjid, Heid, Hjob. simpl.
  rewrite N.eqb_refl. simpl. split_and!.
  - done.
  - apply lookup_delete_eq.
  - intros id a Hlook. unfold deleteMany in Hlook.
    apply map_lookup_filter_Some in Hlook as [_ Hq]. simpl in Hq.
    by apply N.eqb_neq.
  - intros id a s e Ha Hjid' Hs He.
    rewrite cleanup_loop_lookup in Hs.
    rewrite decide_True in Hs.
    + destruct (jobseekers st !! app_jobSeekerId a) as [s0|]; simplify_eq/=.
      apply elem_of_List_filter in He as [_ Hkeep].
      unfold keep_other_job in Hkeep.
      destruct (aj_jobId e) as [j|]; [|done].
      apply negb_true_iff, N.eqb_neq in Hkeep. congruence.
    + apply elem_of_distinct.
      apply (list_elem_of_fmap_2 (λ kv, app_jobSeekerId kv.2) _ (id, a)).
      apply elem_of_find_all. split; [done|]. by apply N.eqb_eq.
Qed.

(** ** One application per job and job seeker *)

Lemma unique_pairs_ext (st st' : Store) :
  applications st' = applications st → unique_pairs st → unique_pairs st'.
Proof. unfold unique_pairs. by intros ->. Qed.

Lemma unique_pairs_empty (st : Store) : applications st = ∅ → unique_pairs st.
Proof. unfold unique_pairs. intros -> id1 id2 a1 a2 Ha1. by rewrite lookup_empty in Ha1. Qed.

Lemma same_job_and_seeker_true jid sid a :
  same_job_and_seeker jid sid a = true ↔ app_jobId a = jid ∧ app_jobSeekerId a = sid.
Proof. unfold same_job_and_seeker. by rewrite andb_true_iff, !N.eqb_eq. Qed.

Lemma applications_POST_unique_pairs now newId req st :
  unique_pairs st → unique_pairs (applications_POST now newId req st).2.
Proof.
  intros Hst.
  destruct (applications_POST_cases now newId req st)
    as [(_ & Happs & _)
       |(jid & sid & job & s & a & _ & _ & Hfresh & Hnone & _ & _ &
         Hjid & Hsid & _ & _ & Happs & _)].
  { by eapply unique_pairs_ext. }
  unfold unique_pairs. rewrite Happs. intros id1 id2 a1 a2 H1 H2 Hj Hs.
  assert (∀ id a', applications st !! id = Some a' →
            ¬ (app_jobId a' = jid ∧ app_jobSeekerId a' = sid)) as Hno.
  { intros id a' Ha' Hsame. apply same_job_and_seeker_true in Hsame.
    by rewrite (findOne_None _ _ _ _ Hnone Ha') in Hsame. }
  apply lookup_insert_Some in H1 as [[<- <-]|[Hne1 H1]];
    apply lookup_insert_Some in H2 as [[<- <-]|[Hne2 H2]].
  - done.
  - destruct (Hno _ _ H2). split; congruence.
  - destruct (Hno _ _ H1). split; congruence.
  - by eapply Hst.
Qed.

Lemma applications_PATCH_unique_pairs applicationId req st :
  unique_pairs st → unique_pairs (applications_PATCH applicationId req st).2.
Proof.
  intros Hst.
  destruct (applications_PATCH_cases applicationId req st)
    as [->|(aid & a & u & Ha & _ & ->)]; [done|].
  unfold unique_pairs. simpl. intros id1 id2 a1 a2 H1 H2 Hj Hs.
  apply lookup_alter_Some in H1 as [(-> & b1 & H1' & ->)|[_ H1']];
    apply lookup_alter_Some in H2 as [(-> & b2 & H2' & ->)|[_ H2']];
    by eapply Hst.
Qed.

Lemma my_applications_DELETE_unique_pairs applicationId cookie st :
  unique_pairs st → unique_pairs (my_applications_DELETE applicationId cookie st).2.
Proof.
  intros Hst.
  destruct (my_applications_DELETE_cases applicationId cookie st)
    as [->|(aid & a & Ha & _ & Happs & _)]; [done|].
  unfold unique_pairs. rewrite Happs. intros id1 id2 a1 a2 H1 H2.
  apply lookup_delete_Some in H1 as [_ H1]. apply lookup_delete_Some in H2 as [_ H2].
  by eapply Hst.
Qed.

Lemma jobs_id_DELETE_unique_pairs jobId cookie st :
  unique_pairs st → unique_pairs (jobs_id_DELETE jobId cookie st).2.
Proof.
  intros Hst. unfold jobs_id_DELETE.
  repeat case_match; simplify_eq; try done.
  unfold unique_pairs, deleteMany. simpl. intros id1 id2 a1 a2 Ha1 Ha2.
  apply map_lookup_filter_Some in Ha1 as [Ha1 _].
  apply map_lookup_filter_Some in Ha2 as [Ha2 _].
  by eapply Hst.
Qed.

Lemma jobs_id_GET_store jobId st : (jobs_id_GET jobId st).2 = st.
Proof. unfold jobs_id_GET. by repeat case_match. Qed.

Lemma jobs_employer_GET_applications now cookie st :
  applications (jobs_employer_GET now cookie st).2 = applications st.
Proof. unfold jobs_employer_GET. by repeat case_match. Qed.

Lemma auth_register_POST_applications now newId secureToken body st :
  applications (auth_register_POST now newId secureToken body st).2 = applications st.
Proof. unfold auth_register_POST. by repeat case_match. Qed.

Lemma auth_login_POST_store body st : (auth_login_POST body st).2 = st.
Proof. unfold auth_login_POST. by repeat case_match. Qed.

Lemma auth_reset_password_POST_applications now body st :
  applications (auth_reset_password_POST now body st).2 = applications st.
Proof. unfold auth_reset_password_POST. by repeat case_match. Qed.

Lemma step_unique_pairs st st' : step st st' → unique_pairs st → unique_pairs st'.
Proof.
  intros Hstep Hst. destruct Hstep.
  - by apply applications_POST_unique_pairs.
  - by apply applications_PATCH_unique_pairs.
  - by apply my_applications_DELETE_unique_pairs.
  - by rewrite jobs_id_GET_store.
  - by apply jobs_id_DELETE_unique_pairs.
  - eapply unique_pairs_ext; [apply jobs_employer_GET_applications|done].
  - eapply unique_pairs_ext; [apply auth_register_POST_applications|done].
  - by rewrite auth_login_POST_store.
  - eapply unique_pairs_ext; [apply auth_reset_password_POST_applications|done].
Qed.

Lemma reachable_unique_pairs st : reachable st → unique_pairs st.
Proof.
  intros (st0 & Hempty & Hsteps).
  apply unique_pairs_empty in Hempty.
  induction Hsteps as [st0|st0 st1 st2 Hstep _ IH]; [done|].
  apply IH. by eapply step_unique_pairs.
Qed.

Lemma existsb_has_jobId jid l e :
  e ∈ l → aj_jobId e = Some jid → existsb (has_jobId jid) l = true.
Proof.
  intros Hin Hjid. apply existsb_exists. exists e.
  split; [by apply list_elem_of_In|by apply has_jobId_true].
Qed.

(** C3: when the job seeker already has an application for the job, in
    the collection or in the [appliedJobs] mirror, applying again is
    answered with a client error and creates nothing; and no store the
    routes produce holds two applications of one seeker for one job. *)
Theorem apply_twice_rejected
    (now : Z) (newId : ObjectId) (req : ApplyRequest) (st : Store)
    (token : string) (decoded : TokenPayload) (data : ApplyBody)
    (jobIdString : string) (sid jid : ObjectId) :
  present (apply_cookie req) = Some token →
  verifyToken token = Some decoded →
  tok_role decoded = "job-seeker" →
  ObjectId_new (tok_userId decoded) = Some sid →
  apply_body req = Some data →
  ab_jobId data = JStr jobIdString →
  ObjectId_new jobIdString = Some jid →
  (∃ id a, applications st !! id = Some a ∧ app_jobId a = jid ∧ app_jobSeekerId a = sid) ∨
  (∃ s e, jobseekers st !! sid = Some s ∧ e ∈ appliedJobs s ∧ aj_jobId e = Some jid) →
  rejected (applications_POST now newId req st).1 ∧
  applications (applications_POST now newId req st).2 = applications st ∧
  jobseekers (applications_POST now newId req st).2 = jobseekers st ∧
  (∀ st', reachable st' → unique_pairs st').
Proof.
  intros Hcookie Htoken Hrole Hsid Hbody HjobId Hjid Hexists.
  assert (is_Some (findOne (same_job_and_seeker jid sid) (applications st)) ∨
          ∃ s, jobseekers st !! sid = Some s ∧
               existsb (has_jobId jid) (appliedJobs s) = true) as Hdup.
  { destruct Hexists as [(id & a & Ha & Hj & Hs)|(s & e & Hs & He & Hj)].
    - left. eapply findOne_is_Some; [done|]. by apply same_job_and_seeker_true.
    - right. exists s. split; [done|]. by eapply existsb_has_jobId. }
  assert (∀ r : Response, resp_status r = 400 ∨ resp_status r = 404 → rejected r)
    as Hrej.
  { intros r [Hr|Hr]; unfold rejected; rewrite Hr; lia. }
  split_and!; [| | |apply reachable_unique_pairs].
  all: unfold applications_POST.
  all: rewrite Hcookie, Htoken, Hrole, Hbody, HjobId, Hsid; simpl.
  all: repeat case_match; simplify_eq; simpl; try done;
         try (apply Hrej; simpl; auto; fail).
  all: destruct Hdup as [[? Hfound]|(s' & Hs' & Hex)]; congruence.
Qed.

(** ** Reading a job *)

(** GET /api/jobs/[jobId] reports the stored status, whatever the
    deadline. *)
Lemma jobs_id_GET_reports_stored_status jobId st jid job :
  ObjectId_new jobId = Some jid → jobs st !! jid = Some job →
  jobs_id_GET jobId st =
    (json (JobJson (format_job jid (job_status job) job)) 200, st).
Proof. intros Hjid Hjob. unfold jobs_id_GET. by rewrite Hjid, Hjob. Qed.

(** GET /api/jobs/employer reports an expired job of the employer as
    Closed. *)
Lemma jobs_employer_GET_reports_closed now cookie st token decoded jid job :
  present cookie = Some token →
  verifyToken token = Some decoded →
  tok_role decoded = "employer" →
  ObjectId_new (tok_userId decoded) = Some (job_employerId job) →
  jobs st !! jid = Some job →
  expired now job = true →
  ∃ views, (jobs_employer_GET now cookie st).1 = json (JobsJson views) 200 ∧
           format_job jid Closed job ∈ views.
Proof.
  intros Hcookie Htoken Hrole Heid Hjob Hexpired.
  unfold jobs_employer_GET. rewrite Hcookie, Htoken, Hrole, Heid. simpl.
  eexists. split; [done|].
  apply (list_elem_of_fmap_2' _ _ (jid, job)).
  - apply elem_of_find_all. split; [done|]. apply N.eqb_refl.
  - simpl. by rewrite Hexpired.
Qed.

(** ** Authentication *)

Lemma JobSeeker_findOne_Some query st user :
  JobSeeker_findOne query st = Some user →
  has_account st (user_account user) ∧ query (user_account user) = true.
Proof.
  unfold JobSeeker_findOne. intros Hsome.
  destruct (findOne _ (jobseekers st)) as [[id s]|] eqn:Hfind; simplify_eq/=.
  apply findOne_Some in Hfind as [Hs Hq]. split; [|done]. left. by exists id, s.
Qed.

Lemma Employer_findOne_Some query st user :
  Employer_findOne query st = Some user →
  has_account st (user_account user) ∧ query (user_account user) = true.
Proof.
  unfold Employer_findOne. intros Hsome.
  destruct (findOne _ (employers st)) as [[id e]|] eqn:Hfind; simplify_eq/=.
  apply findOne_Some in Hfind as [He Hq]. split; [|done]. right. by exists id, e.
Qed.

(** The user the login route finds is an account of the store with
    the lower-cased username. *)
Lemma login_find_user_Some role usernameLower st user :
  login_find_user role usernameLower st = Some user →
  has_account st (user_account user) ∧ username (user_account user) = usernameLower.
Proof.
  unfold login_find_user. intros Hfind.
  assert (JobSeeker_findOne (λ a, username a =? usernameLower) st = Some user ∨
          Employer_findOne (λ a, username a =? usernameLower) st = Some user)
    as [Hjs|Hemp].
  { repeat case_match; simplify_eq; auto. }
  - apply JobSeeker_findOne_Some in Hjs as [? Hq]. by apply String.eqb_eq in Hq.
  - apply Employer_findOne_Some in Hemp as [? Hq]. by apply String.eqb_eq in Hq.
Qed.

(** C7: a login request that names an existing user and supplies a
    password which does not verify against the stored hash is answered
    401, and the response sets no [auth_token] cookie. *)
Theorem login_wrong_password_unauthorized
    (data : LoginBody) (st : Store) (uname pwd : string) :
  present (lb_username data) = Some uname →
  present (lb_password data) = Some pwd →
  (∃ a, has_account st a ∧ username a = toLowerCase uname) →
  (∀ a, has_account st a → username a = toLowerCase uname →
        verifyPassword pwd (passwordHash a) = false) →
  resp_status (auth_login_POST (Some data) st).1 = 401 ∧
  resp_cookie (auth_login_POST (Some data) st).1 = None ∧
  (auth_login_POST (Some data) st).2 = st.
Proof.
  intros Huser Hpwd _ Hwrong. unfold auth_login_POST. rewrite Huser, Hpwd. simpl.
  destruct (login_find_user _ _ st) as [user|] eqn:Hfind; [|done].
  apply login_find_user_Some in Hfind as [Hacc Hname].
  by rewrite (Hwrong _ Hacc Hname).
Qed.



(** A registration leaves the user collections as they were unless it
    is answered 201. *)
Lemma auth_register_POST_creates_only_on_201 now newId secureToken body st :
  resp_status (auth_register_POST now newId secureToken body st).1 ≠ 201 →
  (auth_register_POST now newId secureToken body st).2 = st.
Proof. unfold auth_register_POST. by repeat case_match. Qed.

(** C6, as the route implements it: a registration request that passes
    the validation of its fields and whose username is, up to case, the
    username of an existing job seeker or employer is answered 409 and
    creates no user. *)
Theorem register_taken_username_conflict
    (now : Z) (newId : ObjectId) (secureToken : string)
    (data : RegisterBody) (st : Store)
    (uname pwd first last role mail : string) (existing : Account) :
  present (rb_username data) = Some uname →
  present (rb_password data) = Some pwd →
  present (rb_firstName data) = Some first →
  present (rb_lastName data) = Some last →
  present (rb_role data) = Some role →
  (6 ≤ String.length pwd)%nat →
  present (rb_email data) = Some mail →
  includes_at mail = true →
  role = "job-seeker" ∨ role = "employer" →
  has_account st existing →
  toLowerCase (username existing) = username existing →
  toLowerCase (username existing) = toLowerCase uname →
  auth_register_POST now newId secureToken (Some data) st =
    (json (Message "User with this username or email already exists.") 409, st).
Proof.
  intros Huser Hpwd Hfirst Hlast Hrole Hlen Hmail Hat Hvalid Hacc Hnorm Hsame.
  unfold auth_register_POST.
  rewrite Huser, Hpwd, Hfirst, Hlast, Hrole, Hmail, Hat. simpl.
  destruct (Nat.ltb_spec (String.length pwd) 6); [lia|].
  assert (negb (role =? "job-seeker") && negb (role =? "employer") = false) as ->.
  { by destruct Hvalid as [-> | ->]. }
  assert (username_or_email (toLowerCase uname) (trim (toLowerCase mail)) existing = true)
    as Hquery.
  { unfold username_or_email. rewrite <- Hsame, Hnorm, String.eqb_refl. done. }
  assert (is_Some (findOne (λ s, username_or_email (toLowerCase uname)
                                   (trim (toLowerCase mail)) (js_account s))
                           (jobseekers st)) ∨
          is_Some (findOne (λ e, username_or_email (toLowerCase uname)
                                   (trim (toLowerCase mail)) (emp_account e))
                           (employers st))) as Hfound.
  { destruct Hacc as [(id & s & Hs & <-)|(id & e & He & <-)].
    - left. by eapply findOne_is_Some.
    - right. by eapply findOne_is_Some. }
  assert (bool_decide (is_Some (findOne (λ s, username_or_email (toLowerCase uname)
                                   (trim (toLowerCase mail)) (js_account s))
                           (jobseekers st))) ||
          bool_decide (is_Some (findOne (λ e, username_or_email (toLowerCase uname)
                                   (trim (toLowerCase mail)) (emp_account e))
                           (employers st))) = true) as ->; [|done].
  apply orb_true_iff. destruct Hfound; [left|right]; by apply bool_decide_eq_true.
Qed.

(** ** Ratings *)

(** A rating that passes the guard of the PATCH route is stored as a
    number of [0, 5], or as [null]: the latter for [null] and for the
    empty string, which JavaScript compares as 0. *)
Lemma castNumber_accepted_range (rating : JSValue) (r : option Q) :
  rating_accepted rating = true → castNumber rating = Some r →
  r = None ∨ rating_in_range r.
Proof.
  unfold rating_accepted, js_ge, js_le.
  destruct rating as [| |b|q|s|prim]; simpl; try done.
  - intros _ [= <-]. by left.
  - intros _ [= <-]. right. by destruct b.
  - rewrite andb_true_iff, !Qle_bool_iff. intros Hq [= <-]. by right.
  - destruct (s =? ""); [intros _ [= <-]; by left|].
    destruct (StringToNumber s) as [q|]; [|done].
    rewrite andb_true_iff, !Qle_bool_iff. intros Hq [= <-]. by right.
Qed.

(** A created application has rating 0. *)
Lemma applications_POST_rating now newId req st a :
  applications st !! newId = None →
  applications (applications_POST now newId req st).2 !! newId = Some a →
  app_rating a = Some 0%Q ∧ rating_in_range (app_rating a).
Proof.
  intros Hfresh Ha.
  destruct (applications_POST_cases now newId req st)
    as [(_ & Happs & _)
       |(jid & sid & job & s & a' & _ & _ & _ & _ & _ & _ & _ & _ & _ & Hr & Happs & _)].
  - rewrite Happs in Ha. congruence.
  - rewrite Happs, lookup_insert_eq in Ha. simplify_eq. rewrite Hr. done.
Qed.

(** What a PATCH does to the stored rating: it is left as it was, or the
    rating of the body passed the guard and its cast is stored. *)
Lemma applications_PATCH_rating applicationId req st data aid a a' :
  patch_body req = Some data →
  ObjectId_new applicationId = Some aid →
  applications st !! aid = Some a →
  applications (applications_PATCH applicationId req st).2 !! aid = Some a' →
  app_rating a' = app_rating a ∨
  (rating_accepted (pb_rating data) = true ∧
   castNumber (pb_rating data) = Some (app_rating a')).
Proof.
  intros Hbody Haid Ha Ha'. unfold applications_PATCH in Ha'.
  rewrite Hbody, Haid, Ha in Ha'.
  repeat case_match; simpl in Ha'; simplify_eq; try (by left).
  all: match goal with
       | Hcast : cast_update _ _ = Some ?u,
         Hupd : alter _ _ _ !! _ = Some _ |- _ =>
           rewrite lookup_alter_eq, Ha in Hupd; simplify_eq/=;
           unfold cast_update in Hcast;
           destruct (status_accepted (pb_status data));
           destruct (rating_accepted (pb_rating data));
           destruct (castStatus (pb_status data));
           destruct (castNumber (pb_rating data));
           simplify_eq/=; auto
       end.
Qed.

(** After a PATCH the rating is the old one, a number of [0, 5], or
    [null]. *)
Lemma applications_PATCH_rating_range applicationId req st data aid a a' :
  patch_body req = Some data →
  ObjectId_new applicationId = Some aid →
  applications st !! aid = Some a →
  applications (applications_PATCH applicationId req st).2 !! aid = Some a' →
  app_rating a' = app_rating a ∨ app_rating a' = None ∨ rating_in_range (app_rating a').
Proof.
  intros Hbody Haid Ha Ha'.
  destruct (applications_PATCH_rating _ _ _ _ _ _ _ Hbody Haid Ha Ha')
    as [?|[Hacc Hcast]]; [by left|].
  right. by eapply castNumber_accepted_range.
Qed.

(** ** The mirror under the other routes *)

Lemma jobs_id_DELETE_cases jobId cookie st :
  (jobs_id_DELETE jobId cookie st).2 = st ∨
  ∃ jid,
    applications (jobs_id_DELETE jobId cookie st).2 =
      deleteMany (λ a, (app_jobId a =? jid)%N) (applications st) ∧
    jobseekers (jobs_id_DELETE jobId cookie st).2 =
      foldl (remove_job_from_seeker jid) (jobseekers st)
            (distinct ((λ kv, app_jobSeekerId kv.2)
                         <$> find_all (λ a, (app_jobId a =? jid)%N) (applications st))).
Proof.
  unfold jobs_id_DELETE. repeat case_match; simplify_eq; try (by left).
  right. by eexists.
Qed.

Lemma keep_other_job_true jid e :
  keep_other_job jid e = true ↔ ∃ j, aj_jobId e = Some j ∧ j ≠ jid.
Proof.
  unfold keep_other_job. destruct (aj_jobId e) as [j|].
  - rewrite negb_true_iff, N.eqb_neq. split; [by exists j|by intros (? & [= <-] & ?)].
  - split; [done|by intros (? & ? & ?)].
Qed.

Lemma jobs_id_DELETE_consistent jobId cookie st :
  consistent st → consistent (jobs_id_DELETE jobId cookie st).2.
Proof.
  intros Hst.
  destruct (jobs_id_DELETE_cases jobId cookie st) as [->|(jid & Happs & Hseekers)];
    [done|].
  destruct Hst as (HA & HB & HC).
  assert (∀ id a, applications (jobs_id_DELETE jobId cookie st).2 !! id = Some a ↔
                  applications st !! id = Some a ∧ app_jobId a ≠ jid) as Hlook.
  { intros id a. rewrite Happs. unfold deleteMany.
    rewrite map_lookup_filter_Some. simpl. by rewrite N.eqb_neq. }
  assert (∀ sid s', jobseekers (jobs_id_DELETE jobId cookie st).2 !! sid = Some s' →
            ∃ s, jobseekers st !! sid = Some s ∧
                 (s' = without_job jid s ∨
                  s' = s ∧ ∀ id a, applications st !! id = Some a →
                                   app_jobSeekerId a = sid → app_jobId a ≠ jid))
    as Hseeker.
  { intros sid s'. rewrite Hseekers, cleanup_loop_lookup. case_decide as Hin.
    - destruct (jobseekers st !! sid) as [s|]; [|done].
      intros [= <-]. exists s. split; [done|by left].
    - intros Hs. exists s'. split; [done|]. right. split; [done|].
      intros id a Ha Hsid Hjob. apply Hin, elem_of_distinct.
      apply (list_elem_of_fmap_2' _ _ (id, a)); [|done].
      apply elem_of_find_all. split; [done|]. by apply N.eqb_eq. }
  split_and!.
  - intros id a Ha. apply Hlook in Ha as [Ha Hjob].
    destruct (HA id a Ha) as (s & e & Hs & He & Hm).
    pose proof (cleanup_loop_lookup jid
      (distinct ((λ kv, app_jobSeekerId kv.2)
                   <$> find_all (λ a, (app_jobId a =? jid)%N) (applications st)))
      (jobseekers st) (app_jobSeekerId a)) as Hloop.
    rewrite <- Hseekers, Hs in Hloop.
    case_decide; [|by exists s, e].
    exists (without_job jid s), e. split_and!; [done| |done].
    simpl. apply elem_of_List_filter. split; [done|].
    apply keep_other_job_true. exists (app_jobId a). split; [apply Hm|done].
  - intros sid s' e Hs' He.
    destruct (Hseeker sid s' Hs') as (s & Hs & [->|[-> Hnone]]).
    + apply elem_of_List_filter in He as [He Hkeep].
      apply keep_other_job_true in Hkeep as (j & Hj & Hne).
      destruct (HB _ _ _ Hs He) as (id & a & Ha & Hsid & Hm).
      exists id, a. split_and!; [|done|done].
      apply Hlook. split; [done|]. destruct Hm as (_ & Hjob & _). congruence.
    + destruct (HB _ _ _ Hs He) as (id & a & Ha & Hsid & Hm).
      exists id, a. split_and!; [|done|done].
      apply Hlook. split; [done|]. by eapply Hnone.
  - intros sid s' Hs'.
    destruct (Hseeker sid s' Hs') as (s & Hs & [->|[-> _]]); [|by eapply HC].
    simpl. apply NoDup_fmap_List_filter. by eapply HC.
Qed.

(** A route that rewrites the account of one seeker, or adds a seeker
    who has applied to nothing, keeps the copies in step. *)
Lemma consistent_alter_account st st' f sid :
  applications st' = applications st →
  jobseekers st' = alter f sid (jobseekers st) →
  (∀ s, appliedJobs (f s) = appliedJobs s) →
  consistent st → consistent st'.
Proof.
  intros Happs Hseekers Hf (HA & HB & HC).
  assert (∀ sid' s', jobseekers st' !! sid' = Some s' →
            ∃ s, jobseekers st !! sid' = Some s ∧ appliedJobs s' = appliedJobs s)
    as Hback.
  { intros sid' s'. rewrite Hseekers.
    destruct (decide (sid = sid')) as [<-|Hne].
    - rewrite lookup_alter_eq. destruct (jobseekers st !! sid) as [s|]; [|done].
      intros [= <-]. by exists s.
    - rewrite lookup_alter_ne by done. intros Hs. by exists s'. }
  unfold consistent. rewrite Happs. split_and!.
  - intros id a Ha. destruct (HA id a Ha) as (s & e & Hs & He & Hm).
    rewrite Hseekers. destruct (decide (sid = app_jobSeekerId a)) as [Heq|Hne].
    + exists (f s), e. rewrite Heq, lookup_alter_eq, Hs, Hf. done.
    + exists s, e. by rewrite lookup_alter_ne.
  - intros sid' s' e Hs' He. destruct (Hback _ _ Hs') as (s & Hs & Heq).
    rewrite Heq in He. by eapply HB.
  - intros sid' s' Hs'. destruct (Hback _ _ Hs') as (s & Hs & Heq).
    rewrite Heq. by eapply HC.
Qed.

Lemma consistent_insert_seeker st st' newId s0 :
  applications st' = applications st →
  jobseekers st' = <[newId := s0]> (jobseekers st) →
  jobseekers st !! newId = None → appliedJobs s0 = [] →
  consistent st → consistent st'.
Proof.
  intros Happs Hseekers Hfresh Hnil (HA & HB & HC).
  unfold consistent. rewrite Happs, Hseekers. split_and!.
  - intros id a Ha. destruct (HA id a Ha) as (s & e & Hs & He & Hm).
    exists s, e. split_and!; [|done|done].
    rewrite lookup_insert_ne; [done|]. congruence.
  - intros sid s e Hs He. apply lookup_insert_Some in Hs as [[<- <-]|[_ Hs]].
    + rewrite Hnil in He. by apply elem_of_nil in He.
    + by eapply HB.
  - intros sid s Hs. apply lookup_insert_Some in Hs as [[<- <-]|[_ Hs]].
    + rewrite Hnil. apply NoDup_nil_2.
    + by eapply HC.
Qed.

Lemma auth_register_POST_consistent now newId secureToken body st :
  consistent st → consistent (auth_register_POST now newId secureToken body st).2.
Proof.
  intros Hst. unfold auth_register_POST, User_create.
  repeat case_match; simplify_eq; try done.
  eapply (consistent_insert_seeker st _ newId); [done|simpl; reflexivity|done..].
Qed.

Lemma auth_reset_password_POST_consistent now body st :
  consistent st → consistent (auth_reset_password_POST now body st).2.
Proof.
  intros Hst. unfold auth_reset_password_POST.
  repeat case_match; simplify_eq; try done.
  match goal with
  | |- context [alter ?f ?i (jobseekers _)] =>
      by eapply (consistent_alter_account st _ f i)
  end.
Qed.

(** Every route keeps the two copies in step, so the precondition of
    the dual-write property holds in every store the routes produce
    from one in which the copies agree. *)
Lemma routes_keep_consistent st st' :
  rtc step st st' → consistent st → consistent st'.
Proof.
  intros Hsteps. induction Hsteps as [st|st st1 st2 Hstep _ IH]; [done|].
  intros Hst. apply IH. destruct Hstep.
  - by apply applications_POST_consistent.
  - by apply applications_PATCH_consistent.
  - by apply my_applications_DELETE_consistent.
  - by rewrite jobs_id_GET_store.
  - by apply jobs_id_DELETE_consistent.
  - eapply consistent_ext; [apply jobs_employer_GET_applications| |done].
    unfold jobs_employer_GET. by repeat case_match.
  - by apply auth_register_POST_consistent.
  - by rewrite auth_login_POST_store.
  - by apply auth_reset_password_POST_consistent.
Qed.

End Properties.

(** * The routes on the example store *)

Lemma demo_store_consistent : consistent demo_store.
Proof.
  unfold consistent, demo_store. simpl. split_and!.
  - intros id a Ha. apply lookup_insert_Some in Ha as [[<- <-]|[_ Ha]];
      [|by rewrite lookup_empty in Ha].
    exists (demo_ann [demo_appliedJob]), demo_appliedJob.
    split_and!; [done|by left|done].
  - intros sid s e Hs He. apply lookup_insert_Some in Hs as [[<- <-]|[_ Hs]];
      [|by rewrite lookup_empty in Hs].
    apply list_elem_of_singleton in He as ->.
    exists demo_application_id, demo_application. done.
  - intros sid s Hs. apply lookup_insert_Some in Hs as [[<- <-]|[_ Hs]];
      [|by rewrite lookup_empty in Hs].
    apply NoDup_singleton.
Qed.

Lemma demo_store0_consistent : consistent demo_store0.
Proof.
  unfold consistent, demo_store0. simpl. split_and!.
  - intros id a Ha. by rewrite lookup_empty in Ha.
  - intros sid s e Hs He. apply lookup_insert_Some in Hs as [[<- <-]|[_ Hs]];
      [|by rewrite lookup_empty in Hs].
    by apply elem_of_nil in He.
  - intros sid s Hs. apply lookup_insert_Some in Hs as [[<- <-]|[_ Hs]];
      [|by rewrite lookup_empty in Hs].
    apply NoDup_nil_2.
Qed.

Lemma dual_write_consistent_witness :
  resp_status
    (applications_POST (RT := demoRuntime) demo_now demo_application_id
       (apply_request "seeker-a1" demo_job_param) demo_store0).1 = 201 ∧
  consistent
    (applications_POST (RT := demoRuntime) demo_now demo_application_id
       (apply_request "seeker-a1" demo_job_param) demo_store0).2 ∧
  consistent
    (applications_PATCH (RT := demoRuntime) demo_application_param
       (patch_request "employer-e1" (JStr "Shortlisted") (JNum 4)) demo_store).2 ∧
  consistent
    (my_applications_DELETE (RT := demoRuntime) demo_application_param
       (Some "seeker-a1") demo_store).2.
Proof.
  destruct (dual_write_consistent (RT := demoRuntime) demo_store0 demo_store0_consistent)
    as (Hpost & _ & _).
  destruct (dual_write_consistent (RT := demoRuntime) demo_store demo_store_consistent)
    as (_ & Hpatch & Hdelete).
  split_and!; [reflexivity|apply Hpost|apply Hpatch|apply Hdelete].
Defined.

Lemma job_delete_cascades_witness :
  resp_status (jobs_id_DELETE (RT := demoRuntime) demo_job_param
                 (Some "employer-e1") demo_store).1 = 200 ∧
  jobs (jobs_id_DELETE (RT := demoRuntime) demo_job_param
          (Some "employer-e1") demo_store).2 !! demo_job_id = None.
Proof.
  pose proof (job_delete_cascades (RT := demoRuntime) demo_job_param
                (Some "employer-e1") demo_store "employer-e1" acme_token
                demo_job_id demo_job) as Hcascade.
  destruct Hcascade as (Hstatus & Hjob & _); [reflexivity..|].
  by split.
Defined.

Lemma apply_twice_rejected_witness :
  rejected (applications_POST (RT := demoRuntime) demo_now 194%N
              (apply_request "seeker-a1" demo_job_param) demo_store).1 ∧
  applications (applications_POST (RT := demoRuntime) demo_now 194%N
                  (apply_request "seeker-a1" demo_job_param) demo_store).2 =
    applications demo_store.
Proof.
  pose proof (apply_twice_rejected (RT := demoRuntime) demo_now 194%N
                (apply_request "seeker-a1" demo_job_param) demo_store
                "seeker-a1" ann_token
                {| ab_jobId := JStr demo_job_param; ab_coverLetter := JUndefined;
                   ab_resume := JUndefined |}
                demo_job_param ann_id demo_job_id) as Hrejected.
  destruct Hrejected as (Hstatus & Happs & _); [reflexivity..| |by split].
  left. exists demo_application_id, demo_application. by vm_compute.
Defined.


Lemma patch_sets_any_status_witness :
  ∃ updated,
    applications (applications_PATCH (RT := demoRuntime) demo_application_param
                    (patch_request "employer-e1" (JStr "Selected") JUndefined)
                    demo_store).2 !! demo_application_id = Some updated ∧
    app_status updated = Selected.
Proof.
  destruct (patch_sets_any_status (RT := demoRuntime)
              demo_application_param
              (patch_request "employer-e1" (JStr "Selected") JUndefined) demo_store
              "employer-e1" acme_token JUndefined
              demo_application_id demo_application demo_job Selected)
    as (updated & Hlookup & Hstatus & _);
    [reflexivity|reflexivity|reflexivity|reflexivity|reflexivity|done
    |reflexivity|reflexivity|reflexivity|].
  by exists updated.
Defined.

Lemma demo_store_accounts (a : Account) :
  has_account demo_store a →
  a = demo_account "ann" "hash(ann-secret)" false ∨
  a = demo_account "acme" "hash(acme-secret)" true ∨
  a = demo_account "globex" "hash(globex-secret)" true.
Proof.
  unfold has_account, demo_store, demo_employers. simpl.
  intros [(id & s & Hs & <-)|(id & e & He & <-)].
  - apply lookup_insert_Some in Hs as [[<- <-]|[_ Hs]]; [by left|].
    by rewrite lookup_empty in Hs.
  - apply lookup_insert_Some in He as [[<- <-]|[_ He]]; [by right; left|].
    apply lookup_insert_Some in He as [[<- <-]|[_ He]]; [by right; right|].
    by rewrite lookup_empty in He.
Qed.

Lemma login_wrong_password_unauthorized_witness :
  resp_status (auth_login_POST (RT := demoRuntime)
                 (Some (demo_login "Ann" "guess")) demo_store).1 = 401 ∧
  resp_cookie (auth_login_POST (RT := demoRuntime)
                 (Some (demo_login "Ann" "guess")) demo_store).1 = None.
Proof.
  destruct (login_wrong_password_unauthorized (RT := demoRuntime)
              (demo_login "Ann" "guess") demo_store "Ann" "guess")
    as (Hstatus & Hcookie & _); [reflexivity|reflexivity| | |by split].
  - exists (demo_account "ann" "hash(ann-secret)" false).
    split; [|reflexivity]. left. by exists ann_id, (demo_ann [demo_appliedJob]).
  - intros a Ha _. by destruct (demo_store_accounts a Ha) as [->|[->| ->]].
Defined.

Lemma register_taken_username_conflict_witness :
  resp_status (auth_register_POST (RT := demoRuntime) demo_now 500%N "token"
                 (Some (demo_registration "Acme" "secret1")) demo_store).1 = 409 ∧
  (auth_register_POST (RT := demoRuntime) demo_now 500%N "token"
     (Some (demo_registration "Acme" "secret1")) demo_store).2 = demo_store.
Proof.
  rewrite (register_taken_username_conflict (RT := demoRuntime) demo_now 500%N "token"
             (demo_registration "Acme" "secret1") demo_store
             "Acme" "secret1" "Ada" "Smith" "job-seeker" "ada@example.org"
             (demo_account "acme" "hash(acme-secret)" true));
    [done|reflexivity..|simpl; lia|reflexivity|reflexivity|by left| |reflexivity|reflexivity].
  right. by eexists acme_id, _.
Defined.

(** C6 as stated fails: acme's username is taken, yet a registration
    under it with a five-character password is answered 400, not 409. *)
Lemma register_taken_username_short_password :
  has_account demo_store (demo_account "acme" "hash(acme-secret)" true) ∧
  lower_string "Acme" = username (demo_account "acme" "hash(acme-secret)" true) ∧
  resp_status (auth_register_POST (RT := demoRuntime) demo_now 500%N "token"
                 (Some (demo_registration "Acme" "12345")) demo_store).1 = 400 ∧
  resp_status (auth_register_POST (RT := demoRuntime) demo_now 500%N "token"
                 (Some (demo_registration "Acme" "12345")) demo_store).1 ≠ 409.
Proof.
  split_and!; [|reflexivity|reflexivity|by vm_compute].
  right. by eexists acme_id, _.
Qed.

(** C4 at the single-job route: the job's deadline passed on 2020-01-01
    and its status is Active; on 2026-11-01 GET /api/jobs/[jobId]
    reports it Active and leaves it Active, while the employer's list
    reports it Closed. *)
Theorem single_job_GET_reports_expired_job_active :
  (∃ job, jobs demo_expired_store !! demo_job_id = Some job ∧
          job_status job = Active ∧ expired (RT := demoRuntime) demo_now job = true) ∧
  (jobs_id_GET (RT := demoRuntime) demo_job_param demo_expired_store).1 =
    json (JobJson {| jv_id := demo_job_id; jv_title := "Engineer";
                     jv_deadline := Some "2020-01-01"; jv_status := Active;
                     jv_employerId := acme_id |}) 200 ∧
  (jobs_id_GET (RT := demoRuntime) demo_job_param demo_expired_store).2 =
    demo_expired_store ∧
  (jobs_employer_GET (RT := demoRuntime) demo_now (Some "employer-e1")
     demo_expired_store).1 =
    json (JobsJson [{| jv_id := demo_job_id; jv_title := "Engineer";
                       jv_deadline := Some "2020-01-01"; jv_status := Closed;
                       jv_employerId := acme_id |}]) 200.
Proof.
  split_and!; [|reflexivity..].
  eexists. split_and!; reflexivity.
Qed.

(** C9 at a [null] rating: ann's application is rated 3; acme's PATCH
    with the body [{ "rating": null }] passes the guard
    [rating !== undefined && rating >= 0 && rating <= 5] and the stored
    rating, in the collection and in the mirror, becomes [null]. *)
Theorem patch_null_rating_stored :
  rating_accepted (RT := demoRuntime) JNull = true ∧
  app_rating <$> applications demo_store !! demo_application_id = Some (Some 3%Q) ∧
  (applications_PATCH (RT := demoRuntime) demo_application_param
     (patch_request "employer-e1" JUndefined JNull) demo_store).1 =
    json (ApplicationJson demo_application_id demo_job_id ann_id Pending None) 200 ∧
  app_rating <$>
    applications (applications_PATCH (RT := demoRuntime) demo_application_param
                    (patch_request "employer-e1" JUndefined JNull) demo_store).2
      !! demo_application_id = Some None ∧
  (λ s, aj_rating <$> appliedJobs s) <$>
    jobseekers (applications_PATCH (RT := demoRuntime) demo_application_param
                  (patch_request "employer-e1" JUndefined JNull) demo_store).2
      !! ann_id = Some [None] ∧
  ¬ rating_in_range None.
Proof.
  split_and!; [reflexivity..|]. by intros [].
Qed.

(** * Further properties *)

Section MoreProperties.
Context `{RT : Runtime}.

(** ** Sessions *)

Lemma role_checked role expected :
  negb (role =? expected) = false → role = expected.
Proof. intros H. by apply negb_false_iff, String.eqb_eq in H. Qed.

(** Each of five routes (apply, the application PATCH, the application
    DELETE, the job DELETE and the employer's job list) changes the
    store only for a request whose session cookie verifies and carries
    the role the route is for.  The other two routes of the repository
    that write jobs are not among them: the public list GET /api/jobs
    closes expired jobs for any caller, and POST /api/jobs creates a
    job. *)
Theorem writes_require_session (st : Store) :
  (∀ now newId req,
     (applications_POST now newId req st).2 ≠ st →
     ∃ token decoded, present (apply_cookie req) = Some token ∧
       verifyToken token = Some decoded ∧ tok_role decoded = "job-seeker") ∧
  (∀ applicationId req,
     (applications_PATCH applicationId req st).2 ≠ st →
     ∃ token decoded, present (patch_cookie req) = Some token ∧
       verifyToken token = Some decoded ∧ tok_role decoded = "employer") ∧
  (∀ applicationId cookie,
     (my_applications_DELETE applicationId cookie st).2 ≠ st →
     ∃ token decoded, present cookie = Some token ∧
       verifyToken token = Some decoded ∧ tok_role decoded = "job-seeker") ∧
  (∀ jobId cookie,
     (jobs_id_DELETE jobId cookie st).2 ≠ st →
     ∃ token decoded, present cookie = Some token ∧
       verifyToken token = Some decoded ∧ tok_role decoded = "employer") ∧
  (∀ now cookie,
     (jobs_employer_GET now cookie st).2 ≠ st →
     ∃ token decoded, present cookie = Some token ∧
       verifyToken token = Some decoded ∧ tok_role decoded = "employer").
Proof.
  split_and!.
  - intros now newId req. unfold applications_POST.
    destruct (present (apply_cookie req)) as [token|]; [|done].
    destruct (verifyToken token) as [decoded|] eqn:Htoken; [|done].
    destruct (negb (tok_role decoded =? "job-seeker")) eqn:Hrole; [done|].
    intros _. exists token, decoded. by apply role_checked in Hrole.
  - intros applicationId req. unfold applications_PATCH.
    destruct (present (patch_cookie req)) as [token|]; [|done].
    destruct (verifyToken token) as [decoded|] eqn:Htoken; [|done].
    destruct (negb (tok_role decoded =? "employer")) eqn:Hrole; [done|].
    intros _. exists token, decoded. by apply role_checked in Hrole.
  - intros applicationId cookie. unfold my_applications_DELETE.
    destruct (present cookie) as [token|]; [|done].
    destruct (verifyToken token) as [decoded|] eqn:Htoken; [|done].
    destruct (negb (tok_role decoded =? "job-seeker")) eqn:Hrole; [done|].
    intros _. exists token, decoded. by apply role_checked in Hrole.
  - intros jobId cookie. unfold jobs_id_DELETE.
    destruct (present cookie) as [token|]; [|done].
    destruct (verifyToken token) as [decoded|] eqn:Htoken; [|done].
    destruct (negb (tok_role decoded =? "employer")) eqn:Hrole; [done|].
    intros _. exists token, decoded. by apply role_checked in Hrole.
  - intros now cookie. unfold jobs_employer_GET.
    destruct (present cookie) as [token|]; [|done].
    destruct (verifyToken token) as [decoded|] eqn:Htoken; [|done].
    destruct (negb (tok_role decoded =? "employer")) eqn:Hrole; [done|].
    intros _. exists token, decoded. by apply role_checked in Hrole.
Qed.

(** ** Applying *)

Lemma expired_Active now job :
  job_status job = Active →
  expired now job =
    match present (job_deadline job) with
    | Some deadline => date_passed now deadline
    | None => false
    end.
Proof. intros Hs. unfold expired. by rewrite Hs. Qed.

(** The response and the store of an accepted apply request. *)
Lemma applications_POST_accepted
    (now : Z) (newId : ObjectId) (req : ApplyRequest) (st : Store)
    (jid sid : ObjectId) (job : Job) (seeker : JobSeeker) :
  apply_accepted now newId req st jid sid job seeker →
  applications_POST now newId req st =
    (json (ApplicationJson newId jid sid Pending (Some 0%Q)) 201,
     with_jobseekers
       (with_applications
          (with_jobs st (alter (inc_job_applicants 1) jid (jobs st)))
          (<[newId := created_application jid sid seeker]> (applications st)))
       (<[sid := set_appliedJobs (appliedJobs seeker ++ [pushed_entry jid newId job]) seeker]>
          (jobseekers st))).
Proof.
  intros (token & decoded & data & jobIdString & Hcookie & Htoken & Hrole & Hsid &
          Hbody & HjobId & Hne & Hvalid & Hlen & Hjid & Hjob & Hactive & Hopen &
          Hnone & Hseeker & Hfirst & Hlast & Hmirror & [cover Hcover] & [resume Hresume] &
          Hfresh).
  rewrite (expired_Active _ _ Hactive) in Hopen.
  unfold applications_POST, Application_create.
  rewrite Hcookie, Htoken, Hrole, Hbody, HjobId, Hsid. simpl.
  apply String.eqb_neq in Hne as ->. simpl.
  rewrite Hvalid, Hlen, Hjid, Hjob, Hactive. simpl.
  rewrite Hopen, Hnone, Hseeker. simpl.
  apply String.eqb_neq in Hfirst as ->. apply String.eqb_neq in Hlast as ->. simpl.
  rewrite Hmirror, Hcover, Hresume, Hfresh. done.
Qed.

(** The apply route answers 201 only to an accepted request. *)
Theorem apply_201_accepted
    (now : Z) (newId : ObjectId) (req : ApplyRequest) (st : Store) :
  resp_status (applications_POST now newId req st).1 = 201 ↔
  ∃ jid sid job seeker, apply_accepted now newId req st jid sid job seeker.
Proof.
  split.
  - unfold applications_POST, Application_create.
    repeat case_match; simplify_eq; simpl; try done.
    all: intros _.
    all: match goal with
         | Hjob : jobs _ !! ?jid = Some ?job, Hs : jobseekers _ !! ?sid = Some ?s |- _ =>
             exists jid, sid, job, s
         end.
    all: unfold apply_accepted.
    all: repeat match goal with
         | H : negb _ = false |- _ => apply negb_false_iff in H
         | H : _ || _ = false |- _ => apply orb_false_iff in H as [? ?]
         | H : (_ =? _)%string = false |- _ => apply String.eqb_neq in H
         | H : (_ =? _)%nat = true |- _ => apply Nat.eqb_eq in H
         | H : bool_decide _ = true |- _ => apply bool_decide_eq_true in H
         | H : (tok_role _ =? _) = true |- _ => apply String.eqb_eq in H
         end.
    all: eexists _, _, _, _; split_and!; try done.
    all: try (by rewrite expired_Active; [match goal with H : present _ = _ |- _ => rewrite H end|]).
    all: match goal with
         | H : truthy (JStr _) = true |- _ =>
             simpl in H; by apply negb_true_iff, String.eqb_neq in H
         end.
  - intros (jid & sid & job & seeker & Hacc).
    by rewrite (applications_POST_accepted _ _ _ _ _ _ _ _ Hacc).
Qed.

(** Applying to a job that is not Active is refused; applying to an
    Active job whose deadline has passed is refused as well, and the
    route closes the job. *)
Theorem apply_to_closed_or_expired_job
    (now : Z) (newId : ObjectId) (req : ApplyRequest) (st : Store)
    (token : string) (decoded : TokenPayload) (data : ApplyBody)
    (jobIdString : string) (sid jid : ObjectId) (job : Job) :
  present (apply_cookie req) = Some token →
  verifyToken token = Some decoded →
  tok_role decoded = "job-seeker" →
  ObjectId_new (tok_userId decoded) = Some sid →
  apply_body req = Some data →
  ab_jobId data = JStr jobIdString →
  jobIdString ≠ "" →
  ObjectId_isValid jobIdString = true →
  String.length jobIdString = 24%nat →
  ObjectId_new jobIdString = Some jid →
  jobs st !! jid = Some job →
  (job_status job ≠ Active →
   applications_POST now newId req st =
     (json (Message "This job is no longer accepting applications.") 400, st)) ∧
  (expired now job = true →
   applications_POST now newId req st =
     (json (Message "Application deadline has passed.") 400,
      with_jobs st (<[jid := set_job_status Closed job]> (jobs st)))).
Proof.
  intros Hcookie Htoken Hrole Hsid Hbody HjobId Hne Hvalid Hlen Hjid Hjob.
  unfold applications_POST.
  rewrite Hcookie, Htoken, Hrole, Hbody, HjobId, Hsid. simpl.
  apply String.eqb_neq in Hne as ->. simpl.
  rewrite Hvalid, Hlen, Hjid, Hjob. simpl. split.
  - intros Hstatus. by rewrite bool_decide_eq_false_2.
  - unfold expired. intros [Hactive Hpassed]%andb_true_iff.
    rewrite Hactive. simpl. rewrite Hpassed.
    do 3 f_equal. apply map_eq. intros k.
    destruct (decide (k = jid)) as [->|Hk].
    + by rewrite lookup_alter_eq, lookup_insert_eq, Hjob.
    + by rewrite lookup_alter_ne, lookup_insert_ne.
Qed.

(** ** Removing an application *)

(** A job seeker removes an application of their own: the mirror entry
    and the application go and the job counts one applicant less.  The
    application of another seeker is refused with 403. *)
Theorem remove_own_application_only
    (applicationId : string) (cookie : option string) (st : Store)
    (token : string) (decoded : TokenPayload) (aid sid : ObjectId) (a : Application) :
  present cookie = Some token →
  verifyToken token = Some decoded →
  tok_role decoded = "job-seeker" →
  applicationId ≠ "" →
  ObjectId_isValid applicationId = true →
  ObjectId_new applicationId = Some aid →
  ObjectId_new (tok_userId decoded) = Some sid →
  applications st !! aid = Some a →
  (app_jobSeekerId a = sid →
   my_applications_DELETE applicationId cookie st =
     (json (Message "Application removed successfully.") 200,
      with_jobseekers
        (with_applications
           (with_jobs st (alter (inc_job_applicants (-1)) (app_jobId a) (jobs st)))
           (delete aid (applications st)))
        (match jobseekers st !! sid with
         | Some seeker =>
             <[sid := set_appliedJobs
                        (List.filter (keep_appliedJob aid (app_jobId a))
                                     (appliedJobs seeker)) seeker]> (jobseekers st)
         | None => jobseekers st
         end))) ∧
  (app_jobSeekerId a ≠ sid →
   my_applications_DELETE applicationId cookie st =
     (json (Message "Access denied. You can only remove your own applications.") 403, st)).
Proof.
  intros Hcookie Htoken Hrole Hne Hvalid Haid Hsid Ha.
  unfold my_applications_DELETE.
  rewrite Hcookie, Htoken, Hrole. simpl.
  apply String.eqb_neq in Hne as ->. rewrite Hvalid, Haid, Hsid, Ha. simpl. split.
  - intros ->. rewrite N.eqb_refl. simpl. by destruct (jobseekers st !! _).
  - intros Hother. apply N.eqb_neq in Hother as ->. done.
Qed.

Lemma inc_job_applicants_inverse job :
  inc_job_applicants (-1) (inc_job_applicants 1 job) = job.
Proof. destruct job. unfold inc_job_applicants. simpl. f_equal. lia. Qed.

Lemma List_filter_all {A} (p : A → bool) (l : list A) :
  (∀ x, x ∈ l → p x = true) → List.filter p l = l.
Proof.
  induction l as [|x l IH]; simpl; [done|]. intros Hall.
  rewrite (Hall x) by by left. f_equal. apply IH. intros y Hy. apply Hall. by right.
Qed.

(** Applying and then removing the application leaves the store as it
    was before: the application, the mirror entry and the applicant
    count are all undone. *)
Theorem apply_then_remove_restores
    (now : Z) (newId : ObjectId) (req : ApplyRequest) (st : Store)
    (jid sid : ObjectId) (job : Job) (seeker : JobSeeker) (applicationId : string) :
  consistent st →
  apply_accepted now newId req st jid sid job seeker →
  applicationId ≠ "" →
  ObjectId_isValid applicationId = true →
  ObjectId_new applicationId = Some newId →
  my_applications_DELETE applicationId (apply_cookie req)
    (applications_POST now newId req st).2 =
    (json (Message "Application removed successfully.") 200, st).
Proof.
  intros (_ & HB & _) Hacc Hne Hvalid Hid.
  rewrite (applications_POST_accepted _ _ _ _ _ _ _ _ Hacc).
  destruct Hacc as (token & decoded & data & jobIdString & Hcookie & Htoken & Hrole &
                    Hsid & _ & _ & _ & _ & _ & _ & Hjob & _ & _ & _ & Hseeker & _ & _ &
                    _ & _ & _ & Hfresh).
  unfold my_applications_DELETE.
  rewrite Hcookie, Htoken, Hrole. simpl.
  apply String.eqb_neq in Hne as ->. rewrite Hvalid, Hid, Hsid. simpl.
  rewrite !lookup_insert_eq. simpl. rewrite N.eqb_refl. simpl.
  f_equal. destruct st as [js apps seekers emps]. simpl in *.
  unfold with_jobseekers, with_applications, with_jobs. simpl. f_equal.
  - apply map_eq. intros k. destruct (decide (k = jid)) as [->|Hk].
    + rewrite !lookup_alter_eq, Hjob. simpl. by rewrite inc_job_applicants_inverse.
    + by rewrite !lookup_alter_ne.
  - apply map_eq. intros k. destruct (decide (k = newId)) as [->|Hk].
    + by rewrite lookup_delete_eq.
    + by rewrite lookup_delete_ne, lookup_insert_ne.
  - rewrite insert_insert_eq. apply insert_id. rewrite Hseeker. f_equal.
    destruct seeker as [account applied]. unfold set_appliedJobs. simpl. f_equal.
    rewrite List.filter_app. simpl. unfold keep_appliedJob at 2. simpl.
    rewrite N.eqb_refl, app_nil_r. symmetry. apply List_filter_all.
    intros e He. destruct (HB sid _ e Hseeker He) as (id & a & Ha & _ & Hm).
    rewrite (keep_appliedJob_listed _ _ _ id) by by eapply mirrors_applicationId.
    apply negb_true_iff, N.eqb_neq. congruence.
Qed.

(** ** Deleting a job: what is left alone *)

(** An employer deletes only their own job, and the deletion touches
    nothing else: the other jobs, the applications for other jobs and
    the employers stay; every seeker keeps their account and their
    entries for other jobs, and a seeker without an application for
    the job keeps the whole document. *)
Theorem job_delete_frame
    (jobId : string) (cookie : option string) (st : Store)
    (token : string) (decoded : TokenPayload) (jid eid : ObjectId) (job : Job) :
  present cookie = Some token →
  verifyToken token = Some decoded →
  tok_role decoded = "employer" →
  ObjectId_new jobId = Some jid →
  ObjectId_new (tok_userId decoded) = Some eid →
  jobs st !! jid = Some job →
  (job_employerId job ≠ eid →
   jobs_id_DELETE jobId cookie st =
     (json (Message "Access denied. You can only delete your own jobs.") 403, st)) ∧
  (job_employerId job = eid →
   employers (jobs_id_DELETE jobId cookie st).2 = employers st ∧
   (∀ j, j ≠ jid → jobs (jobs_id_DELETE jobId cookie st).2 !! j = jobs st !! j) ∧
   (∀ id a, applications st !! id = Some a → app_jobId a ≠ jid →
            applications (jobs_id_DELETE jobId cookie st).2 !! id = Some a) ∧
   (∀ sid s, jobseekers st !! sid = Some s →
      ∃ s', jobseekers (jobs_id_DELETE jobId cookie st).2 !! sid = Some s' ∧
            js_account s' = js_account s ∧
            (∀ e j, e ∈ appliedJobs s → aj_jobId e = Some j → j ≠ jid →
                    e ∈ appliedJobs s') ∧
            ((∀ id a, applications st !! id = Some a → app_jobSeekerId a = sid →
                      app_jobId a ≠ jid) → s' = s))).
Proof.
  intros Hcookie Htoken Hrole Hjid Heid Hjob.
  unfold jobs_id_DELETE.
  rewrite Hcookie, Htoken, Hrole, Hjid, Heid, Hjob. simpl. split.
  - intros Hother. by apply N.eqb_neq in Hother as ->.
  - intros ->. rewrite N.eqb_refl. simpl. split_and!.
    + done.
    + intros j Hj. by rewrite lookup_delete_ne.
    + intros id a Ha Hother. unfold deleteMany.
      apply map_lookup_filter_Some. split; [done|]. simpl. by apply N.eqb_neq.
    + intros sid s Hs. rewrite cleanup_loop_lookup, Hs. case_decide as Hin.
      * exists (without_job jid s). split_and!; [done|done| |].
        -- intros e j He Hj Hne. simpl. apply elem_of_List_filter. split; [done|].
           apply keep_other_job_true. by exists j.
        -- intros Hnone. exfalso. rewrite elem_of_distinct in Hin.
           apply list_elem_of_fmap in Hin as ([id a] & -> & Hfound).
           apply elem_of_find_all in Hfound as [Ha Hj]. apply N.eqb_eq in Hj.
           by eapply Hnone.
      * by exists s.
Qed.

(** ** The employer's job list *)

Lemma set_job_status_idemp status job :
  set_job_status status (set_job_status status job) = set_job_status status job.
Proof. done. Qed.

Lemma close_expired_lookup now (found : list (ObjectId * Job)) (m : gmap ObjectId Job) j :
  foldl (λ m kv, if expired now kv.2 then alter (set_job_status Closed) kv.1 m else m)
        m found !! j =
  if existsb (λ kv, (kv.1 =? j)%N && expired now kv.2) found
  then set_job_status Closed <$> m !! j else m !! j.
Proof.
  revert m. induction found as [|[k job] found IH]; intros m; [done|].
  cbn [foldl existsb fst snd]. rewrite IH.
  destruct (expired now job) eqn:Hexp.
  - destruct (N.eqb_spec k j) as [->|Hk]; simpl.
    + rewrite lookup_alter_eq.
      destruct (existsb _ found); destruct (m !! j); done.
    + by rewrite lookup_alter_ne.
  - by rewrite andb_false_r.
Qed.

(** The employer's list holds exactly the employer's own jobs, each
    with its stored status except that an Active job past its deadline
    is shown as Closed; the call closes those jobs in the store and
    changes no other job. *)
Theorem employer_list_own_jobs
    (now : Z) (cookie : option string) (st : Store)
    (token : string) (decoded : TokenPayload) (eid : ObjectId) :
  present cookie = Some token →
  verifyToken token = Some decoded →
  tok_role decoded = "employer" →
  ObjectId_new (tok_userId decoded) = Some eid →
  ∃ views,
    (jobs_employer_GET now cookie st).1 = json (JobsJson views) 200 ∧
    (∀ v, v ∈ views ↔
          ∃ jid job, jobs st !! jid = Some job ∧ job_employerId job = eid ∧
                     v = format_job jid (if expired now job then Closed
                                         else job_status job) job) ∧
    (∀ jid, jobs (jobs_employer_GET now cookie st).2 !! jid =
            (λ job, if (job_employerId job =? eid)%N && expired now job
                    then set_job_status Closed job else job) <$> jobs st !! jid) ∧
    applications (jobs_employer_GET now cookie st).2 = applications st ∧
    jobseekers (jobs_employer_GET now cookie st).2 = jobseekers st ∧
    employers (jobs_employer_GET now cookie st).2 = employers st.
Proof.
  intros Hcookie Htoken Hrole Heid.
  unfold jobs_employer_GET. rewrite Hcookie, Htoken, Hrole, Heid. simpl.
  eexists. split_and!; [done| | |done..].
  - intros v. rewrite list_elem_of_fmap. split.
    + intros ([jid job] & -> & Hfound). apply elem_of_find_all in Hfound as [Hjob Ho].
      apply N.eqb_eq in Ho. by exists jid, job.
    + intros (jid & job & Hjob & Ho & ->). exists (jid, job). split; [done|].
      apply elem_of_find_all. split; [done|]. by apply N.eqb_eq.
  - intros jid. rewrite close_expired_lookup.
    destruct (jobs st !! jid) as [job|] eqn:Hjob; simpl.
    + destruct ((job_employerId job =? eid)%N && expired now job) eqn:Hclose.
      * apply andb_true_iff in Hclose as [Ho Hexp].
        assert (existsb (λ kv, (kv.1 =? jid)%N && expired now kv.2)
                  (find_all (λ j, (job_employerId j =? eid)%N) (jobs st)) = true) as ->; [|done].
        apply existsb_exists. exists (jid, job). split.
        -- apply list_elem_of_In, elem_of_find_all. done.
        -- simpl. by rewrite N.eqb_refl.
      * assert (existsb (λ kv, (kv.1 =? jid)%N && expired now kv.2)
                  (find_all (λ j, (job_employerId j =? eid)%N) (jobs st)) = false) as ->; [|done].
        apply not_true_iff_false. intros ([k job'] & Hin & Hk)%existsb_exists.
        apply list_elem_of_In, elem_of_find_all in Hin as [Hjob' Ho].
        simpl in Hk. apply andb_true_iff in Hk as [->%N.eqb_eq Hexp].
        simplify_eq. by rewrite Ho, Hexp in Hclose.
    + by destruct (existsb _ _).
Qed.

(** ** Accounts *)

Lemma findOne_None_iff {A} (query : A → bool) (m : gmap ObjectId A) :
  findOne query m = None ↔ ∀ k a, m !! k = Some a → query a = false.
Proof.
  split; [intros Hnone k a; by apply findOne_None|].
  intros Hall. destruct (findOne query m) as [[k a]|] eqn:Hfind; [|done].
  apply findOne_Some in Hfind as [Hk Hq]. by rewrite (Hall k a Hk) in Hq.
Qed.

Lemma findOne_unique {A} (query : A → bool) (m : gmap ObjectId A) k a :
  m !! k = Some a → query a = true →
  (∀ k' a', m !! k' = Some a' → query a' = true → k' = k) →
  findOne query m = Some (k, a).
Proof.
  intros Hk Hq Huniq. destruct (findOne_is_Some _ _ _ _ Hk Hq) as [[k' a'] Hfind].
  pose proof (findOne_Some _ _ _ _ Hfind) as [Hk' Hq'].
  pose proof (Huniq k' a' Hk' Hq') as ->. congruence.
Qed.

Lemma JobSeeker_findOne_None_iff query st :
  JobSeeker_findOne query st = None ↔
  ∀ id a, account_at st true id a → query a = false.
Proof.
  unfold JobSeeker_findOne. rewrite fmap_None, findOne_None_iff. simpl. split.
  - intros Hall id a (s & Hs & <-). by eapply Hall.
  - intros Hall id s Hs. apply (Hall id). by exists s.
Qed.


Lemma JobSeeker_findOne_at query st user :
  JobSeeker_findOne query st = Some user →
  user_role user = "job-seeker" ∧
  account_at st true (user_id user) (user_account user) ∧
  query (user_account user) = true.
Proof.
  unfold JobSeeker_findOne. intros Hsome.
  destruct (findOne _ (jobseekers st)) as [[id s]|] eqn:Hfind; simplify_eq/=.
  apply findOne_Some in Hfind as [Hs Hq]. split_and!; [done| |done]. by exists s.
Qed.

Lemma Employer_findOne_at query st user :
  Employer_findOne query st = Some user →
  user_role user = "employer" ∧
  account_at st false (user_id user) (user_account user) ∧
  query (user_account user) = true.
Proof.
  unfold Employer_findOne. intros Hsome.
  destruct (findOne _ (employers st)) as [[id e]|] eqn:Hfind; simplify_eq/=.
  apply findOne_Some in Hfind as [He Hq]. split_and!; [done| |done]. by exists e.
Qed.

Lemma JobSeeker_findOne_unique query st id s :
  jobseekers st !! id = Some s → query (js_account s) = true →
  (∀ id' a, account_at st true id' a → query a = true → id' = id) →
  JobSeeker_findOne query st =
    Some {| user_id := id; user_role := "job-seeker"; user_account := js_account s |}.
Proof.
  intros Hs Hq Huniq. unfold JobSeeker_findOne.
  rewrite (findOne_unique _ _ id s); [done..|].
  intros id' s' Hs' Hq'. apply (Huniq id' (js_account s')); [by exists s'|done].
Qed.

Lemma Employer_findOne_unique query st id e :
  employers st !! id = Some e → query (emp_account e) = true →
  (∀ id' a, account_at st false id' a → query a = true → id' = id) →
  Employer_findOne query st =
    Some {| user_id := id; user_role := "employer"; user_account := emp_account e |}.
Proof.
  intros He Hq Huniq. unfold Employer_findOne.
  rewrite (findOne_unique _ _ id e); [done..|].
  intros id' e' He' Hq'. apply (Huniq id' (emp_account e')); [by exists e'|done].
Qed.

(** The accounts of the store after a registration. *)
Lemma account_at_with_registered role newId account st k id a :
  role = "job-seeker" ∨ role = "employer" →
  account_at (with_registered role newId account st) k id a →
  (k = bool_decide (role = "job-seeker") ∧ id = newId ∧ a = account) ∨
  account_at st k id a.
Proof.
  unfold with_registered, account_at.
  intros [-> | ->]; simpl; destruct k; simpl; auto.
  - intros (s & [[<- <-]|[_ Hs]]%lookup_insert_Some & <-); [by left|].
    right. by exists s.
  - intros (e & [[<- <-]|[_ He]]%lookup_insert_Some & <-); [by left|].
    right. by exists e.
Qed.

(** A registration with valid fields, a username and an email address
    that no user has, and a free [_id] is answered 201; it stores the
    user, not yet verified, in the collection of the chosen role. *)
Lemma auth_register_POST_registered
    (now : Z) (newId : ObjectId) (secureToken : string)
    (data : RegisterBody) (st : Store) (uname pwd first last role mail : string) :
  valid_registration data uname pwd first last role mail →
  (∀ k id a, account_at st k id a →
             username a ≠ toLowerCase uname ∧ email a ≠ trim (toLowerCase mail)) →
  (∀ a, ¬ account_at st (bool_decide (role = "job-seeker")) newId a) →
  auth_register_POST now newId secureToken (Some data) st =
    (json (UserJson "Registration successful! Please check your email to verify your account."
                    newId (toLowerCase uname) role) 201,
     with_registered role newId
       (registered_account now secureToken uname pwd first last mail) st).
Proof.
  intros (Huser & Hpwd & Hfirst & Hlast & Hrole & Hlen & Hmail & Hat & Hvalid & _)
         Hnew Hfresh.
  unfold auth_register_POST.
  rewrite Huser, Hpwd, Hfirst, Hlast, Hrole, Hmail, Hat. simpl.
  destruct (Nat.ltb_spec (String.length pwd) 6); [lia|].
  assert (negb (role =? "job-seeker") && negb (role =? "employer") = false) as ->.
  { by destruct Hvalid as [-> | ->]. }
  assert (∀ k id a, account_at st k id a →
            username_or_email (toLowerCase uname) (trim (toLowerCase mail)) a = false)
    as Hquery.
  { intros k id a Ha. destruct (Hnew k id a Ha) as [Hu He].
    unfold username_or_email. apply String.eqb_neq in Hu as ->.
    by apply String.eqb_neq in He as ->. }
  assert (findOne (λ s, username_or_email (toLowerCase uname) (trim (toLowerCase mail))
                          (js_account s)) (jobseekers st) = None) as ->.
  { apply findOne_None_iff. intros id s Hs. apply (Hquery true id). by exists s. }
  assert (findOne (λ e, username_or_email (toLowerCase uname) (trim (toLowerCase mail))
                          (emp_account e)) (employers st) = None) as ->.
  { apply findOne_None_iff. intros id e He. apply (Hquery false id). by exists e. }
  simpl. unfold User_create, with_registered.
  destruct Hvalid as [-> | ->]; simpl.
  - destruct (jobseekers st !! newId) as [s|] eqn:Hs.
    { destruct (Hfresh (js_account s)). by exists s. }
    rewrite (proj2 (findOne_None_iff _ _)); [done|].
    intros id s Hs'. apply String.eqb_neq. simpl.
    apply (Hnew true id). by exists s.
  - destruct (employers st !! newId) as [e|] eqn:He.
    { destruct (Hfresh (emp_account e)). by exists e. }
    rewrite (proj2 (findOne_None_iff _ _)); [done|].
    intros id e He'. apply String.eqb_neq. simpl.
    apply (Hnew false id). by exists e.
Qed.




(** After a successful registration the user can log in with the same
    password and the username in any letter case, with the role they
    registered for or with none; the response sets the session cookie
    for the new [_id]. *)
Theorem register_then_login
    (now : Z) (newId : ObjectId) (secureToken : string)
    (data : RegisterBody) (st : Store) (uname pwd first last role mail : string)
    (login : LoginBody) (uname2 : string) :
  valid_registration data uname pwd first last role mail →
  (∀ k id a, account_at st k id a →
             username a ≠ toLowerCase uname ∧ email a ≠ trim (toLowerCase mail)) →
  (∀ a, ¬ account_at st (bool_decide (role = "job-seeker")) newId a) →
  verifyPassword pwd (hashPassword pwd) = true →
  present (lb_username login) = Some uname2 →
  toLowerCase uname2 = toLowerCase uname →
  present (lb_password login) = Some pwd →
  lb_role login = None ∨ lb_role login = Some role →
  auth_login_POST (Some login)
    (auth_register_POST now newId secureToken (Some data) st).2 =
    ({| resp_status := 200;
        resp_cookie :=
          Some (createToken {| tok_userId := ObjectId_toString newId;
                               tok_role := role;
                               tok_username := toLowerCase uname |});
        resp_body := UserJson "Login successful!" newId (toLowerCase uname) role |},
     (auth_register_POST now newId secureToken (Some data) st).2).
Proof.
  intros Hvalid Hnew Hfresh Hbcrypt Huser Hsame Hpwd Hrole.
  rewrite (auth_register_POST_registered _ _ _ _ _ _ _ _ _ _ _ Hvalid Hnew Hfresh).
  simpl. unfold auth_login_POST. rewrite Huser, Hpwd, Hsame. simpl.
  set (account := registered_account now secureToken uname pwd first last mail).
  set (st' := with_registered role newId account st).
  assert (role = "job-seeker" ∨ role = "employer") as Hkind by apply Hvalid.
  assert (∀ k id a, account_at st' k id a →
            (username a =? toLowerCase uname) = true →
            k = bool_decide (role = "job-seeker") ∧ id = newId) as Honly.
  { intros k id a Ha Hname. apply String.eqb_eq in Hname.
    destruct (account_at_with_registered _ _ _ _ _ _ _ Hkind Ha)
      as [(-> & -> & _)|Hold]; [done|].
    by destruct (Hnew k id a Hold). }
  assert (login_find_user (lb_role login) (toLowerCase uname) st' =
          Some {| user_id := newId; user_role := role; user_account := account |})
    as ->.
  { unfold login_find_user. destruct Hkind as [-> | ->].
    - assert (JobSeeker_findOne (λ a, username a =? toLowerCase uname) st' =
              Some {| user_id := newId; user_role := "job-seeker";
                      user_account := account |}) as Hjs.
      { apply (JobSeeker_findOne_unique _ st' newId
                 {| js_account := account; appliedJobs := [] |}).
        - unfold st', with_registered. simpl. apply lookup_insert_eq.
        - simpl. apply String.eqb_refl.
        - intros id' a Ha Hq. by destruct (Honly true id' a Ha Hq). }
      destruct Hrole as [-> | ->]; simpl; by rewrite Hjs.
    - assert (JobSeeker_findOne (λ a, username a =? toLowerCase uname) st' = None)
        as Hjs.
      { apply JobSeeker_findOne_None_iff. intros id a Ha.
        apply not_true_iff_false. intros Hq. by destruct (Honly true id a Ha Hq). }
      assert (Employer_findOne (λ a, username a =? toLowerCase uname) st' =
              Some {| user_id := newId; user_role := "employer";
                      user_account := account |}) as Hemp.
      { apply (Employer_findOne_unique _ st' newId
                 {| emp_account := account; emp_name := "" |}).
        - unfold st', with_registered. simpl. apply lookup_insert_eq.
        - simpl. apply String.eqb_refl.
        - intros id' a Ha Hq. by destruct (Honly false id' a Ha Hq). }
      destruct Hrole as [-> | ->]; simpl; by rewrite ?Hjs, Hemp. }
  simpl. by rewrite Hbcrypt.
Qed.

(** ** The accounts under the application routes *)

Lemma same_accounts_refl st : same_accounts st st.
Proof. by intros k id a. Qed.

Lemma same_accounts_trans st1 st2 st3 :
  same_accounts st1 st2 → same_accounts st2 st3 → same_accounts st1 st3.
Proof. intros H12 H23 k id a. etrans; [apply H23|apply H12]. Qed.

Lemma same_accounts_intro st st' :
  (∀ id, js_account <$> jobseekers st' !! id = js_account <$> jobseekers st !! id) →
  employers st' = employers st →
  same_accounts st st'.
Proof.
  intros Hjs Hemp k id a. unfold account_at. destruct k.
  - specialize (Hjs id).
    destruct (jobseekers st' !! id) as [s'|], (jobseekers st !! id) as [s|];
      simplify_eq/=; [|split; by intros (? & ? & ?)].
    split; intros (? & [= <-] & <-); eexists; split; by eauto.
  - by rewrite Hemp.
Qed.

Lemma applications_POST_employers now newId req st :
  employers (applications_POST now newId req st).2 = employers st.
Proof. unfold applications_POST, Application_create. by repeat case_match. Qed.

Lemma my_applications_DELETE_employers applicationId cookie st :
  employers (my_applications_DELETE applicationId cookie st).2 = employers st.
Proof. unfold my_applications_DELETE. by repeat case_match. Qed.

Lemma jobs_id_DELETE_employers jobId cookie st :
  employers (jobs_id_DELETE jobId cookie st).2 = employers st.
Proof. unfold jobs_id_DELETE. by repeat case_match. Qed.

Lemma application_step_same_accounts st st' :
  application_step st st' → same_accounts st st'.
Proof.
  intros Hstep. destruct Hstep.
  - apply same_accounts_intro; [|apply applications_POST_employers].
    intros id.
    destruct (applications_POST_cases now newId req st)
      as [(_ & _ & ->)|(jid & sid & job & s & a & _ & _ & _ & _ & Hs & _ & _ & _ & _ & _ & _ & ->)];
      [done|].
    destruct (decide (sid = id)) as [->|Hne].
    + by rewrite lookup_insert_eq, Hs.
    + by rewrite lookup_insert_ne.
  - destruct (applications_PATCH_cases applicationId req st)
      as [->|(aid & a & u & _ & _ & ->)]; [apply same_accounts_refl|].
    apply same_accounts_intro; [|done]. intros id. simpl.
    unfold JobSeeker_updateOne_appliedJob.
    destruct (decide (app_jobSeekerId a = id)) as [->|Hne].
    + rewrite lookup_alter_eq. by destruct (jobseekers st !! id).
    + by rewrite lookup_alter_ne.
  - apply same_accounts_intro; [|apply my_applications_DELETE_employers].
    intros id.
    destruct (my_applications_DELETE_cases applicationId cookie st)
      as [->|(aid & a & _ & _ & _ & ->)]; [done|].
    destruct (jobseekers st !! app_jobSeekerId a) as [s|] eqn:Hs; [|done].
    destruct (decide (app_jobSeekerId a = id)) as [<-|Hne].
    + by rewrite lookup_insert_eq, Hs.
    + by rewrite lookup_insert_ne.
  - rewrite jobs_id_GET_store. apply same_accounts_refl.
  - apply same_accounts_intro; [|apply jobs_id_DELETE_employers].
    intros id.
    destruct (jobs_id_DELETE_cases jobId cookie st) as [->|(jid & _ & ->)]; [done|].
    rewrite cleanup_loop_lookup. case_decide; [|done].
    by destruct (jobseekers st !! id).
  - apply same_accounts_intro.
    + intros id. unfold jobs_employer_GET. by repeat case_match.
    + unfold jobs_employer_GET. by repeat case_match.
Qed.

(** The routes that work on jobs and applications never touch an
    account: after any sequence of their requests every user still has
    the same username, password hash, email address, verification state
    and tokens, and no user was added or removed. *)
Theorem application_routes_keep_accounts (st st' : Store) :
  rtc application_step st st' → same_accounts st st'.
Proof.
  intros Hsteps. induction Hsteps as [st|st st1 st2 Hstep _ IH].
  - apply same_accounts_refl.
  - eapply same_accounts_trans; [|exact IH]. by apply application_step_same_accounts.
Qed.

(** ** The account routes *)

Lemma auth_register_POST_cases now newId secureToken body st :
  (auth_register_POST now newId secureToken body st).2 = st ∨
  ∃ uname pwd first last role mail,
    (role = "job-seeker" ∨ role = "employer") ∧
    (∀ k id a, account_at st k id a →
               username a ≠ toLowerCase uname ∧ email a ≠ trim (toLowerCase mail)) ∧
    (∀ a, ¬ account_at st (bool_decide (role = "job-seeker")) newId a) ∧
    (auth_register_POST now newId secureToken body st).2 =
      with_registered role newId
        (registered_account now secureToken uname pwd first last mail) st.
Proof.
  unfold auth_register_POST, User_create.
  repeat case_match; simplify_eq; try (by left).
  all: right.
  all: match goal with
       | Hu : present (rb_username _) = Some ?u, Hp : present (rb_password _) = Some ?p,
         Hf : present (rb_firstName _) = Some ?f, Hl : present (rb_lastName _) = Some ?l,
         Hr : present (rb_role _) = Some ?r, Hm : present (rb_email _) = Some ?m |- _ =>
           exists u, p, f, l, r, m
       end.
  all: match goal with
       | H : bool_decide _ || bool_decide _ = false |- _ =>
           apply orb_false_elim in H as [Hjs%bool_decide_eq_false%eq_None_not_Some
                                         Hemp%bool_decide_eq_false%eq_None_not_Some]
       end.
  all: assert (∀ k id a, account_at st k id a →
                 username a ≠ toLowerCase s ∧ email a ≠ trim (toLowerCase s4)) as Hnew
         by (intros k id a Ha;
             assert (username_or_email (toLowerCase s) (trim (toLowerCase s4)) a = false)
               as [Hu He]%orb_false_elim
               by (destruct k; destruct Ha as (doc & Hdoc & <-);
                   [apply (findOne_None _ _ _ _ Hjs Hdoc)
                   |apply (findOne_None _ _ _ _ Hemp Hdoc)]);
             by apply String.eqb_neq in Hu, He).
  - apply String.eqb_eq in H10 as ->. split_and!; [by left|done| |done].
    intros a (doc & Hdoc & _). simpl in Hdoc. congruence.
  - simpl in H8. destruct (String.eqb_spec s3 "employer") as [->|]; [|done].
    split_and!; [by right|done| |done].
    intros a (doc & Hdoc & _). simpl in Hdoc. congruence.
Qed.

Lemma lookup_alter_account {A} (g : A → A) (acc : A → Account) (f : Account → Account)
    (m : gmap ObjectId A) (uid id : ObjectId) (a' : Account) :
  (∀ x, acc (g x) = f (acc x)) →
  (∃ x, alter g uid m !! id = Some x ∧ acc x = a') ↔
  ∃ a, (∃ x, m !! id = Some x ∧ acc x = a) ∧ a' = if decide (id = uid) then f a else a.
Proof.
  intros Hg. destruct (decide (id = uid)) as [->|Hne].
  - rewrite lookup_alter_eq. destruct (m !! uid) as [x|]; simpl.
    + split.
      * intros (? & [= <-] & <-). exists (acc x). split; [by exists x|by rewrite Hg].
      * intros (a & (? & [= <-] & <-) & ->). exists (g x). by rewrite Hg.
    + split; [by intros (? & ? & ?)|by intros (? & (? & ? & ?) & ?)].
  - rewrite lookup_alter_ne by done. split.
    + intros (x & Hx & <-). exists (acc x). split; [by exists x|done].
    + intros (a & (x & Hx & <-) & ->). by exists x.
Qed.

Lemma account_at_save_account user f st k id a' :
  (user_role user = "job-seeker" ∨ user_role user = "employer") →
  account_at (save_account user f st) k id a' ↔
  ∃ a, account_at st k id a ∧
       a' = if bool_decide (k = bool_decide (user_role user = "job-seeker") ∧
                            id = user_id user)
            then f a else a.
Proof.
  intros Hrole.
  assert ((user_role user =? "job-seeker") = bool_decide (user_role user = "job-seeker"))
    as Hb by (by destruct Hrole as [-> | ->]).
  unfold save_account, account_at. rewrite Hb. clear Hb Hrole.
  destruct (bool_decide (user_role user = "job-seeker")); destruct k;
    case_bool_decide as Hc;
    cbn [jobseekers employers with_jobseekers with_employers].
  - destruct Hc as [_ ->].
    rewrite (lookup_alter_account _ js_account f) by done.
    by case_decide.
  - rewrite (lookup_alter_account _ js_account f) by done.
    case_decide as Hid; [|done]. by destruct Hc.
  - by destruct Hc.
  - split.
    + intros (e & He & <-). exists (emp_account e). split; [by exists e|done].
    + intros (a & (e & He & <-) & ->). by exists e.
  - by destruct Hc.
  - split.
    + intros (s & Hs & <-). exists (js_account s). split; [by exists s|done].
    + intros (a & (s & Hs & <-) & ->). by exists s.
  - destruct Hc as [_ ->].
    rewrite (lookup_alter_account _ emp_account f) by done.
    by case_decide.
  - rewrite (lookup_alter_account _ emp_account f) by done.
    case_decide as Hid; [|done]. by destruct Hc.
Qed.

Lemma find_either_stored query st user :
  match JobSeeker_findOne query st with
  | Some u => Some u
  | None => Employer_findOne query st
  end = Some user →
  stored_user st user ∧ query (user_account user) = true.
Proof.
  unfold stored_user.
  destruct (JobSeeker_findOne query st) as [u|] eqn:Hjs.
  - intros [= ->]. apply JobSeeker_findOne_at in Hjs as (Hrole & Hat & Hq).
    rewrite Hrole. split_and!; [by left|done|done].
  - intros Hemp. apply Employer_findOne_at in Hemp as (Hrole & Hat & Hq).
    rewrite Hrole. split_and!; [by right|done|done].
Qed.

Lemma auth_verify_email_GET_cases now token st :
  (auth_verify_email_GET now token st).2 = st ∨
  ∃ user, stored_user st user ∧
          (auth_verify_email_GET now token st).2 = save_account user verified_account st.
Proof.
  unfold auth_verify_email_GET.
  destruct (present token) as [t|]; [|by left]. simpl.
  destruct (verify_find_user t st) as [user|] eqn:Hfind; [|by left].
  apply find_either_stored in Hfind as [Hstored _].
  destruct (isTokenExpired now _); [by left|].
  destruct (isEmailVerified (user_account user)); [by left|].
  right. by exists user.
Qed.

Lemma auth_forgot_password_POST_cases randomBytes emailSent body st :
  (auth_forgot_password_POST randomBytes emailSent body st).2 = st ∨
  ∃ user name,
    body = Some (JStr name) ∧ emailSent = true ∧
    stored_user st user ∧
    username (user_account user) = trim (toLowerCase name) ∧
    email (user_account user) ≠ "" ∧
    (auth_forgot_password_POST randomBytes emailSent body st).2 =
      save_account user
        (reset_account (hashPassword (generateTemporaryPassword randomBytes))) st.
Proof.
  unfold auth_forgot_password_POST.
  destruct body as [[| | | |name|]|]; try (by left). simpl.
  destruct (name =? ""); [by left|].
  match goal with
  | |- context [match ?found with Some _ => _ | None => (_, st) end] =>
      destruct found as [user|] eqn:Hfind; [|by left]
  end.
  apply find_either_stored in Hfind as [Hstored Hname%String.eqb_eq].
  destruct (String.eqb_spec (email (user_account user)) "") as [|Hmail]; [by left|].
  destruct emailSent; [|by left].
  right. by exists user, name.
Qed.

Lemma auth_reset_password_POST_cases now body st :
  (auth_reset_password_POST now body st).2 = st ∨
  ∃ user token newPassword,
    token ≠ "" ∧
    stored_user st user ∧
    passwordResetToken (user_account user) = token ∧
    resp_status (auth_reset_password_POST now body st).1 = 200 ∧
    (auth_reset_password_POST now body st).2 =
      save_account user (reset_account (hashPassword newPassword)) st.
Proof.
  unfold auth_reset_password_POST.
  destruct body as [data|]; [|by left]. simpl.
  destruct (rs_token data) as [token|] eqn:Htoken; [|by left]. simpl.
  destruct (String.eqb_spec token "") as [|Hne]; [by left|].
  destruct (present (rs_newPassword data)) as [newPassword|]; [|by left]. simpl.
  destruct (String.length newPassword <? 6)%nat; [by left|].
  destruct (reset_find_user token st) as [user|] eqn:Hfind; [|by left].
  apply find_either_stored in Hfind as [Hstored Htok%String.eqb_eq].
  destruct (isTokenExpired now _); [by left|].
  destruct (isEmailVerified (user_account user)); [|by left].
  right. by exists user, token, newPassword.
Qed.

Lemma no_reset_tokens_save_account user f st :
  (user_role user = "job-seeker" ∨ user_role user = "employer") →
  (∀ a, passwordResetToken a = "" → passwordResetToken (f a) = "") →
  no_reset_tokens st → no_reset_tokens (save_account user f st).
Proof.
  intros Hrole Hf Hst k id a' (a & Ha & ->)%account_at_save_account; [|done].
  case_bool_decide; [apply Hf|]; by eapply Hst.
Qed.

Lemma settings_find_user_stored role userId st user :
  settings_find_user role userId st = Some user →
  stored_user st user ∧ user_id user = userId ∧
  user_role user = (if role =? "job-seeker" then "job-seeker" else "employer").
Proof.
  unfold settings_find_user, stored_user, account_at.
  destruct (role =? "job-seeker").
  - destruct (jobseekers st !! userId) as [s|] eqn:Hs; intros [= <-]; simpl.
    split_and!; [by left|by exists s|done|done].
  - destruct (employers st !! userId) as [e|] eqn:He; intros [= <-]; simpl.
    split_and!; [by right|by exists e|done|done].
Qed.

Lemma user_settings_PATCH_cases cookie body st :
  (user_settings_PATCH cookie body st).2 = st ∨
  ∃ data token decoded user newName newHash,
    body = Some data ∧ present cookie = Some token ∧
    verifyToken token = Some decoded ∧
    ObjectId_new (tok_userId decoded) = Some (user_id user) ∧
    settings_find_user (tok_role decoded) (user_id user) st = Some user ∧
    settings_username (sb_username data) user st = inr newName ∧
    settings_password (sb_currentPassword data) (sb_newPassword data)
                      (sb_confirmPassword data) user = inr newHash ∧
    (user_settings_PATCH cookie body st).2 =
      save_account user (assign_updates newName newHash) st.
Proof.
  unfold user_settings_PATCH.
  destruct body as [data|]; [|by left]. simpl.
  destruct (negb (truthy (sb_username data)) && negb (truthy (sb_newPassword data)));
    [by left|].
  destruct (present cookie) as [token|]; [|by left]. simpl.
  destruct (verifyToken token) as [decoded|] eqn:Hdecoded; [|by left]. simpl.
  destruct (ObjectId_new (tok_userId decoded)) as [userId|] eqn:Hid; [|by left]. simpl.
  destruct (settings_find_user (tok_role decoded) userId st) as [user|] eqn:Huser;
    [|by left]. simpl.
  pose proof (settings_find_user_stored _ _ _ _ Huser) as (_ & <- & _).
  destruct (settings_username (sb_username data) user st) as [?|newName] eqn:Hname;
    [by left|].
  destruct (settings_password _ _ _ user) as [?|newHash] eqn:Hhash; [by left|].
  destruct (negb (bool_decide (is_Some newName)) && negb (bool_decide (is_Some newHash)));
    [by left|].
  match goal with |- context [if ?c then _ else _] => destruct c; [by left|] end.
  right. by exists data, token, decoded, user, newName, newHash.
Qed.

Lemma unique_usernames_save_account user f st :
  (user_role user = "job-seeker" ∨ user_role user = "employer") →
  (∀ a, username (f a) = username a) →
  unique_usernames st → unique_usernames (save_account user f st).
Proof.
  intros Hrole Hf Hst k1 id1 a1' k2 id2 a2'
    (a1 & Ha1 & ->)%account_at_save_account (a2 & Ha2 & ->)%account_at_save_account Heq;
    [|done..].
  apply (Hst k1 id1 a1 k2 id2 a2 Ha1 Ha2).
  repeat case_bool_decide; by rewrite ?Hf in Heq.
Qed.

Lemma unique_usernames_with_registered role newId account st :
  role = "job-seeker" ∨ role = "employer" →
  (∀ k id a, account_at st k id a → username a ≠ username account) →
  unique_usernames st → unique_usernames (with_registered role newId account st).
Proof.
  intros Hrole Hnew Hst k1 id1 a1 k2 id2 a2 Ha1 Ha2 Heq.
  destruct (account_at_with_registered _ _ _ _ _ _ _ Hrole Ha1) as [(-> & -> & ->)|Hold1];
    destruct (account_at_with_registered _ _ _ _ _ _ _ Hrole Ha2) as [(-> & -> & ->)|Hold2].
  - done.
  - by destruct (Hnew _ _ _ Hold2).
  - by destruct (Hnew _ _ _ Hold1).
  - by eapply Hst.
Qed.

Lemma unique_usernames_same_accounts st st' :
  same_accounts st st' → unique_usernames st → unique_usernames st'.
Proof.
  intros Hsame Hst k1 id1 a1 k2 id2 a2 Ha1%Hsame Ha2%Hsame. by apply Hst.
Qed.

(** Under the two invariants, [foundExisting] is null only if nobody
    carries the name. *)
Lemma found_existing_false trimmed user st :
  unique_usernames st → disjoint_ids st → stored_user st user →
  trimmed ≠ username (user_account user) →
  found_existing trimmed user st = false →
  ∀ k id a, account_at st k id a → username a ≠ trimmed.
Proof.
  intros Huniq Hdisj [Hrole Huser] Hown Hfound.
  assert (∀ k id a, account_at st k id a → username a = trimmed → id = user_id user ∧
            k ≠ bool_decide (user_role user = "job-seeker")) as Hsame.
  { intros k id a Ha Hname.
    assert (id = user_id user) as ->.
    { unfold found_existing in Hfound. destruct k; destruct Ha as (doc & Hdoc & <-).
      - assert ((username (js_account doc) =? trimmed) = true) as Hq0
          by by apply String.eqb_eq.
        destruct (findOne_is_Some (λ s, username (js_account s) =? trimmed) _ _ _ Hdoc Hq0)
          as [[id' s'] Hfind].
        rewrite Hfind in Hfound.
        destruct (N.eqb_spec id' (user_id user)) as [Heq|Hne]; [subst id'|done].
        apply findOne_Some in Hfind as [Hs' Hq%String.eqb_eq].
        apply (Huniq true id (js_account doc) true (user_id user) (js_account s'));
          [by exists doc|by exists s'|congruence].
      - assert ((username (emp_account doc) =? trimmed) = true) as Hq0
          by by apply String.eqb_eq.
        destruct (findOne_is_Some (λ e, username (emp_account e) =? trimmed) _ _ _ Hdoc Hq0)
          as [[id' e'] Hfind].
        rewrite Hfind in Hfound.
        assert (negb (id' =? user_id user)%N = false) as Hid by by repeat case_match.
        destruct (N.eqb_spec id' (user_id user)) as [Heq|Hne]; [subst id'|done].
        apply findOne_Some in Hfind as [He' Hq%String.eqb_eq].
        apply (Huniq false id (emp_account doc) false (user_id user) (emp_account e'));
          [by exists doc|by exists e'|congruence]. }
    split; [done|]. intros ->. apply Hown.
    assert (a = user_account user) as <-; [|done].
    destruct (bool_decide (user_role user = "job-seeker"));
      destruct Ha as (d1 & Hd1 & <-); destruct Huser as (d2 & Hd2 & <-); congruence. }
  intros k id a Ha Hname.
  destruct (Hsame k id a Ha Hname) as [-> Hk].
  apply (Hdisj (user_id user)).
  destruct Hrole as [Hr | Hr]; rewrite Hr in *; simpl in *.
  - destruct k; [done|]. destruct Ha as (e & He & _), Huser as (s & Hs & _). by split.
  - destruct k; [|done]. destruct Ha as (s & Hs & _), Huser as (e & He & _). by split.
Qed.

Lemma settings_username_Some username_ user st name :
  settings_username username_ user st = inr (Some name) →
  name ≠ username (user_account user) ∧ found_existing name user st = false.
Proof.
  unfold settings_username. destruct username_ as [| | | |raw|]; try done.
  destruct (raw =? ""); [done|].
  destruct (toLowerCase (trim raw) =? ""); [done|].
  destruct (String.eqb_spec (toLowerCase (trim raw)) (username (user_account user)));
    [done|].
  destruct (found_existing _ user st) eqn:Hfound; [done|].
  by intros [= <-].
Qed.

(** Usernames stay unique across both user collections under every
    modelled route, the settings route's rename included, provided no
    [_id] is used in both collections. *)
Theorem routes_keep_usernames_unique (st st' : Store) :
  any_step st st' → disjoint_ids st → unique_usernames st → unique_usernames st'.
Proof.
  intros Hstep Hdisj Hst. destruct Hstep as [st st' Happ| | | | | |].
  - eapply unique_usernames_same_accounts; [|done].
    by apply application_step_same_accounts.
  - destruct (auth_register_POST_cases now newId secureToken body st)
      as [->|(uname & pwd & first & last & role & mail & Hrole & Hnew & _ & ->)]; [done|].
    apply unique_usernames_with_registered; [done| |done].
    intros k id a Ha. by destruct (Hnew k id a Ha).
  - by rewrite auth_login_POST_store.
  - destruct (auth_reset_password_POST_cases now body st)
      as [->|(user & token & pwd & _ & [Hrole _] & _ & _ & ->)]; [done|].
    by apply unique_usernames_save_account.
  - destruct (auth_verify_email_GET_cases now token st)
      as [->|(user & [Hrole _] & ->)]; [done|].
    by apply unique_usernames_save_account.
  - destruct (auth_forgot_password_POST_cases randomBytes emailSent body st)
      as [->|(user & name & _ & _ & [Hrole _] & _ & _ & ->)]; [done|].
    by apply unique_usernames_save_account.
  - destruct (user_settings_PATCH_cases cookie body st)
      as [->|(data & token & decoded & user & newName & newHash & _ & _ & _ & _ &
               Huser & Hname & _ & ->)]; [done|].
    apply settings_find_user_stored in Huser as (Hstored & _ & _).
    destruct newName as [name|];
      [|apply unique_usernames_save_account; [apply Hstored|done|done]].
    apply settings_username_Some in Hname as [Hown Hfound].
    pose proof (found_existing_false _ _ _ Hst Hdisj Hstored Hown Hfound) as Hfree.
    destruct Hstored as [Hrole Hat].
    intros k1 id1 a1' k2 id2 a2'
      (a1 & Ha1 & ->)%account_at_save_account (a2 & Ha2 & ->)%account_at_save_account Heq;
      [|done..].
    repeat case_bool_decide; simpl in Heq;
      try (by destruct (Hfree _ _ _ Ha2));
      try (by destruct (Hfree _ _ _ Ha1));
      try (by eapply Hst).
    all: destruct_and!; by subst.
Qed.

Lemma any_step_no_reset_tokens st st' :
  any_step st st' → no_reset_tokens st → no_reset_tokens st'.
Proof.
  intros Hstep Hst. destruct Hstep as [st st' Happ| | | | | |].
  - intros k id a Ha. apply (Hst k id).
    by apply (application_step_same_accounts _ _ Happ).
  - destruct (auth_register_POST_cases now newId secureToken body st)
      as [->|(uname & pwd & first & last & role & mail & Hrole & _ & _ & ->)]; [done|].
    intros k id a Ha.
    destruct (account_at_with_registered _ _ _ _ _ _ _ Hrole Ha) as [(_ & _ & ->)|Hold];
      [done|by eapply Hst].
  - by rewrite auth_login_POST_store.
  - destruct (auth_reset_password_POST_cases now body st)
      as [->|(user & token & pwd & _ & [Hrole _] & _ & _ & ->)]; [done|].
    by apply no_reset_tokens_save_account.
  - destruct (auth_verify_email_GET_cases now token st)
      as [->|(user & [Hrole _] & ->)]; [done|].
    by apply no_reset_tokens_save_account.
  - destruct (auth_forgot_password_POST_cases randomBytes emailSent body st)
      as [->|(user & name & _ & _ & [Hrole _] & _ & _ & ->)]; [done|].
    by apply no_reset_tokens_save_account.
  - destruct (user_settings_PATCH_cases cookie body st)
      as [->|(data & token & decoded & user & newName & newHash & _ & _ & _ & _ &
               Huser & _ & _ & ->)]; [done|].
    apply settings_find_user_stored in Huser as ([Hrole _] & _ & _).
    by apply no_reset_tokens_save_account.
Qed.

(** No modelled route ever stores a password reset token: starting from
    a store without one, after any sequence of requests to the modelled
    routes the reset-password route answers every request with an error
    status and leaves the store as it is. *)
Theorem reset_password_never_succeeds
    (st0 st : Store) (now : Z) (body : option ResetBody) :
  no_reset_tokens st0 → rtc any_step st0 st →
  resp_status (auth_reset_password_POST now body st).1 ≠ 200 ∧
  (auth_reset_password_POST now body st).2 = st.
Proof.
  intros Hst0 Hsteps.
  assert (no_reset_tokens st) as Hst.
  { induction Hsteps as [st|st st1 st2 Hstep _ IH]; [done|].
    apply IH. by eapply any_step_no_reset_tokens. }
  destruct (auth_reset_password_POST_cases now body st)
    as [Hsame|(user & token & pwd & Htoken & [_ Hat] & Htok & _ & _)].
  - split; [|done]. intros Hok. revert Hok Hsame.
    unfold auth_reset_password_POST.
    destruct body as [data|]; [|done]. simpl.
    destruct (present (rs_token data)) as [token|] eqn:Htoken; [|done]. simpl.
    destruct (present (rs_newPassword data)); [|done]. simpl.
    destruct (String.length _ <? 6)%nat; [done|].
    destruct (reset_find_user token st) as [user|] eqn:Hfind; [|done].
    apply find_either_stored in Hfind as [[_ Hat] Htok%String.eqb_eq].
    exfalso. rewrite (Hst _ _ _ Hat) in Htok. subst token.
    unfold present in Htoken. destruct (rs_token data) as [t|]; [|done].
    destruct (String.eqb_spec t ""); by simplify_eq.
  - rewrite (Hst _ _ _ Hat) in Htok. by subst token.
Qed.

(** ** Email verification *)

Lemma find_either_unique query st k id a :
  account_at st k id a → query a = true →
  (∀ k' id' a', account_at st k' id' a' → query a' = true → k' = k ∧ id' = id) →
  match JobSeeker_findOne query st with
  | Some u => Some u
  | None => Employer_findOne query st
  end = Some {| user_id := id;
                user_role := if k then "job-seeker" else "employer";
                user_account := a |}.
Proof.
  intros Ha Hq Huniq. destruct k.
  - destruct Ha as (s & Hs & <-).
    rewrite (JobSeeker_findOne_unique query st id s Hs Hq); [done|].
    intros id' a' Ha' Hq'. by destruct (Huniq true id' a' Ha' Hq').
  - rewrite (proj2 (JobSeeker_findOne_None_iff query st)).
    + destruct Ha as (e & He & <-).
      apply (Employer_findOne_unique query st id e He Hq).
      intros id' a' Ha' Hq'. by destruct (Huniq false id' a' Ha' Hq').
    + intros id' a' Ha'. apply not_true_iff_false. intros Hq'.
      by destruct (Huniq true id' a' Ha' Hq').
Qed.







(** ** Forgotten passwords *)

Lemma save_account_frame user f st :
  jobs (save_account user f st) = jobs st ∧
  applications (save_account user f st) = applications st ∧
  (∀ id, appliedJobs <$> jobseekers (save_account user f st) !! id =
         appliedJobs <$> jobseekers st !! id) ∧
  (∀ id, emp_name <$> employers (save_account user f st) !! id =
         emp_name <$> employers st !! id).
Proof.
  unfold save_account. destruct (user_role user =? "job-seeker");
    cbn [jobs applications jobseekers employers with_jobseekers with_employers];
    split_and!; try done; intros id.
  - destruct (decide (id = user_id user)) as [->|Hne].
    + rewrite lookup_alter_eq. by destruct (jobseekers st !! user_id user).
    + by rewrite lookup_alter_ne.
  - destruct (decide (id = user_id user)) as [->|Hne].
    + rewrite lookup_alter_eq. by destruct (employers st !! user_id user).
    + by rewrite lookup_alter_ne.
Qed.

(** The forgot-password route answers every request with the same
    status and message, whether or not the username exists.  It leaves
    the jobs, the applications, every [appliedJobs] list and every
    company name as they are, adds and removes no account, and changes
    at most one account: there it replaces the password hash and clears
    the reset token and its expiry. *)
Theorem forgot_password_uniform_response
    (randomBytes : list N) (emailSent : bool) (body : option JSValue) (st : Store) :
  let r := auth_forgot_password_POST randomBytes emailSent body st in
  r.1 = json forgot_message 200 ∧
  jobs r.2 = jobs st ∧ applications r.2 = applications st ∧
  (∀ id, appliedJobs <$> jobseekers r.2 !! id = appliedJobs <$> jobseekers st !! id) ∧
  (∀ id, emp_name <$> employers r.2 !! id = emp_name <$> employers st !! id) ∧
  ∃ changed : option (bool * ObjectId),
    ∀ k id a',
      account_at r.2 k id a' ↔
      ∃ a, account_at st k id a ∧
           a' = if bool_decide (changed = Some (k, id))
                then reset_account
                       (hashPassword (generateTemporaryPassword randomBytes)) a
                else a.
Proof.
  intros r. subst r. split.
  { unfold auth_forgot_password_POST. by repeat case_match. }
  destruct (auth_forgot_password_POST_cases randomBytes emailSent body st)
    as [->|(user & name & _ & _ & [Hrole _] & _ & _ & ->)].
  - split_and!; try done. exists None. intros k id a'.
    rewrite bool_decide_eq_false_2 by done. split.
    + intros Ha. by exists a'.
    + by intros (a & Ha & ->).
  - destruct (save_account_frame user
                (reset_account (hashPassword (generateTemporaryPassword randomBytes))) st)
      as (Hjobs & Happs & Hlists & Hnames).
    split_and!; try done.
    exists (Some (bool_decide (user_role user = "job-seeker"), user_id user)).
    intros k id a'. rewrite account_at_save_account by done.
    assert (bool_decide (k = bool_decide (user_role user = "job-seeker") ∧
                         id = user_id user) =
            bool_decide (Some (bool_decide (user_role user = "job-seeker"),
                               user_id user) = Some (k, id))) as ->; [|done].
    apply bool_decide_ext. split.
    + by intros [-> ->].
    + by intros [= <- <-].
Qed.

Lemma account_at_functional st k id a b :
  account_at st k id a → account_at st k id b → a = b.
Proof. destruct k; intros (? & ? & <-) (? & ? & <-); congruence. Qed.

(** After the forgot-password route has emailed a temporary password to
    a user, a login with that password succeeds. *)
Theorem forgot_then_login
    (randomBytes : list N) (name : string) (st : Store)
    (k : bool) (id : ObjectId) (a : Account) (login : LoginBody) (uname : string) :
  unique_usernames st →
  account_at st k id a →
  name ≠ "" →
  username a = trim (toLowerCase name) →
  email a ≠ "" →
  verifyPassword (generateTemporaryPassword randomBytes)
                 (hashPassword (generateTemporaryPassword randomBytes)) = true →
  present (lb_username login) = Some uname →
  toLowerCase uname = username a →
  present (lb_password login) = Some (generateTemporaryPassword randomBytes) →
  lb_role login = None →
  let st' := (auth_forgot_password_POST randomBytes true (Some (JStr name)) st).2 in
  let role := if k then "job-seeker" else "employer" in
  auth_login_POST (Some login) st' =
    ({| resp_status := 200;
        resp_cookie :=
          Some (createToken {| tok_userId := ObjectId_toString id;
                               tok_role := role;
                               tok_username := username a |});
        resp_body := UserJson "Login successful!" id (username a) role |},
     st').
Proof.
  intros Huniq Ha Hname Huser Hmail Hbcrypt Hlogin Hlower Hpwd Hrole st' role.
  set (h := hashPassword (generateTemporaryPassword randomBytes)) in *.
  set (user := {| user_id := id; user_role := role; user_account := a |}).
  assert (user_role user = "job-seeker" ∨ user_role user = "employer") as Hkind.
  { subst user role. simpl. destruct k; auto. }
  assert (bool_decide (user_role user = "job-seeker") = k) as Hk.
  { subst user role. simpl. by destruct k. }
  assert (st' = save_account user (reset_account h) st) as Hst'.
  { subst st'. unfold auth_forgot_password_POST. simpl.
    destruct (String.eqb_spec name ""); [done|].
    rewrite (find_either_unique _ st k id a Ha).
    - fold role. fold user.
      change (email (user_account user)) with (email a).
      by destruct (String.eqb_spec (email a) "").
    - by apply String.eqb_eq.
    - intros k' id' a' Ha' Hq%String.eqb_eq.
      apply (Huniq _ _ _ _ _ _ Ha' Ha). congruence. }
  assert (account_at st' k id (reset_account h a)) as Ha'.
  { rewrite Hst'. apply account_at_save_account; [done|].
    exists a. split; [done|]. rewrite Hk. by rewrite bool_decide_eq_true_2. }
  assert (unique_usernames st') as Huniq'.
  { rewrite Hst'. by apply unique_usernames_save_account. }
  unfold auth_login_POST. rewrite Hlogin, Hpwd, Hrole, Hlower. simpl.
  unfold login_find_user.
  rewrite bool_decide_eq_false_2 by done. rewrite bool_decide_eq_false_2 by done.
  rewrite (find_either_unique _ st' k id (reset_account h a) Ha').
  - simpl. by rewrite Hbcrypt.
  - apply String.eqb_refl.
  - intros k' id' a' Hat Hq%String.eqb_eq. by apply (Huniq' _ _ _ _ _ _ Hat Ha').
Qed.

(** ** Account settings *)

Lemma settings_password_Some currentPassword newPassword confirmPassword user h :
  settings_password currentPassword newPassword confirmPassword user = inr (Some h) →
  ∃ current, currentPassword = JStr current ∧
             verifyPassword current (passwordHash (user_account user)) = true.
Proof.
  unfold settings_password. intros Hset.
  repeat case_match; simplify_eq; by eexists.
Qed.

(** The settings route changes a password hash only for the account of
    the session, and only when the request carries that account's
    current password. *)
Theorem settings_password_change_requires_current
    (cookie : option string) (body : option SettingsBody) (st : Store)
    (k : bool) (id : ObjectId) (a a' : Account) :
  account_at st k id a →
  account_at (user_settings_PATCH cookie body st).2 k id a' →
  passwordHash a' ≠ passwordHash a →
  ∃ data token decoded current,
    body = Some data ∧ present cookie = Some token ∧
    verifyToken token = Some decoded ∧
    ObjectId_new (tok_userId decoded) = Some id ∧
    k = (tok_role decoded =? "job-seeker") ∧
    sb_currentPassword data = JStr current ∧
    verifyPassword current (passwordHash a) = true.
Proof.
  intros Ha Ha' Hchanged.
  destruct (user_settings_PATCH_cases cookie body st)
    as [Hsame|(data & token & decoded & user & newName & newHash & -> & Hcookie &
               Hdecoded & Hid & Huser & _ & Hpwd & Hst')].
  - rewrite Hsame in Ha'. by rewrite (account_at_functional _ _ _ _ _ Ha Ha') in Hchanged.
  - apply settings_find_user_stored in Huser as ([Hrole Hat] & _ & Hkind).
    rewrite Hst' in Ha'.
    apply account_at_save_account in Ha' as (a0 & Ha0 & ->); [|done].
    rewrite <- (account_at_functional _ _ _ _ _ Ha Ha0) in Hchanged.
    destruct (decide (k = bool_decide (user_role user = "job-seeker") ∧ id = user_id user))
      as [[-> ->]|Hc]; [|by rewrite bool_decide_eq_false_2 in Hchanged].
    rewrite bool_decide_eq_true_2 in Hchanged by done.
    rewrite (account_at_functional _ _ _ _ _ Ha Hat) in *.
    destruct newHash as [h|]; [|done].
    apply settings_password_Some in Hpwd as (current & Hcurrent & Hok).
    exists data, token, decoded, current. split_and!; try done.
    rewrite Hkind. by destruct (tok_role decoded =? "job-seeker").
Qed.

(** ** Listing the applications of a job *)

Lemma elem_of_formatted_applications jid st v :
  v ∈ (λ kv, format_application kv.1 kv.2)
        <$> find_all (λ a, (app_jobId a =? jid)%N) (applications st) ↔
  ∃ id app, applications st !! id = Some app ∧ app_jobId app = jid ∧
            v = format_application id app.
Proof.
  rewrite list_elem_of_fmap. split.
  - intros ([id app] & -> & [Happ Hjob%N.eqb_eq]%elem_of_find_all). by exists id, app.
  - intros (id & app & Happ & Hjob & ->). exists (id, app). split; [done|].
    apply elem_of_find_all. split; [done|]. by apply N.eqb_eq.
Qed.

(** Whenever the route returns a list, the request carried a valid
    session and named an existing job; an employer's session is the
    job owner's; and the list holds exactly the applications of that
    job. *)
Theorem applications_GET_lists_job_applications
    (cookie jobId : option string) (st : Store) (items : list ApplicationView) :
  applications_GET cookie jobId st = Listed items →
  ∃ token decoded jobIdString jid job,
    present cookie = Some token ∧ verifyToken token = Some decoded ∧
    present jobId = Some jobIdString ∧ ObjectId_new jobIdString = Some jid ∧
    jobs st !! jid = Some job ∧
    (tok_role decoded = "employer" →
     ObjectId_new (tok_userId decoded) = Some (job_employerId job)) ∧
    ∀ v, v ∈ items ↔
         ∃ id app, applications st !! id = Some app ∧ app_jobId app = jid ∧
                   v = format_application id app.
Proof.
  unfold applications_GET. intros Hlist.
  destruct (present cookie) as [token|] eqn:Hcookie; [|done].
  destruct (verifyToken token) as [decoded|] eqn:Htoken; [|done].
  destruct (present jobId) as [jobIdString|] eqn:HjobId; [|done].
  destruct (ObjectId_new jobIdString) as [jid|] eqn:Hjid; [|done].
  destruct (jobs st !! jid) as [job|] eqn:Hjob; [|done].
  exists token, decoded, jobIdString, jid, job. split_and!; try done.
  - intros Hrole. rewrite Hrole in Hlist. simpl in Hlist.
    destruct (ObjectId_new (tok_userId decoded)) as [eid|]; [|done].
    destruct (N.eqb_spec (job_employerId job) eid) as [->|]; done.
  - intros v. rewrite <- elem_of_formatted_applications.
    repeat case_match; by simplify_eq.
Qed.

(** Only an employer's session is checked for ownership: with any
    other role, a job seeker's included, the route returns the
    applications of any existing job, with the applicants' names and
    email addresses. *)
Theorem applications_GET_open_to_job_seekers
    (cookie jobId : option string) (st : Store)
    (token jobIdString : string) (decoded : TokenPayload) (jid : ObjectId) (job : Job) :
  present cookie = Some token → verifyToken token = Some decoded →
  tok_role decoded ≠ "employer" →
  present jobId = Some jobIdString → ObjectId_new jobIdString = Some jid →
  jobs st !! jid = Some job →
  ∃ items,
    applications_GET cookie jobId st = Listed items ∧
    ∀ id app, applications st !! id = Some app → app_jobId app = jid →
              format_application id app ∈ items.
Proof.
  intros Hcookie Htoken Hrole HjobId Hjid Hjob.
  unfold applications_GET. rewrite Hcookie, Htoken, HjobId, Hjid, Hjob. simpl.
  destruct (String.eqb_spec (tok_role decoded) "employer"); [done|].
  eexists. split; [done|].
  intros id app Happ Happjob. apply elem_of_formatted_applications. by exists id, app.
Qed.

(** ** The middleware *)

(** A path under a protected route is served only with a non-empty
    [auth_token] cookie; without one the request is redirected to a
    login page. *)
Theorem middleware_protected_requires_cookie
    (pathname route : string) (cookie : option string) :
  route ∈ protectedRoutes → startsWith pathname route = true →
  (middleware pathname cookie = Next ↔ ∃ token, cookie = Some token ∧ token ≠ "") ∧
  (middleware pathname cookie ≠ Next →
   middleware pathname cookie = Redirect "/auth/login/job-seeker" ∨
   middleware pathname cookie = Redirect "/auth/login/employer").
Proof.
  intros Hroute Hprefix. unfold middleware.
  assert (existsb (λ route, startsWith pathname route) protectedRoutes = true) as ->.
  { apply existsb_exists. exists route. split; [by apply list_elem_of_In|done]. }
  destruct cookie as [token|]; simpl.
  - destruct (String.eqb_spec token "") as [->|Hne].
    + split.
      * split; [by destruct (startsWith pathname "/job-seeker")|].
        by intros (? & [= <-] & ?).
      * destruct (startsWith pathname "/job-seeker"); auto.
    + split; [|done]. split; [|done]. intros _. by exists token.
  - split.
    + split; [by destruct (startsWith pathname "/job-seeker")|].
      by intros (? & ? & ?).
    + destruct (startsWith pathname "/job-seeker"); auto.
Qed.

(** The middleware never redirects to a path that it redirects again:
    following one redirect with the same cookie ends at a page that is
    served. *)
Theorem middleware_redirect_no_loop
    (pathname target : string) (cookie : option string) :
  middleware pathname cookie = Redirect target →
  middleware target cookie = Next.
Proof.
  unfold middleware at 1.
  destruct (existsb _ protectedRoutes).
  - destruct (present cookie) as [token|] eqn:Hcookie; [done|].
    destruct (startsWith pathname "/job-seeker"); intros [= <-];
      unfold middleware; by rewrite Hcookie.
  - destruct (_ && _ && _); [|done].
    destruct (string_includes pathname "job-seeker"); intros [= <-];
      unfold middleware; by destruct (present cookie).
Qed.

(** ** Temporary passwords *)

Lemma charset_at_ok (index : nat) :
  (index < String.length charset)%nat →
  In (charset_at index) (String.list_ascii_of_string charset) ∧
  ¬ In (charset_at index) look_alike.
Proof.
  intros Hlt.
  assert (forallb (λ i, existsb (Ascii.eqb (charset_at i)) (String.list_ascii_of_string charset) &&
                        negb (existsb (Ascii.eqb (charset_at i)) look_alike))
                  (seq 0 (String.length charset)) = true) as Hall
    by (vm_compute; reflexivity).
  rewrite forallb_forall in Hall.
  specialize (Hall index). rewrite in_seq in Hall.
  destruct (andb_prop _ _ (Hall ltac:(lia))) as [Hin Hout]. split.
  - apply existsb_exists in Hin as (c & Hc & ->%Ascii.eqb_eq). done.
  - intros Hbad. apply negb_true_iff in Hout.
    assert (existsb (Ascii.eqb (charset_at index)) look_alike = true); [|congruence].
    apply existsb_exists. exists (charset_at index). split; [done|apply Ascii.eqb_refl].
Qed.

(** A temporary password has one character per random byte, and every
    character is one of the 57 of [charset]: never a digit 0 or 1 nor a
    letter O, l or I. *)
Theorem temporary_password_alphabet (bytes : list N) :
  String.length (generateTemporaryPassword bytes) = length bytes ∧
  ∀ c, In c (String.list_ascii_of_string (generateTemporaryPassword bytes)) →
       In c (String.list_ascii_of_string charset) ∧ ¬ In c look_alike.
Proof.
  induction bytes as [|byte bytes [IHlen IHin]]; [by split|].
  split; [simpl; by rewrite IHlen|].
  intros c [<-|Hc]; [|by apply IHin].
  apply charset_at_ok. apply Nat.mod_upper_bound. by vm_compute.
Qed.

(** The characters are not equally likely: as 256 is not a multiple of
    57, each of the first 28 characters of [charset] is selected by 5 of
    the 256 byte values and each of the other 29 by 4. *)
Theorem temporary_password_modulo_bias (index : nat) :
  (index < String.length charset)%nat →
  length (bytes_for index) = if (index <? 28)%nat then 5%nat else 4%nat.
Proof.
  intros Hlt.
  assert (forallb (λ i, (length (bytes_for i) =? if (i <? 28)%nat then 5 else 4)%nat)
                  (seq 0 (String.length charset)) = true) as Hall
    by (vm_compute; reflexivity).
  rewrite forallb_forall in Hall.
  apply Nat.eqb_eq, Hall, in_seq. lia.
Qed.

(** ** retryOperation *)

Lemma retry_loop_bounds {T} (operation : nat → Settled T) maxRetries delayMs
    remaining attempt lastError :
  (attempt + remaining = S maxRetries)%nat →
  (run_calls (retry_loop operation maxRetries delayMs remaining attempt lastError)
     ≤ remaining)%nat ∧
  (length (run_delays (retry_loop operation maxRetries delayMs remaining attempt lastError))
     ≤ run_calls (retry_loop operation maxRetries delayMs remaining attempt lastError) - 1)%nat ∧
  ∀ d, In d (run_delays (retry_loop operation maxRetries delayMs remaining attempt lastError)) →
       ∃ k, (attempt ≤ k < maxRetries)%nat ∧ d = (delayMs * k)%nat.
Proof.
  revert attempt lastError.
  induction remaining as [|remaining IH]; intros attempt lastError Hend; simpl.
  { split_and!; [lia|lia|done]. }
  destruct (operation attempt) as [value|error]; simpl.
  { split_and!; [lia|lia|done]. }
  destruct (no_retry error); simpl.
  { split_and!; [lia|lia|done]. }
  destruct (IH (S attempt) (Some error) ltac:(lia)) as (Hcalls & Hdelays & Hin).
  split_and!; [lia| |].
  - destruct (Nat.ltb_spec attempt maxRetries); simpl; [|lia].
    destruct remaining as [|remaining']; [lia|].
    assert (1 ≤ run_calls (retry_loop operation maxRetries delayMs (S remaining')
                                      (S attempt) (Some error)))%nat; [|lia].
    simpl. destruct (operation (S attempt)) as [?|error']; simpl; [lia|].
    destruct (no_retry error'); simpl; lia.
  - intros d Hd.
    destruct (Nat.ltb_spec attempt maxRetries); simpl in Hd.
    + destruct Hd as [<-|Hd]; [exists attempt; lia|].
      destruct (Hin d Hd) as (k & Hk & ->). exists k. lia.
    + destruct (Hin d Hd) as (k & Hk & ->). exists k. lia.
Qed.

(** [retryOperation] calls the operation at most [maxRetries] times,
    waits only between two calls, and each wait is [delayMs] times the
    number of a failed attempt before the last. *)
Theorem retry_calls_bounded {T} (operation : nat → Settled T) (maxRetries delayMs : nat) :
  (run_calls (retryOperation operation maxRetries delayMs) ≤ maxRetries)%nat ∧
  (length (run_delays (retryOperation operation maxRetries delayMs))
     ≤ run_calls (retryOperation operation maxRetries delayMs) - 1)%nat ∧
  ∀ d, In d (run_delays (retryOperation operation maxRetries delayMs)) →
       ∃ k, (1 ≤ k < maxRetries)%nat ∧ d = (delayMs * k)%nat.
Proof. apply retry_loop_bounds. lia. Qed.

Lemma retry_loop_settles {T} (operation : nat → Settled T) maxRetries delayMs
    remaining attempt lastError n out :
  (n < remaining)%nat → (attempt + n ≤ maxRetries)%nat →
  (∀ j, (attempt ≤ j < attempt + n)%nat → settles (operation j) = None) →
  settles (operation (attempt + n)%nat) = Some out →
  retry_loop operation maxRetries delayMs remaining attempt lastError =
    {| run_result := out;
       run_calls := S n;
       run_delays := (λ k, delayMs * k)%nat <$> seq attempt n |}.
Proof.
  revert remaining attempt lastError.
  induction n as [|n IH]; intros remaining attempt lastError Hn Hmax Hfail Hout.
  - destruct remaining as [|remaining]; [lia|]. simpl.
    rewrite Nat.add_0_r in Hout. unfold settles in Hout.
    destruct (operation attempt) as [value|error]; [by simplify_eq|].
    destruct (no_retry error); by simplify_eq.
  - destruct remaining as [|remaining]; [lia|]. simpl.
    pose proof (Hfail attempt ltac:(lia)) as Hfirst. unfold settles in Hfirst.
    destruct (operation attempt) as [value|error]; [done|].
    destruct (no_retry error); [done|].
    rewrite (IH remaining (S attempt) (Some error) ltac:(lia) ltac:(lia)).
    + csimpl. destruct (Nat.ltb_spec attempt maxRetries); [done|lia].
    + intros j Hj. apply Hfail. lia.
    + by replace (S attempt + n)%nat with (attempt + S n)%nat by lia.
Qed.

(** [retryOperation] ends at the first call that returns a value or
    throws an error that is not retried (a validation or cast error, or
    status 401 or 403): it passes that outcome on, has made exactly
    that many calls, and has waited [delayMs * k] after each failed
    attempt [k] before it. *)
Theorem retry_stops_at_first_settled {T} (operation : nat → Settled T)
    (maxRetries delayMs k : nat) (out : T + option JSError) :
  (1 ≤ k ≤ maxRetries)%nat →
  (∀ j, (1 ≤ j < k)%nat → settles (operation j) = None) →
  settles (operation k) = Some out →
  retryOperation operation maxRetries delayMs =
    {| run_result := out; run_calls := k; run_delays := backoff delayMs (k - 1) |}.
Proof.
  intros Hk Hfail Hout. unfold retryOperation, backoff.
  rewrite (retry_loop_settles operation maxRetries delayMs maxRetries 1 None (k - 1) out).
  - by replace (S (k - 1)) with k by lia.
  - lia.
  - lia.
  - intros j Hj. apply Hfail. lia.
  - by replace (1 + (k - 1))%nat with k by lia.
Qed.

Lemma retry_loop_exhausts {T} (operation : nat → Settled T) maxRetries delayMs
    remaining attempt lastError error :
  (1 ≤ remaining)%nat → (attempt + remaining = S maxRetries)%nat →
  (∀ j, (attempt ≤ j < attempt + remaining)%nat → settles (operation j) = None) →
  operation maxRetries = Failed error →
  retry_loop operation maxRetries delayMs remaining attempt lastError =
    {| run_result := inr (Some error);
       run_calls := remaining;
       run_delays := (λ k, delayMs * k)%nat <$> seq attempt (remaining - 1) |}.
Proof.
  revert attempt lastError.
  induction remaining as [|remaining IH]; intros attempt lastError Hpos Hend Hfail Hlast;
    [lia|].
  simpl. pose proof (Hfail attempt ltac:(lia)) as Hfirst. unfold settles in Hfirst.
  destruct (operation attempt) as [value|error'] eqn:Hop; [done|].
  destruct (no_retry error'); [done|].
  destruct remaining as [|remaining].
  - simpl. assert (attempt = maxRetries) as -> by lia.
    rewrite Hlast in Hop. simplify_eq.
    by destruct (Nat.ltb_spec maxRetries maxRetries); [lia|].
  - rewrite (IH (S attempt) (Some error') ltac:(lia) ltac:(lia)); [|intros; apply Hfail; lia|done].
    replace (S (S remaining) - 1)%nat with (S remaining) by lia.
    replace (S remaining - 1)%nat with remaining by lia.
    csimpl. destruct (Nat.ltb_spec attempt maxRetries); [done|lia].
Qed.

(** When every one of the [maxRetries] calls fails with an error that
    is retried, [retryOperation] throws the error of the last call,
    after waiting [delayMs * k] behind each attempt [k] but the last. *)
Theorem retry_exhausted_throws_last {T} (operation : nat → Settled T)
    (maxRetries delayMs : nat) (error : JSError) :
  (1 ≤ maxRetries)%nat →
  (∀ j, (1 ≤ j ≤ maxRetries)%nat → settles (operation j) = None) →
  operation maxRetries = Failed error →
  retryOperation operation maxRetries delayMs =
    {| run_result := inr (Some error);
       run_calls := maxRetries;
       run_delays := backoff delayMs (maxRetries - 1) |}.
Proof.
  intros Hpos Hfail Hlast. unfold retryOperation, backoff.
  apply retry_loop_exhausts; [lia|lia| |done].
  intros j Hj. apply Hfail. lia.
Qed.

(** ** What an accepted request leaves behind *)

(** An accepted apply request is answered 201.  Afterwards the
    collection holds the new application, Pending with rating 0, under
    the new [_id] beside all it held before; the job counts one more
    applicant; and the seeker's [appliedJobs] ends with the mirror
    entry of the application. *)
Theorem apply_accepted_creates
    (now : Z) (newId : ObjectId) (req : ApplyRequest) (st : Store)
    (jid sid : ObjectId) (job : Job) (seeker : JobSeeker) :
  apply_accepted now newId req st jid sid job seeker →
  let st' := (applications_POST now newId req st).2 in
  (applications_POST now newId req st).1 =
    json (ApplicationJson newId jid sid Pending (Some 0%Q)) 201 ∧
  applications st' !! newId = Some (created_application jid sid seeker) ∧
  (∀ id, id ≠ newId → applications st' !! id = applications st !! id) ∧
  job_applicants <$> jobs st' !! jid = Some (job_applicants job + 1)%Z ∧
  appliedJobs <$> jobseekers st' !! sid =
    Some (appliedJobs seeker ++ [pushed_entry jid newId job])%list.
Proof.
  intros Hacc st'. subst st'.
  rewrite (applications_POST_accepted _ _ _ _ _ _ _ _ Hacc).
  destruct Hacc as (token & decoded & data & jobIdString & _ & _ & _ & _ & _ & _ & _ & _ &
                    _ & _ & Hjob & _).
  cbn [fst snd applications jobs jobseekers with_jobseekers with_applications with_jobs].
  split_and!.
  - done.
  - apply lookup_insert_eq.
  - intros id Hid. by apply lookup_insert_ne.
  - by rewrite lookup_alter_eq, Hjob.
  - by rewrite lookup_insert_eq.
Qed.


(** ** The job seeker's own list *)

Lemma format_appliedJob_mirror sid st e id a :
  applications st !! id = Some a → app_jobSeekerId a = sid → mirrors e id a →
  format_appliedJob sid st e =
    if negb (aj_jobTitle e =? "") && negb (aj_company e =? "")
    then Some {| mv_applicationId := id;
                 mv_jobId := app_jobId a;
                 mv_jobTitle := aj_jobTitle e;
                 mv_company := aj_company e;
                 mv_location :=
                   if aj_location e =? "" then "Unknown Location" else aj_location e;
                 mv_status := app_status a;
                 mv_rating := rating_or_zero (app_rating a) |}
    else None.
Proof.
  intros Happ Hsid (Hid & Hjob & Hstatus & Hrating).
  unfold format_appliedJob, valid_appliedJob. rewrite Hid, Hjob.
  destruct (negb (aj_jobTitle e =? "") && negb (aj_company e =? "")); [|done].
  cbn [fst snd]. unfold statusMap_get. rewrite Happ, Hsid, N.eqb_refl, Hrating.
  cbn [fst snd]. by destruct (Qeq_bool (rating_or_zero (app_rating a)) 0).
Qed.

(** In a consistent store GET /api/my-applications returns to a job
    seeker exactly their own applications whose mirror entry carries a
    job title and a company, each with the status and the rating of the
    application document. *)
Theorem my_applications_GET_lists_own_applications
    (cookie : option string) (st : Store)
    (token : string) (decoded : TokenPayload) (sid : ObjectId) (seeker : JobSeeker) :
  consistent st →
  present cookie = Some token → verifyToken token = Some decoded →
  tok_role decoded = "job-seeker" →
  ObjectId_new (tok_userId decoded) = Some sid →
  jobseekers st !! sid = Some seeker →
  ∃ items,
    my_applications_GET cookie st = Listed items ∧
    ∀ v, v ∈ items ↔
         ∃ id a e,
           applications st !! id = Some a ∧ app_jobSeekerId a = sid ∧
           e ∈ appliedJobs seeker ∧ mirrors e id a ∧
           aj_jobTitle e ≠ "" ∧ aj_company e ≠ "" ∧
           v = {| mv_applicationId := id;
                  mv_jobId := app_jobId a;
                  mv_jobTitle := aj_jobTitle e;
                  mv_company := aj_company e;
                  mv_location :=
                    if aj_location e =? "" then "Unknown Location" else aj_location e;
                  mv_status := app_status a;
                  mv_rating := rating_or_zero (app_rating a) |}.
Proof.
  intros (_ & Hmirror & _) Hcookie Htoken Hrole Hsid Hseeker.
  unfold my_applications_GET. rewrite Hcookie, Htoken, Hrole, Hsid, Hseeker. simpl.
  eexists. split; [done|]. intros v. rewrite list_elem_of_omap. split.
  - intros (e & He & Hformat).
    destruct (Hmirror sid seeker e Hseeker He) as (id & a & Happ & Howner & Hm).
    rewrite (format_appliedJob_mirror _ _ _ _ _ Happ Howner Hm) in Hformat.
    destruct (String.eqb_spec (aj_jobTitle e) ""); [done|].
    destruct (String.eqb_spec (aj_company e) ""); [done|].
    simpl in Hformat. injection Hformat as <-. by exists id, a, e.
  - intros (id & a & e & Happ & Howner & He & Hm & Htitle & Hcompany & ->).
    exists e. split; [done|].
    rewrite (format_appliedJob_mirror _ _ _ _ _ Happ Howner Hm).
    apply String.eqb_neq in Htitle as ->. by apply String.eqb_neq in Hcompany as ->.
Qed.

(** From the employer's update to the applicant's list: once the owner
    of the job has set an application's status, the applicant's
    GET /api/my-applications shows the application with that status. *)
Theorem status_update_reaches_applicant
    (applicationId : string) (req : PatchRequest) (st : Store)
    (token : string) (decoded : TokenPayload) (rating : JSValue)
    (aid : ObjectId) (application : Application) (job : Job) (target : AppStatus)
    (cookie : option string) (seekerToken : string) (seekerDecoded : TokenPayload) :
  consistent st →
  present (patch_cookie req) = Some token →
  verifyToken token = Some decoded →
  tok_role decoded = "employer" →
  ObjectId_new (tok_userId decoded) = Some (job_employerId job) →
  patch_body req =
    Some {| pb_status := JStr (AppStatus_to_string target); pb_rating := rating |} →
  (∀ prim, rating ≠ JObject prim) →
  ObjectId_new applicationId = Some aid →
  applications st !! aid = Some application →
  jobs st !! app_jobId application = Some job →
  present cookie = Some seekerToken →
  verifyToken seekerToken = Some seekerDecoded →
  tok_role seekerDecoded = "job-seeker" →
  ObjectId_new (tok_userId seekerDecoded) = Some (app_jobSeekerId application) →
  (∀ s e, jobseekers st !! app_jobSeekerId application = Some s → e ∈ appliedJobs s →
          aj_applicationId e = Some aid → aj_jobTitle e ≠ "" ∧ aj_company e ≠ "") →
  ∃ items v,
    my_applications_GET cookie (applications_PATCH applicationId req st).2 = Listed items ∧
    v ∈ items ∧ mv_applicationId v = aid ∧ mv_jobId v = app_jobId application ∧
    mv_status v = target.
Proof.
  intros (Hmirror & _ & Hnodup) Hcookie Htoken Hrole Heid Hbody Hscalar Haid Happ Hjob
    Hscookie Hstoken Hsrole Hsid Htitled.
  destruct (cast_update_status target rating Hscalar) as (u & Hcast & Hstatus).
  destruct (Hmirror aid application Happ) as (s & e & Hs & He & Hm).
  destruct (Htitled s e Hs He (proj1 Hm)) as [Htitle Hcompany].
  set (st' := (applications_PATCH applicationId req st).2).
  assert (applications st' !! aid = Some (set_application u application) ∧
          jobseekers st' !! app_jobSeekerId application =
            Some (set_appliedJobs
                    (update_first (has_applicationId aid) (set_appliedJob u) (appliedJobs s))
                    s)) as [Happ' Hs'].
  { subst st'. unfold applications_PATCH.
    rewrite Hcookie, Htoken, Hrole, Hbody, Haid, Heid, Happ, Hjob. simpl.
    rewrite N.eqb_refl. simpl. rewrite Hcast.
    rewrite lookup_alter_eq, Happ. simpl.
    assert (has_keys u = true) as ->.
    { unfold has_keys. by rewrite Hstatus. }
    simpl. unfold JobSeeker_updateOne_appliedJob.
    by rewrite !lookup_alter_eq, Happ, Hs. }
  assert (mirrors (set_appliedJob u e) aid (set_application u application)) as Hm'.
  { destruct Hm as (Hid & Hjid & Hst & Hr). unfold mirrors. simpl.
    by rewrite Hst, Hr. }
  unfold my_applications_GET. rewrite Hscookie, Hstoken, Hsrole, Hsid. simpl.
  rewrite Hs'. eexists _, _. split_and!; [done| |..].
  - apply list_elem_of_omap. exists (set_appliedJob u e). split.
    + simpl. apply elem_of_update_first_self; [by eapply Hnodup|done|apply Hm].
    + rewrite (format_appliedJob_mirror (app_jobSeekerId application) st' _ aid _
                 Happ' eq_refl Hm'). simpl.
      apply String.eqb_neq in Htitle as ->. by apply String.eqb_neq in Hcompany as ->.
  - done.
  - done.
  - simpl. by rewrite Hstatus.
Qed.

(** ** Login without a verified email address *)



End MoreProperties.

(** * The further properties on the examples *)

Lemma demo_apply_accepted :
  apply_accepted (RT := demoRuntime) demo_now demo_application_id
    (apply_request "seeker-a1" demo_job_param) demo_store0
    demo_job_id ann_id (inc_job_applicants (-1) demo_job) (demo_ann []).
Proof.
  exists "seeker-a1", ann_token,
    {| ab_jobId := JStr demo_job_param; ab_coverLetter := JUndefined;
       ab_resume := JUndefined |}, demo_job_param.
  split_and!; try reflexivity; done.
Qed.

Lemma apply_accepted_creates_witness :
  (applications_POST (RT := demoRuntime) demo_now demo_application_id
     (apply_request "seeker-a1" demo_job_param) demo_store0).1 =
    json (ApplicationJson demo_application_id demo_job_id ann_id Pending (Some 0%Q)) 201.
Proof.
  destruct (apply_accepted_creates (RT := demoRuntime) demo_now demo_application_id
              (apply_request "seeker-a1" demo_job_param) demo_store0
              demo_job_id ann_id (inc_job_applicants (-1) demo_job) (demo_ann [])
              demo_apply_accepted) as [Hresponse _].
  exact Hresponse.
Defined.

Lemma apply_to_closed_or_expired_job_witness :
  resp_status (applications_POST (RT := demoRuntime) demo_now demo_application_id
                 (apply_request "seeker-a1" demo_job_param) demo_expired_store).1 = 400 ∧
  job_status <$>
    jobs (applications_POST (RT := demoRuntime) demo_now demo_application_id
            (apply_request "seeker-a1" demo_job_param) demo_expired_store).2
      !! demo_job_id = Some Closed.
Proof.
  destruct (apply_to_closed_or_expired_job (RT := demoRuntime) demo_now
              demo_application_id (apply_request "seeker-a1" demo_job_param)
              demo_expired_store "seeker-a1" ann_token
              {| ab_jobId := JStr demo_job_param; ab_coverLetter := JUndefined;
                 ab_resume := JUndefined |}
              demo_job_param ann_id demo_job_id
              {| job_employerId := acme_id; job_title := "Engineer";
                 job_company := "Acme"; job_location := "Remote";
                 job_deadline := Some "2020-01-01";
                 job_status := Active; job_applicants := 0 |})
    as [_ Hexpired]; [first [reflexivity|done]..|].
  rewrite Hexpired by reflexivity. split; reflexivity.
Defined.

Lemma remove_own_application_only_witness :
  resp_status (my_applications_DELETE (RT := demoRuntime) demo_application_param
                 (Some "seeker-a1") demo_store).1 = 200 ∧
  applications (my_applications_DELETE (RT := demoRuntime) demo_application_param
                  (Some "seeker-a1") demo_store).2 !! demo_application_id = None.
Proof.
  destruct (remove_own_application_only (RT := demoRuntime) demo_application_param
              (Some "seeker-a1") demo_store "seeker-a1" ann_token
              demo_application_id ann_id demo_application)
    as [Hown _]; [first [reflexivity|done]..|].
  rewrite Hown by reflexivity. split; reflexivity.
Defined.

Lemma apply_then_remove_restores_witness :
  my_applications_DELETE (RT := demoRuntime) demo_application_param (Some "seeker-a1")
    (applications_POST (RT := demoRuntime) demo_now demo_application_id
       (apply_request "seeker-a1" demo_job_param) demo_store0).2 =
    (json (Message "Application removed successfully.") 200, demo_store0).
Proof.
  apply (apply_then_remove_restores (RT := demoRuntime) demo_now demo_application_id
           (apply_request "seeker-a1" demo_job_param) demo_store0
           demo_job_id ann_id (inc_job_applicants (-1) demo_job) (demo_ann [])
           demo_application_param demo_store0_consistent demo_apply_accepted);
    [done|reflexivity|reflexivity].
Defined.

Lemma job_delete_frame_witness :
  jobs_id_DELETE (RT := demoRuntime) demo_job_param (Some "employer-e2") demo_store =
    (json (Message "Access denied. You can only delete your own jobs.") 403, demo_store).
Proof.
  destruct (job_delete_frame (RT := demoRuntime) demo_job_param (Some "employer-e2")
              demo_store "employer-e2" globex_token demo_job_id globex_id demo_job)
    as [Hforbidden _]; [reflexivity..|].
  apply Hforbidden. done.
Defined.

Lemma employer_list_own_jobs_witness :
  ∃ views,
    (jobs_employer_GET (RT := demoRuntime) demo_now (Some "employer-e1")
       demo_expired_store).1 = json (JobsJson views) 200 ∧
    applications (jobs_employer_GET (RT := demoRuntime) demo_now (Some "employer-e1")
                    demo_expired_store).2 = applications demo_expired_store.
Proof.
  destruct (employer_list_own_jobs (RT := demoRuntime) demo_now (Some "employer-e1")
              demo_expired_store "employer-e1" acme_token acme_id)
    as (views & Hviews & _ & _ & Happs & _); [reflexivity..|].
  exists views. by split.
Defined.

Lemma empty_store_no_account k id a : ¬ account_at empty_store k id a.
Proof. destruct k; intros (doc & Hdoc & _); simpl in Hdoc; by rewrite lookup_empty in Hdoc. Qed.

Lemma ada_valid_registration (name : string) :
  name = "Ada" ∨ name = "ADA" →
  valid_registration (RT := demoRuntime) (demo_registration name "secret1")
    name "secret1" "Ada" "Smith" "job-seeker" "ada@example.org".
Proof.
  intros [-> | ->];
    (split_and!; [reflexivity..|simpl; lia|reflexivity|reflexivity|by left
                 |reflexivity|reflexivity|reflexivity]).
Qed.



Lemma register_then_login_witness :
  resp_status
    (auth_login_POST (RT := demoRuntime) (Some (demo_login "ADA" "secret1"))
       (auth_register_POST (RT := demoRuntime) demo_now ada_id "token"
          (Some (demo_registration "Ada" "secret1")) empty_store).2).1 = 200 ∧
  resp_cookie
    (auth_login_POST (RT := demoRuntime) (Some (demo_login "ADA" "secret1"))
       (auth_register_POST (RT := demoRuntime) demo_now ada_id "token"
          (Some (demo_registration "Ada" "secret1")) empty_store).2).1 =
    Some "job-seeker:0000000000000000000000ad:ada".
Proof.
  rewrite (register_then_login (RT := demoRuntime) demo_now ada_id "token"
             (demo_registration "Ada" "secret1") empty_store
             "Ada" "secret1" "Ada" "Smith" "job-seeker" "ada@example.org"
             (demo_login "ADA" "secret1") "ADA").
  - split; reflexivity.
  - apply ada_valid_registration. by left.
  - intros k id a Ha. by destruct (empty_store_no_account k id a).
  - intros a. apply empty_store_no_account.
  - reflexivity.
  - reflexivity.
  - reflexivity.
  - reflexivity.
  - by left.
Defined.

Lemma application_routes_keep_accounts_witness :
  same_accounts demo_store0
    (applications_POST (RT := demoRuntime) demo_now demo_application_id
       (apply_request "seeker-a1" demo_job_param) demo_store0).2.
Proof.
  apply (application_routes_keep_accounts (RT := demoRuntime)).
  apply rtc_once. apply app_step_apply.
Defined.

Lemma empty_store_unique_usernames : unique_usernames empty_store.
Proof. intros k1 id1 a1 k2 id2 a2 Ha1. by destruct (empty_store_no_account k1 id1 a1). Qed.

Lemma routes_keep_usernames_unique_witness :
  unique_usernames
    (auth_register_POST (RT := demoRuntime) demo_now ada_id "token"
       (Some (demo_registration "Ada" "secret1")) empty_store).2.
Proof.
  apply (routes_keep_usernames_unique (RT := demoRuntime) empty_store).
  - apply any_step_register.
  - intros id [[s Hs] _]. simpl in Hs. by rewrite lookup_empty in Hs.
  - apply empty_store_unique_usernames.
Defined.

Lemma reset_password_never_succeeds_witness :
  resp_status
    (auth_reset_password_POST (RT := demoRuntime) demo_now
       (Some {| rs_token := Some "token"; rs_newPassword := Some "new-secret" |})
       (auth_register_POST (RT := demoRuntime) demo_now ada_id "token"
          (Some (demo_registration "Ada" "secret1")) empty_store).2).1 ≠ 200.
Proof.
  destruct (reset_password_never_succeeds (RT := demoRuntime) empty_store
              (auth_register_POST (RT := demoRuntime) demo_now ada_id "token"
                 (Some (demo_registration "Ada" "secret1")) empty_store).2
              demo_now
              (Some {| rs_token := Some "token"; rs_newPassword := Some "new-secret" |}))
    as [Hstatus _].
  - intros k id a Ha. by destruct (empty_store_no_account k id a).
  - apply rtc_once. apply any_step_register.
  - exact Hstatus.
Defined.



Lemma ada_store_account_at k id a :
  account_at ada_store k id a → k = true ∧ id = ada_id ∧ a = ada_account.
Proof.
  destruct k; intros (doc & Hdoc & <-); simpl in Hdoc.
  - apply lookup_insert_Some in Hdoc as [[<- <-]|[_ Hdoc]]; [done|].
    by rewrite lookup_empty in Hdoc.
  - by rewrite lookup_empty in Hdoc.
Qed.

Lemma ada_store_unique_usernames : unique_usernames ada_store.
Proof.
  intros k1 id1 a1 k2 id2 a2 Ha1 Ha2 _.
  apply ada_store_account_at in Ha1 as (-> & -> & _).
  by apply ada_store_account_at in Ha2 as (-> & -> & _).
Qed.

Lemma forgot_then_login_witness :
  resp_status
    (auth_login_POST (RT := demoRuntime) (Some (demo_login "ADA" "ABC"))
       (auth_forgot_password_POST (RT := demoRuntime) [0; 1; 2]%N true
          (Some (JStr "Ada")) ada_store).2).1 = 200.
Proof.
  rewrite (forgot_then_login (RT := demoRuntime) [0; 1; 2]%N "Ada" ada_store
             true ada_id ada_account (demo_login "ADA" "ABC") "ADA").
  - reflexivity.
  - apply ada_store_unique_usernames.
  - eexists. split; reflexivity.
  - done.
  - reflexivity.
  - done.
  - reflexivity.
  - reflexivity.
  - reflexivity.
  - reflexivity.
  - reflexivity.
Defined.

Lemma settings_password_change_requires_current_witness :
  ∃ data token decoded current,
    Some (password_change "ann-secret" "new-secret") = Some data ∧
    present (Some "seeker-a1") = Some token ∧
    verifyToken (Runtime := demoRuntime) token = Some decoded ∧
    ObjectId_new (Runtime := demoRuntime) (tok_userId decoded) = Some ann_id ∧
    true = (tok_role decoded =? "job-seeker") ∧
    sb_currentPassword data = JStr current ∧
    verifyPassword (Runtime := demoRuntime) current
      (passwordHash (demo_account "ann" "hash(ann-secret)" false)) = true.
Proof.
  apply (settings_password_change_requires_current (RT := demoRuntime)
           (Some "seeker-a1") (Some (password_change "ann-secret" "new-secret"))
           demo_store true ann_id
           (demo_account "ann" "hash(ann-secret)" false)
           (assign_updates None (Some "hash(new-secret)")
              (demo_account "ann" "hash(ann-secret)" false))).
  - eexists. split; reflexivity.
  - eexists. split; reflexivity.
  - done.
Defined.

Lemma applications_GET_lists_job_applications_witness :
  ∃ id app,
    applications demo_store !! id = Some app ∧
    format_application demo_application_id demo_application = format_application id app.
Proof.
  destruct (applications_GET_lists_job_applications (RT := demoRuntime)
              (Some "employer-e1") (Some demo_job_param) demo_store
              [format_application demo_application_id demo_application])
    as (token & decoded & jobIdString & jid & job & _ & _ & _ & _ & _ & _ & Hitems);
    [reflexivity|].
  destruct (proj1 (Hitems (format_application demo_application_id demo_application)))
    as (id & app & Happ & _ & Hformat); [by left|].
  by exists id, app.
Defined.

Lemma applications_GET_open_to_job_seekers_witness :
  ∃ items,
    applications_GET (RT := demoRuntime) (Some "seeker-a1") (Some demo_job_param)
      demo_store = Listed items ∧
    format_application demo_application_id demo_application ∈ items.
Proof.
  destruct (applications_GET_open_to_job_seekers (RT := demoRuntime)
              (Some "seeker-a1") (Some demo_job_param) demo_store
              "seeker-a1" demo_job_param ann_token demo_job_id demo_job)
    as (items & Hlist & Hitems); [first [reflexivity|done]..|].
  exists items. split; [exact Hlist|].
  apply Hitems; reflexivity.
Defined.

Lemma middleware_protected_requires_cookie_witness :
  middleware "/settings/security" None ≠ Next.
Proof.
  destruct (middleware_protected_requires_cookie "/settings/security" "/settings" None)
    as [[Hnext _] _].
  - apply list_elem_of_In. simpl. tauto.
  - reflexivity.
  - intros Hserved. by destruct (Hnext Hserved) as (token & ? & _).
Defined.

Lemma middleware_redirect_no_loop_witness :
  middleware "/auth/login/employer" None = Next.
Proof.
  apply (middleware_redirect_no_loop "/settings" "/auth/login/employer" None).
  reflexivity.
Defined.

Lemma temporary_password_modulo_bias_witness :
  length (bytes_for 3) = 5%nat ∧ length (bytes_for 40) = 4%nat.
Proof.
  split.
  - apply (temporary_password_modulo_bias 3). simpl. lia.
  - apply (temporary_password_modulo_bias 40). simpl. lia.
Defined.

Lemma retry_stops_at_first_settled_witness :
  retryOperation flaky_operation 3 1000 =
    {| run_result := inl "profile"; run_calls := 3; run_delays := [1000; 2000]%nat |}.
Proof.
  apply (retry_stops_at_first_settled flaky_operation 3 1000 3 (inl "profile")).
  - lia.
  - intros j Hj. destruct j as [|[|[|j]]]; [lia|reflexivity|reflexivity|lia].
  - reflexivity.
Defined.

Lemma retry_exhausted_throws_last_witness :
  retryOperation failing_operation 3 1000 =
    {| run_result := inr (Some network_error); run_calls := 3;
       run_delays := [1000; 2000]%nat |}.
Proof.
  apply (retry_exhausted_throws_last failing_operation 3 1000 network_error).
  - lia.
  - intros j Hj. reflexivity.
  - reflexivity.
Defined.

Lemma my_applications_GET_lists_own_applications_witness :
  ∃ items,
    my_applications_GET (RT := demoRuntime) (Some "seeker-a1") demo_store = Listed items.
Proof.
  destruct (my_applications_GET_lists_own_applications (RT := demoRuntime)
              (Some "seeker-a1") demo_store "seeker-a1" ann_token ann_id
              (demo_ann [demo_appliedJob]) demo_store_consistent)
    as (items & Hlist & _); [reflexivity..|].
  by exists items.
Defined.

Lemma status_update_reaches_applicant_witness :
  ∃ items v,
    my_applications_GET (RT := demoRuntime) (Some "seeker-a1")
      (applications_PATCH (RT := demoRuntime) demo_application_param
         (patch_request "employer-e1" (JStr "Shortlisted") JUndefined) demo_store).2 =
      Listed items ∧
    v ∈ items ∧ mv_status v = Shortlisted.
Proof.
  destruct (status_update_reaches_applicant (RT := demoRuntime) demo_application_param
              (patch_request "employer-e1" (JStr "Shortlisted") JUndefined) demo_store
              "employer-e1" acme_token JUndefined demo_application_id demo_application
              demo_job Shortlisted (Some "seeker-a1") "seeker-a1" ann_token
              demo_store_consistent)
    as (items & v & Hlist & Hv & _ & _ & Hstatus); [first [reflexivity|done]..| |].
  - intros s e Hs He _.
    change (Some (demo_ann [demo_appliedJob]) = Some s) in Hs. injection Hs as <-.
    apply list_elem_of_singleton in He as ->. by split.
  - by exists items, v.
Defined.

(** A token issued in New York at 01:45 on the night the clocks go back
    expires 90 minutes later, not 30: [setMinutes] moves the local time
    to 02:15, which is read in winter time. *)
Lemma generateTokenExpiry_clocks_go_back :
  generateTokenExpiry (RT := new_york_runtime) (fall_back - 900000) 30 =
    (fall_back - 900000 + 5400000)%Z ∧
  ¬ steady_clock (RT := new_york_runtime) (fall_back - 900000) 30.
Proof. split; [reflexivity|]. by vm_compute. Qed.

(** * Login and PATCH on the example store *)





